(** * Bouldering league dashboard: the aggregation and awards engine

    A shallow embedding of the pure pipeline of [main.js]
    ([computePoints], [aggregateClimberStats], [aggregateTeamStats],
    [computeFunStats], [sortLeaderboard]) together with the properties the
    specification states about it, and of the code around it: the CSV
    reader ([parseCsv], [parseCSVLine]), [aggregateDivisionStats],
    [filterByComp] and [AppState.computeAllStats], the two searches, the
    arrays the leaderboard tables display, and the data source addresses of
    [config.js], with further properties read off that code.

    Conventions of the embedding.
    - A JavaScript number that the pipeline adds, compares or stores in a
      total is an integer-valued double or NaN; it is modelled by [number]
      ([Num z] or [NaN]), exact below 2^53.
    - Row fields hold JavaScript values ([value]); identifiers and names are
      strings, as the CSV layer produces them.
    - A JavaScript [Map] is an association list in insertion order, which is
      the order [forEach] visits it in.
    - A row object of the CSV reader is the association list of its own
      properties; an assignment to [__proto__] adds none.
    - Where a statement needs the sums of attempts to be exact it says so:
      [withinSafeRange] bounds the sizes that are added by 2^53.
    - The points-per-attempt ratio of the Efficiency King award is a
      binary64 float, computed with the primitive floats.
    - Strings are sequences of code units below 256; white space and letter
      case are those ECMAScript gives these code units. The collation of
      [localeCompare] belongs to the host and is a parameter.
    - [Array.prototype.sort] is the stable sort ECMAScript specifies; its
      result is determined when the comparison function is consistent.
    - Warnings written to the console are not modelled.
    - A [TypeError] raised by reading a property of [undefined] is an
      explicit [Throw] result. *)

From Stdlib Require Import ZArith List String Ascii Bool Lia.
From Stdlib Require Import Permutation Sorted.
From Stdlib Require Import Floats.PrimFloat Numbers.Cyclic.Int63.Uint63.
From Stdlib Require Import DecimalString DecimalZ DecimalPos.
Import ListNotations.

Local Open Scope string_scope.
Local Open Scope list_scope.
Local Open Scope Z_scope.

(* ================================================================== *)
(** ** JavaScript values and the coercions the pipeline relies on     *)
(* ================================================================== *)

Module JS.

(** Integer-valued numbers and NaN. *)
Inductive number : Type :=
| NaN
| Num (z : Z).

(** Values a row field can hold. *)
Inductive value : Type :=
| VUndefined
| VNull
| VBool (b : bool)
| VNumber (n : number)
| VString (s : string).

(** [a + b] on numbers: NaN is absorbing. *)
Definition add (a b : number) : number :=
  match a, b with
  | Num x, Num y => Num (x + y)
  | _, _ => NaN
  end.

(** [a - b] on numbers. *)
Definition sub (a b : number) : number :=
  match a, b with
  | Num x, Num y => Num (x - y)
  | _, _ => NaN
  end.

(** [a > b]: false as soon as one side is NaN. *)
Definition gt (a b : number) : bool :=
  match a, b with
  | Num x, Num y => y <? x
  | _, _ => false
  end.

(** [a < b]. *)
Definition lt (a b : number) : bool := gt b a.

(** [a === b] on numbers: NaN is different from everything, itself included. *)
Definition strict_eq (a b : number) : bool :=
  match a, b with
  | Num x, Num y => x =? y
  | _, _ => false
  end.

(** [a !== b]. *)
Definition strict_ne (a b : number) : bool := negb (strict_eq a b).

(** *** Strings as code-unit lists *)

Definition code (c : ascii) : Z := Z.of_nat (nat_of_ascii c).

(** White space that [trim], [parseInt] and [ToNumber] strip: the code
    units below 256 of the ECMAScript WhiteSpace and LineTerminator sets,
    that is tab, line feed, vertical tab, form feed, carriage return, space
    and the no-break space (160). *)
Definition is_ws (c : ascii) : bool :=
  ((9 <=? code c) && (code c <=? 13)) || (code c =? 32) || (code c =? 160).

Fixpoint skip_ws (l : list ascii) : list ascii :=
  match l with
  | c :: l' => if is_ws c then skip_ws l' else l
  | [] => []
  end.

Definition trim (l : list ascii) : list ascii :=
  rev (skip_ws (rev (skip_ws l))).

(** Value of a digit in the given radix, [None] when [c] is not one. *)
Definition digit_val (radix : Z) (c : ascii) : option Z :=
  let n := code c in
  let d := if (48 <=? n) && (n <=? 57) then n - 48
           else if (97 <=? n) && (n <=? 122) then n - 87
           else if (65 <=? n) && (n <=? 90) then n - 55
           else 36 in
  if d <? radix then Some d else None.

(** Longest prefix of digits: its value (continuing from [acc]), how many
    digits were read, and the rest of the input. *)
Fixpoint take_digits (radix : Z) (l : list ascii) (acc : Z) (cnt : nat)
  : Z * nat * list ascii :=
  match l with
  | c :: l' =>
      match digit_val radix c with
      | Some d => take_digits radix l' (acc * radix + d) (S cnt)
      | None => (acc, cnt, l)
      end
  | [] => (acc, cnt, [])
  end.

Definition is_char (c : ascii) (a b : string) : bool :=
  (String c EmptyString =? a)%string || (String c EmptyString =? b)%string.

(** *** parseInt *)

(** [parseInt(s)] for a string, radix argument absent. *)
Definition parseInt_chars (l : list ascii) : number :=
  let l := skip_ws l in
  let '(sign, l) :=
    match l with
    | c :: l' => if is_char c "-" "-" then (-1, l')
                 else if is_char c "+" "+" then (1, l') else (1, l)
    | [] => (1, l)
    end in
  let '(radix, l) :=
    match l with
    | c0 :: c1 :: l' =>
        if is_char c0 "0" "0" && is_char c1 "x" "X" then (16, l') else (10, l)
    | _ => (10, l)
    end in
  match take_digits radix l 0 0%nat with
  | (_, O, _) => NaN
  | (v, S _, _) => Num (sign * v)
  end.

(** [parseInt(v)]: the argument is first converted with ToString; an integer
    below 10^21 prints as its decimal digits and reads back as itself. *)
Definition parseInt (v : value) : number :=
  match v with
  | VString s => parseInt_chars (list_ascii_of_string s)
  | VNumber (Num z) => Num z
  | VNumber NaN => NaN
  | VBool _ | VNull | VUndefined => NaN
  end.

(** *** ToNumber on strings *)

(** What [ToNumber] yields, as far as comparisons with integers need it. *)
Inductive tonum : Type :=
| TN_nan
| TN_int (z : Z)
| TN_other.   (* a finite value with a fractional part, or an infinity *)

Definition all_digits (radix : Z) (l : list ascii) : tonum :=
  match take_digits radix l 0 0%nat with
  | (v, S _, []) => TN_int v
  | _ => TN_nan
  end.

(** Exponent part [e[+-]ddd] of a decimal literal, or nothing. *)
Definition exponent_part (l : list ascii) : option Z :=
  match l with
  | [] => Some 0
  | c :: l' =>
      if is_char c "e" "E" then
        let '(sign, l'') :=
          match l' with
          | s :: r => if is_char s "-" "-" then (-1, r)
                      else if is_char s "+" "+" then (1, r) else (1, l')
          | [] => (1, l')
          end in
        match take_digits 10 l'' 0 0%nat with
        | (v, S _, []) => Some (sign * v)
        | _ => None
        end
      else None
  end.

(** StrUnsignedDecimalLiteral, evaluated exactly. *)
Definition unsigned_decimal (sign : Z) (l : list ascii) : tonum :=
  if (string_of_list_ascii l =? "Infinity")%string then TN_other else
  let '(d1, n1, r1) := take_digits 10 l 0 0%nat in
  let '(d2, n2, r2) :=
    match r1 with
    | c :: r => if is_char c "." "." then take_digits 10 r 0 0%nat
                else (0, 0%nat, r1)
    | [] => (0, 0%nat, r1)
    end in
  match (n1 + n2)%nat with
  | O => TN_nan
  | S _ =>
      match exponent_part r2 with
      | None => TN_nan
      | Some e =>
          let m := d1 * 10 ^ Z.of_nat n2 + d2 in
          let scale := e - Z.of_nat n2 in
          if m =? 0 then TN_int 0
          else if 0 <=? scale then TN_int (sign * m * 10 ^ scale)
          else let p := 10 ^ (- scale) in
               if m mod p =? 0 then TN_int (sign * (m / p)) else TN_other
      end
  end.

(** [ToNumber(s)] (StringToNumber): white space is trimmed, the empty
    string is 0, then a radix-prefixed integer or a signed decimal literal
    must span the whole string. *)
Definition string_to_number (s : string) : tonum :=
  match trim (list_ascii_of_string s) with
  | [] => TN_int 0
  | (c0 :: c1 :: l') as l =>
      if is_char c0 "0" "0" && is_char c1 "x" "X" then all_digits 16 l'
      else if is_char c0 "0" "0" && is_char c1 "o" "O" then all_digits 8 l'
      else if is_char c0 "0" "0" && is_char c1 "b" "B" then all_digits 2 l'
      else if is_char c0 "-" "-" then unsigned_decimal (-1) (c1 :: l')
      else if is_char c0 "+" "+" then unsigned_decimal 1 (c1 :: l')
      else unsigned_decimal 1 l
  | [c0] => unsigned_decimal 1 [c0]
  end.

Definition to_number (v : value) : tonum :=
  match v with
  | VUndefined => TN_nan
  | VNull => TN_int 0
  | VBool b => TN_int (if b then 1 else 0)
  | VNumber NaN => TN_nan
  | VNumber (Num z) => TN_int z
  | VString s => string_to_number s
  end.

(** [v == k] for an integer literal [k] (IsLooselyEqual with a Number on the
    right): [undefined] and [null] are equal to no number, a Boolean or a
    String is converted with ToNumber first. *)
Definition loose_eq (v : value) (k : Z) : bool :=
  match v with
  | VUndefined | VNull => false
  | _ => match to_number v with
         | TN_int z => z =? k
         | _ => false
         end
  end.

(** ToBoolean. *)
Definition truthy (v : value) : bool :=
  match v with
  | VUndefined | VNull => false
  | VBool b => b
  | VNumber NaN => false
  | VNumber (Num z) => negb (z =? 0)
  | VString s => negb (s =? EmptyString)%string
  end.

(** [v || 0]. *)
Definition or_zero (v : value) : value :=
  if truthy v then v else VNumber (Num 0).

End JS.

Import JS.

(* ================================================================== *)
(** ** Data model                                                      *)
(* ================================================================== *)

(** A row of the roster sheet. *)
Record RosterEntry : Type := mkRoster {
  tr_team_id : string;
  tr_team_name : string;
  tr_climber_id : string;
  tr_climber_name : string;
  tr_division : string
}.

(** A row of the results sheet. *)
Record ResultEntry : Type := mkResult {
  comp_id : string;
  comp_date : string;
  boulder_id : string;
  climber_id : string;
  attempts_to_zone : value;
  attempts_to_top : value;
  zone_completed : value;
  top_completed : value
}.

(* ================================================================== *)
(** ** Scoring                                                         *)
(* ================================================================== *)

(** [computePoints(result)]. *)
Definition computePoints (result : ResultEntry) : Z :=
  let zonePoints := if loose_eq (zone_completed result) 1 then 50 else 0 in
  let topPoints := if loose_eq (top_completed result) 1 then 50 else 0 in
  zonePoints + topPoints.

(** The expression
    [parseInt(result.attempts_to_zone || 0) + parseInt(result.attempts_to_top || 0)]
    that the source repeats wherever it needs the attempts of a row. *)
Definition rowAttempts (result : ResultEntry) : number :=
  add (parseInt (or_zero (attempts_to_zone result)))
      (parseInt (or_zero (attempts_to_top result))).

(* ================================================================== *)
(** ** Maps in insertion order                                         *)
(* ================================================================== *)

Module JsMap.

(** The type of maps with string keys. *)
Definition t (V : Type) : Type := list (string * V).

Section Ops.
Context {V : Type}.

(** [m.get(k)]; [None] is [undefined]. *)
Fixpoint get (k : string) (m : list (string * V)) : option V :=
  match m with
  | [] => None
  | (k', v) :: m' => if (k =? k')%string then Some v else get k m'
  end.

(** [m.has(k)]. *)
Definition has (k : string) (m : list (string * V)) : bool :=
  match get k m with Some _ => true | None => false end.

(** [m.set(k, v)]: an existing key keeps its position, a new one goes last.
    Writing through a reference obtained with [get] is a [set] of the
    updated object at the same key. *)
Fixpoint set (k : string) (v : V) (m : list (string * V)) : list (string * V) :=
  match m with
  | [] => [(k, v)]
  | (k', v') :: m' =>
      if (k =? k')%string then (k, v) :: m' else (k', v') :: set k v m'
  end.

Definition keys (m : list (string * V)) : list string := map fst m.
Definition values (m : list (string * V)) : list V := map snd m.
End Ops.
End JsMap.

(* ================================================================== *)
(** ** Aggregation                                                     *)
(* ================================================================== *)

(** Per-competition bucket of a climber. *)
Record CompStats : Type := mkCompStats {
  points : Z;
  attempts : number
}.

(** The identity object stored in [climberInfo]. *)
Record ClimberInfo : Type := mkInfo {
  ci_climber_id : string;
  ci_climber_name : string;
  ci_team_id : string;
  ci_team_name : string;
  ci_division : string
}.

Record ClimberStats : Type := mkClimberStats {
  cs_climber_id : string;
  cs_climber_name : string;
  cs_team_id : string;
  cs_team_name : string;
  cs_division : string;
  cs_total_points : Z;
  cs_total_attempts : number;
  cs_comp_breakdown : JsMap.t CompStats
}.

Record TeamStats : Type := mkTeamStats {
  ts_team_id : string;
  ts_team_name : string;
  ts_total_points : Z;
  ts_total_attempts : number;
  ts_climbers : list string
}.

(** First loop of [aggregateClimberStats]: the first roster row of a
    climber_id wins. *)
Definition climberInfoOf (teams : list RosterEntry) : JsMap.t ClimberInfo :=
  fold_left
    (fun climberInfo teamRow =>
       if JsMap.has (tr_climber_id teamRow) climberInfo then climberInfo
       else JsMap.set (tr_climber_id teamRow)
              (mkInfo (tr_climber_id teamRow) (tr_climber_name teamRow)
                      (tr_team_id teamRow) (tr_team_name teamRow)
                      (tr_division teamRow))
              climberInfo)
    teams [].

(** Second loop: one zeroed entry per registered climber. *)
Definition seedClimberStats (climberInfo : JsMap.t ClimberInfo) : JsMap.t ClimberStats :=
  fold_left
    (fun climberStats entry =>
       let '(climberId, info) := entry in
       JsMap.set climberId
         (mkClimberStats (ci_climber_id info) (ci_climber_name info)
            (ci_team_id info) (ci_team_name info) (ci_division info)
            0 (Num 0) [])
         climberStats)
    climberInfo [].

(** [filterCompId ? results.filter(r => r.comp_id === filterCompId) : results];
    [None] is [null], and the empty string is falsy too. *)
Definition filteredResultsOf (results : list ResultEntry)
    (filterCompId : option string) : list ResultEntry :=
  match filterCompId with
  | None => results
  | Some c =>
      if (c =? EmptyString)%string then results
      else filter (fun r => (comp_id r =? c)%string) results
  end.

(** What one result row does to the entry of its climber: totals and the
    bucket of the row's competition, created on first use. *)
Definition addToStats (stats : ClimberStats) (result : ResultEntry)
  : ClimberStats :=
  let compId := comp_id result in
  let breakdown :=
    if JsMap.has compId (cs_comp_breakdown stats)
    then cs_comp_breakdown stats
    else JsMap.set compId (mkCompStats 0 (Num 0)) (cs_comp_breakdown stats) in
  let breakdown :=
    match JsMap.get compId breakdown with
    | Some compStats =>
        JsMap.set compId
          (mkCompStats (points compStats + computePoints result)
                       (add (attempts compStats) (rowAttempts result)))
          breakdown
    | None => breakdown
    end in
  mkClimberStats (cs_climber_id stats) (cs_climber_name stats)
    (cs_team_id stats) (cs_team_name stats) (cs_division stats)
    (cs_total_points stats + computePoints result)
    (add (cs_total_attempts stats) (rowAttempts result))
    breakdown.

(** Body of the loop over the filtered results: a row of an unknown climber
    is skipped. The warning written to the console is not part of the model. *)
Definition addResult (climberStats : JsMap.t ClimberStats) (result : ResultEntry)
  : JsMap.t ClimberStats :=
  let climberId := climber_id result in
  match JsMap.get climberId climberStats with
  | None => climberStats
  | Some stats => JsMap.set climberId (addToStats stats result) climberStats
  end.

(** [aggregateClimberStats(teams, results, filterCompId)]. *)
Definition aggregateClimberStats (teams : list RosterEntry)
    (results : list ResultEntry) (filterCompId : option string)
  : JsMap.t ClimberStats :=
  fold_left addResult (filteredResultsOf results filterCompId)
    (seedClimberStats (climberInfoOf teams)).

(** First loop of [aggregateTeamStats]: create the team on first sight and
    record each climber_id once. *)
Definition initTeam (teamStats : JsMap.t TeamStats) (teamRow : RosterEntry)
  : JsMap.t TeamStats :=
  let teamStats :=
    if JsMap.has (tr_team_id teamRow) teamStats then teamStats
    else JsMap.set (tr_team_id teamRow)
           (mkTeamStats (tr_team_id teamRow) (tr_team_name teamRow) 0 (Num 0) [])
           teamStats in
  match JsMap.get (tr_team_id teamRow) teamStats with
  | Some team =>
      if existsb (String.eqb (tr_climber_id teamRow)) (ts_climbers team)
      then teamStats
      else JsMap.set (tr_team_id teamRow)
             (mkTeamStats (ts_team_id team) (ts_team_name team)
                (ts_total_points team) (ts_total_attempts team)
                (ts_climbers team ++ [tr_climber_id teamRow]))
             teamStats
  | None => teamStats
  end.

(** Second loop: fold a climber's totals into its team, when there is one. *)
Definition addClimber (teamStats : JsMap.t TeamStats)
    (entry : string * ClimberStats) : JsMap.t TeamStats :=
  let stats := snd entry in
  let teamId := cs_team_id stats in
  match JsMap.get teamId teamStats with
  | Some team =>
      JsMap.set teamId
        (mkTeamStats (ts_team_id team) (ts_team_name team)
           (ts_total_points team + cs_total_points stats)
           (add (ts_total_attempts team) (cs_total_attempts stats))
           (ts_climbers team))
        teamStats
  | None => teamStats
  end.

(** [aggregateTeamStats(climberStats, teams)]. *)
Definition aggregateTeamStats (climberStats : JsMap.t ClimberStats)
    (teams : list RosterEntry) : JsMap.t TeamStats :=
  fold_left addClimber climberStats (fold_left initTeam teams []).

(** [filterByComp(results, compId)]. *)
Definition filterByComp (results : list ResultEntry) (compId : string)
  : list ResultEntry :=
  if (compId =? "all")%string then results
  else filter (fun result => (comp_id result =? compId)%string) results.

(* ================================================================== *)
(** ** Arrays: sort and join                                           *)
(* ================================================================== *)

Module JsArray.
Section Sort.
Context {A : Type}.

(** [after x y] stands for [comparefn(x, y) > 0]. A NaN returned by
    [comparefn] counts as +0, so it is never [after]. *)
Variable after : A -> A -> bool.

(** [Array.prototype.sort] is stable, and for a consistent [comparefn] its
    result is the one arrangement that is ordered and keeps equal elements
    in their original order: each element, taken from the right, goes in
    front of the first element it is not [after]. *)
Fixpoint insert (x : A) (l : list A) : list A :=
  match l with
  | [] => [x]
  | y :: l' => if after x y then y :: insert x l' else x :: l
  end.

Fixpoint sort (l : list A) : list A :=
  match l with
  | [] => []
  | x :: l' => insert x (sort l')
  end.
End Sort.

(** [l.join(sep)]. *)
Definition join (sep : string) (l : list string) : string :=
  String.concat sep l.

End JsArray.

(* ================================================================== *)
(** ** Leaderboard ranking                                             *)
(* ================================================================== *)

(** The two numeric properties [sortLeaderboard] reads from an item,
    whichever object it is. *)
Class Ranked (A : Type) : Type := {
  total_points : A -> Z;
  total_attempts : A -> number
}.

#[export] Instance ClimberRanked : Ranked ClimberStats :=
  {| total_points := cs_total_points; total_attempts := cs_total_attempts |}.

#[export] Instance TeamRanked : Ranked TeamStats :=
  {| total_points := ts_total_points; total_attempts := ts_total_attempts |}.

(** [s.toLowerCase()] on code units below 256: the letters A to Z and the
    Latin-1 capitals 192 to 222, the multiplication sign (215) apart, move
    up by 32; every other code unit stays. *)
Definition lower_char (c : ascii) : ascii :=
  if ((65 <=? code c) && (code c <=? 90))
     || ((192 <=? code c) && (code c <=? 222) && negb (code c =? 215))
  then ascii_of_nat (nat_of_ascii c + 32) else c.

Fixpoint toLowerCase (s : string) : string :=
  match s with
  | EmptyString => EmptyString
  | String c s' => String (lower_char c) (toLowerCase s')
  end.

Section Leaderboard.
(** The host's [String.prototype.localeCompare]: negative, zero or
    positive. Its collation belongs to the engine, not to the repository. *)
Variable localeCompare : string -> string -> Z.

(** [compareText(a, b)], on names that are strings. *)
Definition compareText (a b : string) : Z :=
  localeCompare (toLowerCase a) (toLowerCase b).

Context {A : Type} `{Ranked A}.

(** The comparator of [sortLeaderboard]. *)
Definition leaderboardCompare (nameKey : A -> string) (a b : A) : number :=
  if negb (total_points a =? total_points b)
  then Num (total_points b - total_points a)
  else if strict_ne (total_attempts a) (total_attempts b)
  then sub (total_attempts a) (total_attempts b)
  else Num (compareText (nameKey a) (nameKey b)).

(** [sortLeaderboard(data, nameKey)], as a function of the array contents. *)
Definition sortLeaderboard (data : list A) (nameKey : A -> string) : list A :=
  JsArray.sort (fun a b => gt (leaderboardCompare nameKey a b) (Num 0)) data.

(** *** The same function on a store of arrays

    Arrays are objects: [data] is a reference, the spread [[...data]]
    allocates a new array and [sort] rearranges the array it is called on. *)
Definition ref : Type := nat.
Definition store : Type := list (list A).

(** Computations that may read and write the store. *)
Definition St (X : Type) : Type := store -> X * store.
Definition ret {X} (x : X) : St X := fun h => (x, h).
Definition bind {X Y} (m : St X) (k : X -> St Y) : St Y :=
  fun h => let '(x, h') := m h in k x h'.

Definition deref (r : ref) (h : store) : list A := nth r h [].

Fixpoint assign (r : ref) (a : list A) (h : store) : store :=
  match h, r with
  | [], _ => []
  | _ :: h', O => a :: h'
  | b :: h', S r' => b :: assign r' a h'
  end.

(** [[...data]]: a new array with the elements of [data]. *)
Definition spread (data : ref) : St ref :=
  fun h => (List.length h, h ++ [deref data h]).

(** [arr.sort(comparefn)]: sorts [arr] in place and returns it. *)
Definition sort_in_place (after : A -> A -> bool) (arr : ref) : St ref :=
  fun h => (arr, assign arr (JsArray.sort after (deref arr h)) h).

Definition sortLeaderboard_st (data : ref) (nameKey : A -> string) : St ref :=
  bind (spread data)
    (sort_in_place (fun a b => gt (leaderboardCompare nameKey a b) (Num 0))).
End Leaderboard.

(* ================================================================== *)
(** ** Awards                                                          *)
(* ================================================================== *)

(** Reading a property of [undefined] raises a TypeError. *)
Inductive exn : Type := TypeError.

Inductive outcome (X : Type) : Type :=
| Ok (x : X)
| Throw (e : exn).
Arguments Ok {X} x.
Arguments Throw {X} e.

Definition obind {X Y} (m : outcome X) (k : X -> outcome Y) : outcome Y :=
  match m with
  | Ok x => k x
  | Throw e => Throw e
  end.

Notation "x <- m ;; k" := (obind m (fun x => k))
  (at level 61, m at next level, right associativity).

(** [l.length > 0], [m.size > 0]. *)
Definition nonempty {X} (l : list X) : bool :=
  0 <? Z.of_nat (List.length l).

(** [l[0]]; [None] is [undefined]. *)
Definition first {X} (l : list X) : option X := hd_error l.

(** A template literal [`${a}:${b}`]. *)
Definition colon_key (a b : string) : string := (a ++ ":" ++ b)%string.

Record TeamAward : Type := mkTeamAward {
  ta_team_name : string;
  ta_attempts : number
}.

(** Value of the [boulderAttempts] map; the two boulder awards have the same
    three properties. *)
Record BoulderData : Type := mkBoulder {
  bd_comp_id : string;
  bd_boulder_id : string;
  bd_attempts : number
}.

(** Try Hard candidate and award ([is_tie] absent reads as false). *)
Record TryHard : Type := mkTryHard {
  th_climber_name : string;
  th_attempts : number;
  th_tops : Z;
  th_is_tie : bool
}.

(** Flash Master and Zone Hero: a count ([flashes], [zones]) per climber. *)
Record CountAward : Type := mkCountAward {
  ca_climber_name : string;
  ca_count : Z;
  ca_attempts : number;
  ca_is_tie : bool
}.

(** Most attempts by team. *)
Definition mostAttemptsTeam (teamStats : JsMap.t TeamStats) : option TeamAward :=
  if nonempty teamStats then
    let '(_, maxTeam) :=
      fold_left
        (fun (st : number * option TeamStats) (entry : string * TeamStats) =>
           let '(maxAttempts, maxTeam) := st in
           let team := snd entry in
           if gt (ts_total_attempts team) maxAttempts
           then (ts_total_attempts team, Some team)
           else (maxAttempts, maxTeam))
        teamStats (Num (-1), None) in
    match maxTeam with
    | Some t => Some (mkTeamAward (ts_team_name t) (ts_total_attempts t))
    | None => None
    end
  else None.

(** Attempts summed per (competition, boulder). *)
Definition boulderAttemptsOf (results : list ResultEntry) : JsMap.t BoulderData :=
  fold_left
    (fun boulderAttempts result =>
       let key := colon_key (comp_id result) (boulder_id result) in
       let boulderAttempts :=
         if JsMap.has key boulderAttempts then boulderAttempts
         else JsMap.set key
                (mkBoulder (comp_id result) (boulder_id result) (Num 0))
                boulderAttempts in
       match JsMap.get key boulderAttempts with
       | Some boulderData =>
           JsMap.set key
             (mkBoulder (bd_comp_id boulderData) (bd_boulder_id boulderData)
                (add (bd_attempts boulderData) (rowAttempts result)))
             boulderAttempts
       | None => boulderAttempts
       end)
    results [].

Definition mostAttemptsBoulder (boulderAttempts : JsMap.t BoulderData)
  : option BoulderData :=
  snd (fold_left
         (fun (st : number * option BoulderData) (entry : string * BoulderData) =>
            let '(maxBoulderAttempts, maxBoulder) := st in
            let boulder := snd entry in
            if gt (bd_attempts boulder) maxBoulderAttempts
            then (bd_attempts boulder, Some boulder)
            else (maxBoulderAttempts, maxBoulder))
         boulderAttempts (Num (-1), None)).

(** [x < bound], where no bound yet is [Infinity]. *)
Definition below (x : number) (bound : option number) : bool :=
  match bound with
  | Some b => lt x b
  | None => match x with Num _ => true | NaN => false end
  end.

Definition leastAttemptsBoulder (boulderAttempts : JsMap.t BoulderData)
  : option BoulderData :=
  snd (fold_left
         (fun (st : option number * option BoulderData)
              (entry : string * BoulderData) =>
            let '(minBoulderAttempts, minBoulder) := st in
            let boulder := snd entry in
            if gt (bd_attempts boulder) (Num 0)
               && below (bd_attempts boulder) minBoulderAttempts
            then (Some (bd_attempts boulder), Some boulder)
            else (minBoulderAttempts, minBoulder))
         boulderAttempts (None, None)).

(** Try Hard: most attempts among climbers with a top, then most tops. *)
Definition tryHardCandidates (results : list ResultEntry)
    (climberStats : JsMap.t ClimberStats) : list TryHard :=
  fold_left
    (fun candidates (entry : string * ClimberStats) =>
       let climber := snd entry in
       let climberResults :=
         filter (fun r => (climber_id r =? cs_climber_id climber)%string) results in
       let hasTops :=
         existsb (fun r => loose_eq (top_completed r) 1) climberResults in
       let topCount :=
         Z.of_nat (List.length
           (filter (fun r => loose_eq (top_completed r) 1) climberResults)) in
       if hasTops
       then candidates ++
            [mkTryHard (cs_climber_name climber) (cs_total_attempts climber)
                       topCount false]
       else candidates)
    climberStats [].

Definition tryHardCompare (a b : TryHard) : number :=
  if strict_ne (th_attempts a) (th_attempts b)
  then sub (th_attempts b) (th_attempts a)
  else Num (th_tops b - th_tops a).

Definition tryHardAward (results : list ResultEntry)
    (climberStats : JsMap.t ClimberStats) : outcome (option TryHard) :=
  if nonempty climberStats then
    let candidates := tryHardCandidates results climberStats in
    if nonempty candidates then
      let candidates :=
        JsArray.sort (fun a b => gt (tryHardCompare a b) (Num 0)) candidates in
      match first candidates with
      | None => Throw TypeError
      | Some c0 =>
          let maxAttempts := th_attempts c0 in
          let maxTops := th_tops c0 in
          let winners :=
            filter (fun c => strict_eq (th_attempts c) maxAttempts
                             && (th_tops c =? maxTops)) candidates in
          match winners with
          | [w] => Ok (Some w)
          | [] => Throw TypeError
          | w0 :: _ =>
              Ok (Some (mkTryHard
                          (JsArray.join " & " (map th_climber_name winners))
                          (th_attempts w0) (th_tops w0) true))
          end
      end
    else Ok None
  else Ok None.

(** Flash Master and Zone Hero are the same code up to the test on the row
    and the name of the count property; [counted] is that test. *)
Section CountAward.
Variable counted : ResultEntry -> bool.

Definition countsOf (results : list ResultEntry) : JsMap.t Z :=
  fold_left
    (fun counts result =>
       if counted result then
         let climberId := climber_id result in
         JsMap.set climberId
           (match JsMap.get climberId counts with
            | Some c => c
            | None => 0
            end + 1)
           counts
       else counts)
    results [].

Definition maxCount (counts : JsMap.t Z) : Z :=
  fold_left (fun maxC (entry : string * Z) =>
               if maxC <? snd entry then snd entry else maxC)
            counts 0.

Definition countCandidates (counts : JsMap.t Z) (maxC : Z)
    (climberStats : JsMap.t ClimberStats) : list CountAward :=
  fold_left
    (fun candidates (entry : string * Z) =>
       let '(climberId, count) := entry in
       if count =? maxC then
         match JsMap.get climberId climberStats with
         | Some climber =>
             candidates ++
             [mkCountAward (cs_climber_name climber) count
                           (cs_total_attempts climber) false]
         | None => candidates
         end
       else candidates)
    counts [].

Definition countAward (results : list ResultEntry)
    (climberStats : JsMap.t ClimberStats) : outcome (option CountAward) :=
  if nonempty results && nonempty climberStats then
    let counts := countsOf results in
    let maxC := maxCount counts in
    if 0 <? maxC then
      let candidates := countCandidates counts maxC climberStats in
      let candidates :=
        JsArray.sort
          (fun a b => gt (sub (ca_attempts a) (ca_attempts b)) (Num 0))
          candidates in
      match first candidates with
      | None => Throw TypeError
      | Some c0 =>
          let fewestAttempts := ca_attempts c0 in
          let winners :=
            filter (fun c => strict_eq (ca_attempts c) fewestAttempts)
                   candidates in
          match winners with
          | [w] => Ok (Some w)
          | [] => Throw TypeError
          | w0 :: _ =>
              Ok (Some (mkCountAward
                          (JsArray.join " & " (map ca_climber_name winners))
                          (ca_count w0) (ca_attempts w0) true))
          end
      end
    else Ok None
  else Ok None.
End CountAward.

(** [result.top_completed == 1 && result.attempts_to_top == 1]. *)
Definition isFlash (result : ResultEntry) : bool :=
  loose_eq (top_completed result) 1 && loose_eq (attempts_to_top result) 1.

(** [result.zone_completed == 1 && result.top_completed == 0]. *)
Definition isZoneOnly (result : ResultEntry) : bool :=
  loose_eq (zone_completed result) 1 && loose_eq (top_completed result) 0.

Definition flashMaster := countAward isFlash.
Definition zoneHero := countAward isZoneOnly.

(** Efficiency King: best points per attempt. The ratio is a double; the
    rendering [ratio.toFixed(2)] kept next to it for display is left out. *)
Record Efficiency : Type := mkEfficiency {
  ek_climber_name : string;
  ek_ratio : float;
  ek_is_tie : bool
}.

(** An integer total as a double (exact below 2^53). *)
Definition to_float (z : Z) : float := PrimFloat.of_uint63 (Uint63.of_Z z).

(** [climber.total_points / climber.total_attempts]. *)
Definition ratioOf (total_points : Z) (total_attempts : number) : float :=
  match total_attempts with
  | Num a => PrimFloat.div (to_float total_points) (to_float a)
  | NaN => PrimFloat.nan
  end.

Definition efficiencyCandidates (climberStats : JsMap.t ClimberStats)
  : list Efficiency :=
  fold_left
    (fun candidates (entry : string * ClimberStats) =>
       let climber := snd entry in
       if gt (cs_total_attempts climber) (Num 0)
       then candidates ++
            [mkEfficiency (cs_climber_name climber)
               (ratioOf (cs_total_points climber) (cs_total_attempts climber))
               false]
       else candidates)
    climberStats [].

(** [(a, b) => b.ratio - a.ratio] is positive. *)
Definition efficiencyAfter (a b : Efficiency) : bool :=
  PrimFloat.ltb 0%float (PrimFloat.sub (ek_ratio b) (ek_ratio a)).

(** The literal [0.001]: the double nearest to one thousandth, written with
    its exact binary digits. *)
Definition tolerance : float := 0x1.0624dd2f1a9fcp-10%float.

(** [Math.abs(c.ratio - bestRatio) < 0.001]. *)
Definition nearBest (bestRatio : float) (c : Efficiency) : bool :=
  PrimFloat.ltb (PrimFloat.abs (PrimFloat.sub (ek_ratio c) bestRatio))
                tolerance.

Definition efficiencyKing (climberStats : JsMap.t ClimberStats)
  : outcome (option Efficiency) :=
  if nonempty climberStats then
    let candidates := efficiencyCandidates climberStats in
    if nonempty candidates then
      let candidates := JsArray.sort efficiencyAfter candidates in
      match first candidates with
      | None => Throw TypeError
      | Some c0 =>
          let bestRatio := ek_ratio c0 in
          let winners := filter (nearBest bestRatio) candidates in
          match winners with
          | [w] => Ok (Some (mkEfficiency (ek_climber_name w) (ek_ratio w) false))
          | [] => Throw TypeError
          | w0 :: _ =>
              Ok (Some (mkEfficiency
                          (JsArray.join " & " (map ek_climber_name winners))
                          (ek_ratio w0) true))
          end
      end
    else Ok None
  else Ok None.

(** Perfect Score. *)

(** Value of the [compClimberTops] map. *)
Record TopsData : Type := mkTops {
  td_climberId : string;
  td_compId : string;
  td_tops : Z
}.

(** A perfect clearance of one competition by one climber. *)
Record PerfectEntry : Type := mkPerfect {
  pe_climber_name : string;
  pe_climber_id : string;
  pe_comp_id : string;
  pe_boulders : Z;
  pe_attempts : number
}.

(** The award; [climber_id] exists for a single winner only, [is_tie] and
    [winner_count] for a tie only. *)
Record PerfectScore : Type := mkPerfectScore {
  ps_climber_name : string;
  ps_climber_id : option string;
  ps_comp_id : string;
  ps_boulders : Z;
  ps_attempts : number;
  ps_is_tie : bool;
  ps_winner_count : option Z;
  ps_other_comps_count : Z
}.

(** [s.add(x)] on a [Set] of strings. *)
Definition set_add (x : string) (s : list string) : list string :=
  if existsb (String.eqb x) s then s else s ++ [x].

(** Body of the loop that fills [compClimberTops] and [compBoulderCounts]. *)
Definition perfectScanStep (st : JsMap.t TopsData * JsMap.t (list string))
    (result : ResultEntry) : JsMap.t TopsData * JsMap.t (list string) :=
  let '(compClimberTops, compBoulderCounts) := st in
  let compId := comp_id result in
  let climberId := climber_id result in
  let key := colon_key compId climberId in
  let compBoulderCounts :=
    if JsMap.has compId compBoulderCounts then compBoulderCounts
    else JsMap.set compId [] compBoulderCounts in
  let compBoulderCounts :=
    match JsMap.get compId compBoulderCounts with
    | Some boulders =>
        JsMap.set compId (set_add (boulder_id result) boulders)
                  compBoulderCounts
    | None => compBoulderCounts
    end in
  let compClimberTops :=
    if loose_eq (top_completed result) 1 then
      let compClimberTops :=
        if JsMap.has key compClimberTops then compClimberTops
        else JsMap.set key (mkTops climberId compId 0) compClimberTops in
      match JsMap.get key compClimberTops with
      | Some data =>
          JsMap.set key
            (mkTops (td_climberId data) (td_compId data) (td_tops data + 1))
            compClimberTops
      | None => compClimberTops
      end
    else compClimberTops in
  (compClimberTops, compBoulderCounts).

Definition perfectScan (results : list ResultEntry)
  : JsMap.t TopsData * JsMap.t (list string) :=
  fold_left perfectScanStep results ([], []).

(** [compBoulderCounts.get(compId)?.size || 0]. *)
Definition totalBouldersOf (compBoulderCounts : JsMap.t (list string))
    (compId : string) : Z :=
  match JsMap.get compId compBoulderCounts with
  | Some boulders => Z.of_nat (List.length boulders)
  | None => 0
  end.

(** Attempts of one climber in one competition, as the [reduce] adds them. *)
Definition compAttemptsOf (results : list ResultEntry)
    (climberId compId : string) : number :=
  fold_left
    (fun sum r =>
       add (add sum (parseInt (or_zero (attempts_to_zone r))))
           (parseInt (or_zero (attempts_to_top r))))
    (filter (fun r => (climber_id r =? climberId)%string
                      && (comp_id r =? compId)%string) results)
    (Num 0).

Definition perfectScoresByCompOf (results : list ResultEntry)
    (climberStats : JsMap.t ClimberStats)
    (compClimberTops : JsMap.t TopsData)
    (compBoulderCounts : JsMap.t (list string))
  : JsMap.t (list PerfectEntry) :=
  fold_left
    (fun perfectScoresByComp (entry : string * TopsData) =>
       let data := snd entry in
       let totalBoulders := totalBouldersOf compBoulderCounts (td_compId data) in
       if (td_tops data =? totalBoulders) && (0 <? totalBoulders) then
         match JsMap.get (td_climberId data) climberStats with
         | Some climber =>
             let totalAttempts :=
               compAttemptsOf results (td_climberId data) (td_compId data) in
             let perfectScoresByComp :=
               if JsMap.has (td_compId data) perfectScoresByComp
               then perfectScoresByComp
               else JsMap.set (td_compId data) [] perfectScoresByComp in
             match JsMap.get (td_compId data) perfectScoresByComp with
             | Some entries =>
                 JsMap.set (td_compId data)
                   (entries ++
                    [mkPerfect (cs_climber_name climber) (td_climberId data)
                               (td_compId data) totalBoulders totalAttempts])
                   perfectScoresByComp
             | None => perfectScoresByComp
             end
         | None => perfectScoresByComp
         end
       else perfectScoresByComp)
    compClimberTops [].

(** All perfect clearances, flattened in map order. *)
Definition allPerfectScoresOf (perfectScoresByComp : JsMap.t (list PerfectEntry))
  : list PerfectEntry :=
  fold_left (fun all (entry : string * list PerfectEntry) => all ++ snd entry)
            perfectScoresByComp [].

(** [new Set(overallWinners.map(w => w.comp_id)).size]. *)
Definition distinctComps (winners : list PerfectEntry) : Z :=
  Z.of_nat (List.length
    (fold_left (fun s w => set_add (pe_comp_id w) s) winners [])).

(** The award object built from the sorted clearances and the winners. *)
Definition perfectAwardOf (allPerfectScores overallWinners : list PerfectEntry)
  : outcome (option PerfectScore) :=
  let others :=
    Z.of_nat (List.length allPerfectScores)
    - Z.of_nat (List.length overallWinners) in
  match overallWinners with
  | [w] =>
      Ok (Some (mkPerfectScore (pe_climber_name w) (Some (pe_climber_id w))
                  (pe_comp_id w) (pe_boulders w) (pe_attempts w)
                  false None
                  (Z.of_nat (List.length allPerfectScores) - 1)))
  | [] => Throw TypeError
  | w0 :: _ =>
      if distinctComps overallWinners =? 1 then
        Ok (Some (mkPerfectScore
                    (JsArray.join " & " (map pe_climber_name overallWinners))
                    None (pe_comp_id w0) (pe_boulders w0) (pe_attempts w0)
                    true (Some (Z.of_nat (List.length overallWinners)))
                    others))
      else
        Ok (Some (mkPerfectScore
                    (JsArray.join " & "
                       (map (fun w => (pe_climber_name w ++ " (Comp "
                                       ++ pe_comp_id w ++ ")")%string)
                            overallWinners))
                    None "Multiple" (pe_boulders w0) (pe_attempts w0)
                    true (Some (Z.of_nat (List.length overallWinners)))
                    others))
  end.

Definition perfectScore (results : list ResultEntry)
    (climberStats : JsMap.t ClimberStats) : outcome (option PerfectScore) :=
  if nonempty results && nonempty climberStats then
    let '(compClimberTops, compBoulderCounts) := perfectScan results in
    let perfectScoresByComp :=
      perfectScoresByCompOf results climberStats compClimberTops
                            compBoulderCounts in
    if nonempty perfectScoresByComp then
      let allPerfectScores :=
        JsArray.sort
          (fun a b => gt (sub (pe_attempts a) (pe_attempts b)) (Num 0))
          (allPerfectScoresOf perfectScoresByComp) in
      match first allPerfectScores with
      | None => Throw TypeError
      | Some p0 =>
          let fewestAttempts := pe_attempts p0 in
          let overallWinners :=
            filter (fun w => strict_eq (pe_attempts w) fewestAttempts)
                   allPerfectScores in
          perfectAwardOf allPerfectScores overallWinners
      end
    else Ok None
  else Ok None.

Record FunStats : Type := mkFunStats {
  most_attempts_team : option TeamAward;
  most_attempts_boulder : option BoulderData;
  least_attempts_boulder : option BoulderData;
  try_hard_award : option TryHard;
  flash_master : option CountAward;
  efficiency_king : option Efficiency;
  perfect_score : option PerfectScore;
  zone_hero : option CountAward
}.

(** [computeFunStats(results, climberStats, teamStats, filterCompId)]: the
    eight blocks run in this order, and the first exception ends the call.
    [filterCompId] is not read by the body. *)
Definition computeFunStats (results : list ResultEntry)
    (climberStats : JsMap.t ClimberStats) (teamStats : JsMap.t TeamStats)
    (filterCompId : string) : outcome FunStats :=
  let team := mostAttemptsTeam teamStats in
  let boulderAttempts := boulderAttemptsOf results in
  let most := if nonempty results then mostAttemptsBoulder boulderAttempts
              else None in
  let least := if nonempty results then leastAttemptsBoulder boulderAttempts
               else None in
  try_hard <- tryHardAward results climberStats ;;
  flash <- flashMaster results climberStats ;;
  efficiency <- efficiencyKing climberStats ;;
  perfect <- perfectScore results climberStats ;;
  zone <- zoneHero results climberStats ;;
  Ok (mkFunStats team most least try_hard flash efficiency perfect zone).

(* ================================================================== *)
(** ** Vocabulary of the statements                                    *)
(* ================================================================== *)

(** Sum of a list of integers. *)
Definition sumZ (l : list Z) : Z := fold_right Z.add 0 l.

(** The identity a roster row gives a climber. *)
Definition infoOfRow (teamRow : RosterEntry) : ClimberInfo :=
  mkInfo (tr_climber_id teamRow) (tr_climber_name teamRow)
         (tr_team_id teamRow) (tr_team_name teamRow) (tr_division teamRow).

(** The zeroed entry of a climber. *)
Definition zeroStats (info : ClimberInfo) : ClimberStats :=
  mkClimberStats (ci_climber_id info) (ci_climber_name info)
    (ci_team_id info) (ci_team_name info) (ci_division info) 0 (Num 0) [].

(** The first roster row bearing a climber_id. *)
Definition firstRow (teams : list RosterEntry) (id : string) : option RosterEntry :=
  find (fun teamRow => (tr_climber_id teamRow =? id)%string) teams.

(** The rows of one climber, in order. *)
Definition rowsOf (id : string) (rows : list ResultEntry) : list ResultEntry :=
  filter (fun r => (climber_id r =? id)%string) rows.

(** What a climber's totals do to the entry of its team. *)
Definition addToTeam (team : TeamStats) (stats : ClimberStats) : TeamStats :=
  mkTeamStats (ts_team_id team) (ts_team_name team)
    (ts_total_points team + cs_total_points stats)
    (add (ts_total_attempts team) (cs_total_attempts stats))
    (ts_climbers team).

(** The climbers of a team, as the entries of [climberStats] whose team_id
    is the team's. *)
Definition climbersOfTeam (teamId : string) (climberStats : JsMap.t ClimberStats)
  : list ClimberStats :=
  filter (fun stats => (cs_team_id stats =? teamId)%string)
         (JsMap.values climberStats).

(** Sample rows used in the examples below. *)
Definition sampleRow (compId boulderId climberId : string)
    (attemptsToZone attemptsToTop zone top : value) : ResultEntry :=
  mkResult compId "2024-01-01" boulderId climberId
           attemptsToZone attemptsToTop zone top.

Definition sampleRoster : list RosterEntry :=
  [mkRoster "T1" "Alpha" "C1" "A" "Beginner";
   mkRoster "T1" "Alpha" "C2" "B" "Beginner"].

(** [a <= b] and [a < b] between totals, as propositions. *)
Definition num_le (a b : number) : Prop :=
  match a, b with
  | Num x, Num y => x <= y
  | _, _ => False
  end.

Definition num_lt (a b : number) : Prop :=
  match a, b with
  | Num x, Num y => x < y
  | _, _ => False
  end.

Section RankingOrder.
Variable localeCompare : string -> string -> Z.
Context {A : Type} `{Ranked A}.
Variable nameKey : A -> string.

(** The ranking rule: points descending, then attempts ascending, then
    name ascending without regard to case. *)
Definition ranksBefore (a b : A) : Prop :=
  total_points a > total_points b
  \/ (total_points a = total_points b
      /\ num_lt (total_attempts a) (total_attempts b))
  \/ (total_points a = total_points b
      /\ total_attempts a = total_attempts b
      /\ compareText localeCompare (nameKey a) (nameKey b) <= 0).

(** The same rule in the words of the specification's testable property. *)
Definition orderedAsSpecified (a b : A) : Prop :=
  total_points a > total_points b
  \/ (total_points a = total_points b
      /\ num_le (total_attempts a) (total_attempts b))
  \/ (total_points a = total_points b
      /\ total_attempts a = total_attempts b
      /\ compareText localeCompare (nameKey a) (nameKey b) <= 0).
End RankingOrder.

(** A collation to run examples with: code units compared one by one. *)
Definition codeUnitCompare (a b : string) : Z :=
  match String.compare a b with
  | Lt => -1
  | Eq => 0
  | Gt => 1
  end.

(** A climber entry with the given name and totals. *)
Definition sampleClimber (name : string) (total_points : Z)
    (total_attempts : number) : ClimberStats :=
  mkClimberStats name name "T1" "Alpha" "Beginner" total_points total_attempts [].

(** How many rows of a climber pass a test. *)
Definition countFor (counted : ResultEntry -> bool) (results : list ResultEntry)
    (climberId : string) : Z :=
  Z.of_nat (List.length
    (filter (fun r => counted r && (climber_id r =? climberId)%string) results)).

(** Name and total attempts of a registered climber. *)
Definition nameOf (climberStats : JsMap.t ClimberStats) (climberId : string)
  : string :=
  match JsMap.get climberId climberStats with
  | Some stats => cs_climber_name stats
  | None => EmptyString
  end.

Definition attemptsOf (climberStats : JsMap.t ClimberStats) (climberId : string)
  : number :=
  match JsMap.get climberId climberStats with
  | Some stats => cs_total_attempts stats
  | None => NaN
  end.

(** The candidate object pushed for an entry of the count map. *)
Definition candidateOf (climberStats : JsMap.t ClimberStats)
    (entry : string * Z) : CountAward :=
  mkCountAward (nameOf climberStats (fst entry)) (snd entry)
               (attemptsOf climberStats (fst entry)) false.

(** The reading of a 0/1 cell in the words of the specification: true is
    the number 1 or the string "1", everything else is false. *)
Definition flagTrue (v : value) : bool :=
  match v with
  | VNumber (Num 1) => true
  | VString s => (s =? "1")%string
  | _ => false
  end.

(** A zone without a top under that reading. *)
Definition zoneOnlyAsSpecified (result : ResultEntry) : bool :=
  flagTrue (zone_completed result) && negb (flagTrue (top_completed result)).

(** An identifier without a colon. *)
Fixpoint no_colon (s : string) : bool :=
  match s with
  | EmptyString => true
  | String c s' => negb (Ascii.eqb c ":"%char) && no_colon s'
  end.

(** Rows of a climber in a competition that record a top. *)
Definition topCount (results : list ResultEntry) (compId climberId : string) : Z :=
  Z.of_nat (List.length
    (filter (fun r => loose_eq (top_completed r) 1
                      && ((comp_id r =? compId)%string
                          && (climber_id r =? climberId)%string))
            results)).

(** The distinct boulder_ids of a competition. *)
Definition distinctBoulders (results : list ResultEntry) (compId : string)
  : list string :=
  nodup string_dec
    (map boulder_id (filter (fun r => (comp_id r =? compId)%string) results)).

Definition boulderCount (results : list ResultEntry) (compId : string) : Z :=
  Z.of_nat (List.length (distinctBoulders results compId)).

(** A registered climber qualifies in a competition when the number of its
    rows with a top there equals the number of distinct boulders of the
    competition. *)
Definition qualifies (results : list ResultEntry)
    (climberStats : JsMap.t ClimberStats) (climberId compId : string) : Prop :=
  JsMap.has climberId climberStats = true
  /\ 0 < topCount results compId climberId
  /\ topCount results compId climberId = boulderCount results compId.

(** The (climber, competition) pair of a perfect clearance. *)
Definition pairOf (p : PerfectEntry) : string * string :=
  (pe_climber_id p, pe_comp_id p).

(** One step of the loop of [perfectScan] on each of its two maps. *)
Definition scanTops (compClimberTops : JsMap.t TopsData) (result : ResultEntry)
  : JsMap.t TopsData :=
  let key := colon_key (comp_id result) (climber_id result) in
  if loose_eq (top_completed result) 1 then
    JsMap.set key
      (match JsMap.get key compClimberTops with
       | Some data => mkTops (td_climberId data) (td_compId data) (td_tops data + 1)
       | None => mkTops (climber_id result) (comp_id result) 1
       end)
      compClimberTops
  else compClimberTops.

Definition scanBoulders (compBoulderCounts : JsMap.t (list string))
    (result : ResultEntry) : JsMap.t (list string) :=
  JsMap.set (comp_id result)
    (set_add (boulder_id result)
       (match JsMap.get (comp_id result) compBoulderCounts with
        | Some boulders => boulders
        | None => []
        end))
    compBoulderCounts.

(** What the loop over [compClimberTops] pushes for one entry. *)
Definition perfectOf (results : list ResultEntry)
    (climberStats : JsMap.t ClimberStats)
    (compBoulderCounts : JsMap.t (list string)) (data : TopsData)
  : list PerfectEntry :=
  let totalBoulders := totalBouldersOf compBoulderCounts (td_compId data) in
  if (td_tops data =? totalBoulders) && (0 <? totalBoulders) then
    match JsMap.get (td_climberId data) climberStats with
    | Some climber =>
        [mkPerfect (cs_climber_name climber) (td_climberId data)
                   (td_compId data) totalBoulders
                   (compAttemptsOf results (td_climberId data) (td_compId data))]
    | None => []
    end
  else [].

(** The Perfect Score example of the specification: A tops the two boulders
    of competition 1 in 4 attempts, B the two of competition 2 in 6. *)
Definition perfectSample : list ResultEntry :=
  [sampleRow "1" "b1" "C1" (VString "0") (VString "2") (VString "1") (VString "1");
   sampleRow "1" "b2" "C1" (VString "0") (VString "2") (VString "1") (VString "1");
   sampleRow "2" "b1" "C2" (VString "0") (VString "3") (VString "1") (VString "1");
   sampleRow "2" "b2" "C2" (VString "0") (VString "3") (VString "1") (VString "1")].

(** The candidate object of a climber in the Efficiency King block. *)
Definition efficiencyOf (stats : ClimberStats) : Efficiency :=
  mkEfficiency (cs_climber_name stats)
    (ratioOf (cs_total_points stats) (cs_total_attempts stats)) false.

(** Facts of binary64 arithmetic that the Efficiency King block relies on,
    as a check on given doubles: the sign of a difference agrees with the
    order of its operands, the order is transitive, and a double is within
    the tolerance of itself. They hold of all finite doubles; they are
    checked on the ratios at hand rather than derived. *)
Definition differenceAgrees (x y : float) : bool :=
  (PrimFloat.ltb 0%float (PrimFloat.sub y x) || PrimFloat.leb y x)
  && implb (PrimFloat.ltb 0%float (PrimFloat.sub y x)) (PrimFloat.leb x y).

Definition ratiosComparable (l : list float) : bool :=
  forallb
    (fun x =>
       PrimFloat.ltb (PrimFloat.abs (PrimFloat.sub x x)) tolerance
       && forallb
            (fun y =>
               differenceAgrees x y
               && forallb
                    (fun z => implb (PrimFloat.leb z y && PrimFloat.leb y x)
                                    (PrimFloat.leb z x))
                    l)
            l)
    l.

(** The Efficiency King example of the specification: X at 1.998, Y at 2.000
    and Z at 2.0005 points per attempt. *)
Definition efficiencySample : JsMap.t ClimberStats :=
  [("X", sampleClimber "X" 49950 (Num 25000));
   ("Y", sampleClimber "Y" 100 (Num 50));
   ("Z", sampleClimber "Z" 200050 (Num 100000))].

(** The example of the specification: two climbers of one team, one boulder. *)
Definition pipelineSample : list ResultEntry :=
  [sampleRow "comp1" "b1" "C1" (VString "0") (VString "5") (VString "1") (VString "1");
   sampleRow "comp1" "b1" "C2" (VString "0") (VString "10") (VString "1") (VString "0")].

(** Two tops recorded on the same boulder of a competition with two boulders. *)
Definition duplicateTopsSample : list ResultEntry :=
  [sampleRow "1" "b1" "C1" (VString "0") (VString "2") (VString "1") (VString "1");
   sampleRow "1" "b1" "C1" (VString "0") (VString "1") (VString "1") (VString "1");
   sampleRow "1" "b2" "C2" (VString "0") (VString "4") (VString "0") (VString "0")].

(* ================================================================== *)
(** ** CSV parsing                                                     *)
(* ================================================================== *)

(** The three characters the parser looks for. *)
Definition quote_char : ascii := "034"%char.
Definition comma_char : ascii := ","%char.
Definition newline_char : ascii := "010"%char.

(** The loop of [parseCSVLine]: [result] holds the finished fields,
    [current] the field being read. Two quotes in a row inside quotes add
    one quote to the field and the loop index skips the second. *)
Fixpoint parseCSVLoop (line : list ascii) (result : list (list ascii))
    (current : list ascii) (inQuotes : bool) : list (list ascii) :=
  match line with
  | [] => result ++ [current]
  | char :: rest =>
      if Ascii.eqb char quote_char then
        match rest with
        | nextChar :: rest' =>
            if inQuotes && Ascii.eqb nextChar quote_char
            then parseCSVLoop rest' result (current ++ [quote_char]) inQuotes
            else parseCSVLoop rest result current (negb inQuotes)
        | [] => parseCSVLoop rest result current (negb inQuotes)
        end
      else if Ascii.eqb char comma_char && negb inQuotes
      then parseCSVLoop rest (result ++ [current]) [] inQuotes
      else parseCSVLoop rest result (current ++ [char]) inQuotes
  end.

(** [parseCSVLine(line)], on code units and on strings. *)
Definition parseCSVChars (line : list ascii) : list (list ascii) :=
  parseCSVLoop line [] [] false.

Definition parseCSVLine (line : string) : list string :=
  map string_of_list_ascii (parseCSVChars (list_ascii_of_string line)).

(** [s.split(sep)] for a separator of one code unit. *)
Fixpoint split_on (sep : ascii) (s : list ascii) : list (list ascii) :=
  match s with
  | [] => [[]]
  | c :: s' =>
      if Ascii.eqb c sep then [] :: split_on sep s'
      else match split_on sep s' with
           | piece :: pieces => (c :: piece) :: pieces
           | [] => [[c]]
           end
  end.

(** What [parseCsv] does: rows, or an [Error] with its message. *)
Inductive csvResult (X : Type) : Type :=
| Parsed (rows : X)
| CsvError (message : string).
Arguments Parsed {X} rows.
Arguments CsvError {X} message.

(** [s.trim()] on a string. *)
Definition trimString (s : list ascii) : string :=
  string_of_list_ascii (trim s).

(** [row[header] = value] on an object made by [{}], as the map of its own
    properties. The name [__proto__] is an accessor of [Object.prototype]:
    assigning a string to it calls the setter, which ignores a value that
    is not an object, and the row gets no property. *)
Definition assignCell (row : JsMap.t string) (cell : string * string)
  : JsMap.t string :=
  if (fst cell =? "__proto__")%string then row
  else JsMap.set (fst cell) (snd cell) row.

(** The row object built from the headers and the values of a line:
    [row[header] = values[index]] for each header in turn. *)
Definition rowOf (headers values : list string) : JsMap.t string :=
  fold_left assignCell (combine headers values) [].

(** Body of the loop over the data lines. The warning for a line with the
    wrong number of columns is not part of the model. *)
Definition addCsvRow (headers : list string) (rows : list (JsMap.t string))
    (line0 : list ascii) : list (JsMap.t string) :=
  let line := trim line0 in
  if (Z.of_nat (List.length line) =? 0) then rows
  else
    let values := map trimString (parseCSVChars line) in
    if negb (Z.of_nat (List.length values) =? Z.of_nat (List.length headers))
    then rows
    else rows ++ [rowOf headers values].

(** [csvText.trim().split('\n').filter(line => line.trim().length > 0)]. *)
Definition csvLines (csvText : string) : list (list ascii) :=
  filter (fun line => 0 <? Z.of_nat (List.length (trim line)))
         (split_on newline_char (trim (list_ascii_of_string csvText))).

(** [parseCsv(csvText, requiredColumns)]. *)
Definition parseCsv (csvText : string) (requiredColumns : list string)
  : csvResult (list (JsMap.t string)) :=
  if negb (truthy (VString csvText))
     || (Z.of_nat (List.length (trim (list_ascii_of_string csvText))) =? 0)
  then CsvError "Empty CSV file"
  else
    let lines := csvLines csvText in
    match lines with
    | [] => CsvError "Empty CSV file"
    | headerLine :: dataLines =>
        let headers := map trimString (parseCSVChars headerLine) in
        if Z.of_nat (List.length headers) =? 0
        then CsvError "CSV file has no columns"
        else
          let missing :=
            filter (fun col => negb (existsb (String.eqb col) headers))
                   requiredColumns in
          if nonempty missing
          then CsvError ("Missing required columns: "
                         ++ JsArray.join ", " missing)%string
          else Parsed (fold_left (addCsvRow headers) dataLines [])
    end.

(** The column lists [loadAllData] passes to [parseCsv]. *)
Definition teamsRequiredColumns : list string :=
  ["team_id"; "team_name"; "climber_id"; "climber_name"; "division"].

Definition resultsRequiredColumns : list string :=
  ["comp_id"; "comp_date"; "boulder_id"; "climber_id";
   "attempts_to_zone"; "attempts_to_top"; "zone_completed"; "top_completed"].

(* ================================================================== *)
(** ** Divisions, the pipeline and search                              *)
(* ================================================================== *)

(** Body of the loop of [aggregateDivisionStats]: a climber of an unknown
    division is left out (and a warning written). *)
Definition addToDivision (divisionStats : JsMap.t (list ClimberStats))
    (entry : string * ClimberStats) : JsMap.t (list ClimberStats) :=
  let stats := snd entry in
  let division := cs_division stats in
  if JsMap.has division divisionStats then
    match JsMap.get division divisionStats with
    | Some bucket => JsMap.set division (bucket ++ [stats]) divisionStats
    | None => divisionStats
    end
  else divisionStats.

(** [aggregateDivisionStats(climberStats, teams)]; [teams] is not read. *)
Definition aggregateDivisionStats (climberStats : JsMap.t ClimberStats)
    (teams : list RosterEntry) : JsMap.t (list ClimberStats) :=
  fold_left addToDivision climberStats
    (JsMap.set "Advanced" []
       (JsMap.set "Intermediate" [] (JsMap.set "Beginner" [] []))).

(** What [AppState.computeAllStats] stores, from the raw rows and the
    current filter. An exception of [computeFunStats] leaves the three maps
    assigned and ends the call. *)
Record Computed : Type := mkComputed {
  st_climberStats : JsMap.t ClimberStats;
  st_teamStats : JsMap.t TeamStats;
  st_divisionStats : JsMap.t (list ClimberStats);
  st_funStats : outcome FunStats
}.

Definition computeAllStats (rawTeams : list RosterEntry)
    (rawResults : list ResultEntry) (currentFilter : string) : Computed :=
  let filteredResults := filterByComp rawResults currentFilter in
  let climberStats := aggregateClimberStats rawTeams filteredResults None in
  let teamStats := aggregateTeamStats climberStats rawTeams in
  let divisionStats := aggregateDivisionStats climberStats rawTeams in
  mkComputed climberStats teamStats divisionStats
    (computeFunStats filteredResults climberStats teamStats currentFilter).

(** [s.includes(sub)]. *)
Fixpoint includes (s sub : string) : bool :=
  String.prefix sub s
  || match s with
     | EmptyString => false
     | String _ s' => includes s' sub
     end.

Record TeamMember : Type := mkMember {
  tm_climber_name : string;
  tm_division : string;
  tm_total_points : Z;
  tm_total_attempts : number
}.

Record TeamSearchResult : Type := mkTeamResult {
  tsr_team_id : string;
  tsr_team_name : string;
  tsr_total_points : Z;
  tsr_total_attempts : number;
  tsr_members : list TeamMember
}.

(** The members collected for a team in [searchTeam]. *)
Definition teamMembersOf (climberStats : JsMap.t ClimberStats) (teamId : string)
  : list TeamMember :=
  fold_left
    (fun teamMembers (entry : string * ClimberStats) =>
       let climberData := snd entry in
       if (cs_team_id climberData =? teamId)%string
       then teamMembers ++
            [mkMember (cs_climber_name climberData) (cs_division climberData)
                      (cs_total_points climberData)
                      (cs_total_attempts climberData)]
       else teamMembers)
    climberStats [].

(** [searchTeam(query)], with the two maps of [AppState] as arguments. *)
Definition searchTeam (teamStats : JsMap.t TeamStats)
    (climberStats : JsMap.t ClimberStats) (query : string)
  : list TeamSearchResult :=
  let queryLower := toLowerCase query in
  fst (fold_left
         (fun (st : list TeamSearchResult * list string)
              (entry : string * TeamStats) =>
            let '(results, processedTeams) := st in
            let '(teamId, teamData) := entry in
            if existsb (String.eqb teamId) processedTeams then st
            else if includes (toLowerCase (ts_team_name teamData)) queryLower
            then (results ++
                  [mkTeamResult teamId (ts_team_name teamData)
                     (ts_total_points teamData) (ts_total_attempts teamData)
                     (teamMembersOf climberStats teamId)],
                  processedTeams ++ [teamId])
            else st)
         teamStats ([], [])).

Record ResultDetail : Type := mkDetail {
  rd_comp_id : string;
  rd_comp_date : string;
  rd_boulder_id : string;
  rd_attempts_to_zone : number;
  rd_attempts_to_top : number;
  rd_zone_completed : number;
  rd_top_completed : number;
  rd_points : Z
}.

Record ClimberSearchResult : Type := mkClimberResult {
  csr_climber_id : string;
  csr_climber_name : string;
  csr_team_name : string;
  csr_division : string;
  csr_total_points : Z;
  csr_total_attempts : number;
  csr_results : list ResultDetail
}.

(** The detail object [searchClimber] makes of a result row. *)
Definition detailOf (r : ResultEntry) : ResultDetail :=
  mkDetail (comp_id r) (comp_date r) (boulder_id r)
    (parseInt (or_zero (attempts_to_zone r)))
    (parseInt (or_zero (attempts_to_top r)))
    (parseInt (or_zero (zone_completed r)))
    (parseInt (or_zero (top_completed r)))
    (computePoints r).

(** [searchClimber(query)], with [AppState.climberStats] and
    [AppState.rawResults] as arguments. *)
Definition searchClimber (climberStats : JsMap.t ClimberStats)
    (rawResults : list ResultEntry) (query : string)
  : list ClimberSearchResult :=
  let queryLower := toLowerCase query in
  fold_left
    (fun results (entry : string * ClimberStats) =>
       let '(climberId, climberData) := entry in
       if includes (toLowerCase (cs_climber_name climberData)) queryLower
       then results ++
            [mkClimberResult climberId (cs_climber_name climberData)
               (cs_team_name climberData) (cs_division climberData)
               (cs_total_points climberData) (cs_total_attempts climberData)
               (map detailOf
                    (filter (fun r => (climber_id r =? climberId)%string)
                            rawResults))]
       else results)
    climberStats [].

(* ================================================================== *)
(** ** Data sources ([config.js])                                      *)
(* ================================================================== *)

Record LocalFiles : Type := mkLocalFiles {
  teamsFile : string;
  resultsFile : string
}.

Record GoogleSheets : Type := mkGoogleSheets {
  teamsUrl : string;
  resultsUrl : string;
  teamsSheetId : string;
  teamsGid : string;
  resultsSheetId : string;
  resultsGid : string
}.

Record Config : Type := mkConfig {
  dataSource : string;
  localFiles : LocalFiles;
  googleSheets : GoogleSheets
}.

(** The object [CONFIG] of the repository. *)
Definition CONFIG : Config :=
  mkConfig "google-sheets"
    (mkLocalFiles "teams.csv" "results.csv")
    (mkGoogleSheets
       "https://docs.google.com/spreadsheets/d/e/2PACX-1vS0yY2okHbcpDM7Xx-gdkyCQmj7SRxlyVqb4WZtMW4FJSOwbHn1XyEI_nsBpMqLJZrj3cZgLn8oa7lb/pub?output=csv"
       "https://docs.google.com/spreadsheets/d/e/2PACX-1vQEpETW5gtLjVpjd3S_TvRKXfZTwcvNVDt8mRJ7Ec7ihaT5CdkYTizv7YM3-AqXIupGE0E1dTWYUkF6/pub?output=csv"
       "18jGmn1cRNeJfUhAezxnk6K9lzPftYlgcuoGqmvgpVD8" "0"
       "17d5Vk2cuyjwBHcLhvVWoZfSU2zjDRuindSyxd_D8b-I" "0").

(** An integer in a template literal: its decimal digits. *)
Definition numberToString (n : Z) : string :=
  NilZero.string_of_int (Z.to_int n).

(** [getTeamsUrl()], with the configuration and the value of [Date.now()]
    as arguments. *)
Definition getTeamsUrl (config : Config) (now : Z) : string :=
  if (dataSource config =? "google-sheets")%string then
    let url :=
      if truthy (VString (teamsUrl (googleSheets config)))
      then teamsUrl (googleSheets config)
      else ("https://docs.google.com/spreadsheets/d/"
            ++ teamsSheetId (googleSheets config)
            ++ "/export?format=csv&gid="
            ++ teamsGid (googleSheets config))%string in
    (url ++ (if includes url "?" then "&" else "?")
         ++ "cachebust=" ++ numberToString now)%string
  else teamsFile (localFiles config).

(** [getResultsUrl()]. *)
Definition getResultsUrl (config : Config) (now : Z) : string :=
  if (dataSource config =? "google-sheets")%string then
    let url :=
      if truthy (VString (resultsUrl (googleSheets config)))
      then resultsUrl (googleSheets config)
      else ("https://docs.google.com/spreadsheets/d/"
            ++ resultsSheetId (googleSheets config)
            ++ "/export?format=csv&gid="
            ++ resultsGid (googleSheets config))%string in
    (url ++ (if includes url "?" then "&" else "?")
         ++ "cachebust=" ++ numberToString now)%string
  else resultsFile (localFiles config).

(* ================================================================== *)
(** ** The arrays the leaderboards display                             *)
(* ================================================================== *)

Section LeaderboardRows.
Variable localeCompare : string -> string -> Z.

(** [renderTeamLeaderboard]: the teams of the map, sorted. *)
Definition sortedTeamsOf (teamStats : JsMap.t TeamStats) : list TeamStats :=
  sortLeaderboard localeCompare (JsMap.values teamStats) ts_team_name.

(** [renderIndividualLeaderboard]: the climbers of the map, sorted; the rank
    shown for a climber is its position in this array plus one. *)
Definition sortedClimbersOf (climberStats : JsMap.t ClimberStats)
  : list ClimberStats :=
  sortLeaderboard localeCompare (JsMap.values climberStats) cs_climber_name.

(** [renderDivisionLeaderboards], for one of its three tables:
    [divisionStats.get(name) || []], sorted. *)
Definition sortedDivisionOf (divisionStats : JsMap.t (list ClimberStats))
    (name : string) : list ClimberStats :=
  let climbers :=
    match JsMap.get name divisionStats with
    | Some climbers => climbers
    | None => []
    end in
  sortLeaderboard localeCompare climbers cs_climber_name.
End LeaderboardRows.

(* ================================================================== *)
(** ** Vocabulary of the further properties                           *)
(* ================================================================== *)

(** A field as a spreadsheet exports it when it needs quoting: between
    quotes, with each quote of the field doubled. *)
Fixpoint escapeQuotes (field : list ascii) : list ascii :=
  match field with
  | [] => []
  | c :: field' =>
      if Ascii.eqb c quote_char
      then quote_char :: quote_char :: escapeQuotes field'
      else c :: escapeQuotes field'
  end.

Definition quoteField (field : list ascii) : list ascii :=
  quote_char :: escapeQuotes field ++ [quote_char].

(** A field that holds no quote and no comma can be written as it is. *)
Definition isPlain (field : list ascii) : bool :=
  forallb (fun c => negb (Ascii.eqb c quote_char || Ascii.eqb c comma_char)) field.

Definition writeField (field : list ascii) : list ascii :=
  if isPlain field then field else quoteField field.

(** The pieces with the separator between them. *)
Fixpoint joinChars (sep : ascii) (pieces : list (list ascii)) : list ascii :=
  match pieces with
  | [] => []
  | [piece] => piece
  | piece :: pieces' => piece ++ sep :: joinChars sep pieces'
  end.

(** The header cells [parseCsv] reads from a text. *)
Definition csvHeaders (csvText : string) : list string :=
  map trimString (parseCSVChars (hd [] (csvLines csvText))).

(** The required columns the header row lacks. *)
Definition missingColumns (csvText : string) (requiredColumns : list string)
  : list string :=
  filter (fun col => negb (existsb (String.eqb col) (csvHeaders csvText)))
         requiredColumns.

(** A text of white space only. *)
Definition isBlank (csvText : string) : bool :=
  forallb is_ws (list_ascii_of_string csvText).

(** A row of four fields: plain, with a comma, with quotes, empty. *)
Definition csvSampleFields : list (list ascii) :=
  [list_ascii_of_string "plain"; list_ascii_of_string "a, b";
   [quote_char; "h"; "i"; quote_char]%char; []].


(** A roster file of two data lines; the second has too few cells. *)
Definition csvSampleText : string :=
  ("team_id,team_name,climber_id,climber_name,division"
   ++ String newline_char
        ("T1, Alpha ,C1,Ann,Beginner"
         ++ String newline_char "T2,Beta"))%string.


(** Sum of a list of numbers, as a loop with [+=] computes it. *)
Definition sumNum (l : list number) : number := fold_left add l (Num 0).

(** The rows of one competition. *)
Definition rowsOfComp (compId : string) (rows : list ResultEntry)
  : list ResultEntry :=
  filter (fun r => (comp_id r =? compId)%string) rows.

(** The three divisions of the league. *)
Definition divisions : list string := ["Beginner"; "Intermediate"; "Advanced"].

(** Is the climber of a row on the roster? *)
Definition registered (teams : list RosterEntry) (r : ResultEntry) : bool :=
  existsb (fun teamRow => (tr_climber_id teamRow =? climber_id r)%string) teams.

(** The first roster row of a team. *)
Definition firstTeamRow (teams : list RosterEntry) (teamId : string)
  : option RosterEntry :=
  find (fun teamRow => (tr_team_id teamRow =? teamId)%string) teams.


(** What the first loop of [aggregateTeamStats] has made of a team after a
    run of roster rows: nothing when no row names the team, and otherwise an
    entry with zero totals, the name of the first row of the team, and the
    climber_ids of its rows, each once. *)
Definition teamAfter (rows : list RosterEntry) (teamId : string)
    (entry : option TeamStats) : Prop :=
  match entry with
  | None => forall teamRow, In teamRow rows -> tr_team_id teamRow <> teamId
  | Some team =>
      ts_team_id team = teamId
      /\ ts_total_points team = 0
      /\ ts_total_attempts team = Num 0
      /\ NoDup (ts_climbers team)
      /\ (forall climberId,
            In climberId (ts_climbers team)
            <-> exists teamRow, In teamRow rows
                                /\ tr_team_id teamRow = teamId
                                /\ tr_climber_id teamRow = climberId)
      /\ option_map tr_team_name (firstTeamRow rows teamId)
         = Some (ts_team_name team)
  end.

(** A roster that lists climber C1 under two teams. *)
Definition sharedClimberRoster : list RosterEntry :=
  [mkRoster "T1" "Alpha" "C1" "A" "Beginner";
   mkRoster "T2" "Beta" "C1" "A" "Beginner"].


(** The winner of a loop that keeps the first item whose attempts exceed
    every earlier one's, starting above [floor]: nothing when no item has
    more than [floor]; otherwise an item that no other exceeds and that no
    earlier item equals. An item whose attempts are NaN never counts. *)
Definition firstGreatest {X : Type} (att : X -> number) (floor : number)
    (items : list X) (winner : option X) : Prop :=
  match winner with
  | None => forall x, In x items -> gt (att x) floor = false
  | Some w =>
      gt (att w) floor = true
      /\ exists earlier later,
           items = earlier ++ w :: later
           /\ (forall x, In x earlier ->
                 gt (att x) (att w) = false /\ strict_eq (att x) (att w) = false)
           /\ (forall x, In x later -> gt (att x) (att w) = false)
  end.

(** The winner of the loop that keeps the first item with the fewest
    attempts among those with more than zero. *)
Definition firstLeastPositive {X : Type} (att : X -> number)
    (items : list X) (winner : option X) : Prop :=
  match winner with
  | None => forall x, In x items -> gt (att x) (Num 0) = false
  | Some w =>
      gt (att w) (Num 0) = true
      /\ exists earlier later,
           items = earlier ++ w :: later
           /\ (forall x, In x earlier ->
                 gt (att x) (Num 0) = true ->
                 lt (att x) (att w) = false /\ strict_eq (att x) (att w) = false)
           /\ (forall x, In x later ->
                 gt (att x) (Num 0) = true -> lt (att x) (att w) = false)
  end.

(** The rows of one boulder of one competition. *)
Definition rowsOfBoulder (compId boulderId : string) (rows : list ResultEntry)
  : list ResultEntry :=
  filter (fun r => (comp_id r =? compId)%string
                   && (boulder_id r =? boulderId)%string) rows.

(** Three rows on two boulders of one competition. *)
Definition boulderSample : list ResultEntry :=
  [sampleRow "1" "b1" "C1" (VString "2") (VString "3") (VString "1") (VString "1");
   sampleRow "1" "b2" "C1" (VString "1") (VString "1") (VString "1") (VString "1");
   sampleRow "1" "b1" "C2" (VString "4") (VString "0") (VString "1") (VString "0")].


(** The integer a number stands for; NaN reads as 0. *)
Definition numOr0 (n : number) : Z :=
  match n with
  | Num z => z
  | NaN => 0
  end.

(** The integer read from an attempts cell, 0 when none can be read. *)
Definition cellValue (v : value) : Z := numOr0 (parseInt (or_zero v)).

(** The attempts of a row as the specification counts them: those to the
    zone plus those to the top. *)
Definition attemptsAsSpecified (r : ResultEntry) : Z :=
  cellValue (attempts_to_zone r) + cellValue (attempts_to_top r).

(** The size of the numbers of a row. *)
Definition rowMagnitude (r : ResultEntry) : Z :=
  Z.abs (cellValue (attempts_to_zone r)) + Z.abs (cellValue (attempts_to_top r)).

(** The largest integer below which every integer is a double: 2^53. *)
Definition maxSafe : Z := 9007199254740992.

(** Rows whose attempts, added up in any order, stay within the integers a
    double holds exactly: there the sums of the code are the integer sums. *)
Definition withinSafeRange (rows : list ResultEntry) : Prop :=
  sumZ (map rowMagnitude rows) <= maxSafe.

(** How many of a climber's rows are tops; the climber is the one named by
    the climber_id of the entry. *)
Definition topsOf (results : list ResultEntry) (stats : ClimberStats) : Z :=
  Z.of_nat (List.length
    (filter (fun r => loose_eq (top_completed r) 1)
            (filter (fun r => (climber_id r =? cs_climber_id stats)%string)
                    results))).

(** The Try Hard candidate of a climber. *)
Definition tryHardOf (results : list ResultEntry) (stats : ClimberStats)
  : TryHard :=
  mkTryHard (cs_climber_name stats) (cs_total_attempts stats)
            (topsOf results stats) false.

(** The climbers with at least one top, in map order. *)
Definition toppers (results : list ResultEntry)
    (climberStats : JsMap.t ClimberStats) : list ClimberStats :=
  filter (fun stats => 0 <? topsOf results stats) (JsMap.values climberStats).

(** Is a climber level with [best] on attempts and tops? *)
Definition levelWith (results : list ResultEntry) (best stats : ClimberStats)
  : bool :=
  strict_eq (cs_total_attempts stats) (cs_total_attempts best)
  && (topsOf results stats =? topsOf results best).

(** Rows of a try-hard example: C1 and C2 both have a top. *)
Definition tryHardSample : list ResultEntry :=
  [sampleRow "1" "b1" "C1" (VString "2") (VString "3") (VString "1") (VString "1");
   sampleRow "1" "b2" "C1" (VString "1") (VString "1") (VString "1") (VString "1");
   sampleRow "1" "b1" "C2" (VString "4") (VString "5") (VString "1") (VString "1")].


(** Rows of a flash example: C1 flashes two boulders, C2 one. *)
Definition flashSample : list ResultEntry :=
  [sampleRow "1" "b1" "C1" (VString "1") (VString "1") (VString "1") (VString "1");
   sampleRow "1" "b2" "C1" (VString "1") (VString "1") (VString "1") (VString "1");
   sampleRow "1" "b1" "C2" (VString "1") (VString "1") (VString "1") (VString "1");
   sampleRow "1" "b2" "C2" (VString "1") (VString "3") (VString "1") (VString "1")].


(** Is a ratio within the tolerance of itself? True of every finite double. *)
Definition ratiosFinite (climberStats : JsMap.t ClimberStats) : bool :=
  forallb (fun c => nearBest (ek_ratio c) c) (efficiencyCandidates climberStats).


(** Does an entry tie with [c] on points, attempts and name? *)
Definition tiesWith (localeCompare : string -> string -> Z) {A : Type}
    `{Ranked A} (nameKey : A -> string) (c x : A) : bool :=
  (total_points x =? total_points c)
  && strict_eq (total_attempts x) (total_attempts c)
  && (compareText localeCompare (nameKey x) (nameKey c) =? 0).


(** Does a name match a search query? *)
Definition nameMatches (query name : string) : bool :=
  includes (toLowerCase name) (toLowerCase query).

(** Is a detail row of a search result among the rows the current filter
    selects? *)
Definition detailSelected (currentFilter : string) (d : ResultDetail) : bool :=
  (currentFilter =? "all")%string || (rd_comp_id d =? currentFilter)%string.

(** The member object [searchTeam] makes of a climber entry. *)
Definition memberOf (stats : ClimberStats) : TeamMember :=
  mkMember (cs_climber_name stats) (cs_division stats)
           (cs_total_points stats) (cs_total_attempts stats).

(** Results of two competitions for the two climbers of the sample roster. *)
Definition searchSample : list ResultEntry :=
  [sampleRow "1" "b1" "C1" (VString "1") (VString "2") (VString "1") (VString "1");
   sampleRow "2" "b1" "C1" (VString "3") (VString "0") (VString "1") (VString "0");
   sampleRow "1" "b1" "C2" (VString "2") (VString "2") (VString "1") (VString "1")].


(** A CSV writer: a row is its fields joined by commas, a file its rows
    joined by line feeds. *)
Definition writeLine (cells : list (list ascii)) : list ascii :=
  joinChars comma_char (map writeField cells).

Definition writeCsv (table : list (list (list ascii))) : string :=
  string_of_list_ascii (joinChars newline_char (map writeLine table)).

(** A cell that survives the trip: no line feed, no white space at either
    end. *)
Definition cellOk (cell : list ascii) : Prop :=
  trim cell = cell /\ ~ In newline_char cell.

(** No white space at the start, at the end. *)
Definition startsTight (l : list ascii) : Prop :=
  exists c l', l = c :: l' /\ is_ws c = false.

Definition endsTight (l : list ascii) : Prop :=
  exists d l', l = l' ++ [d] /\ is_ws d = false.

(** The row object of a row of cells. *)
Definition rowOfCells (headers cells : list (list ascii)) : JsMap.t string :=
  rowOf (map string_of_list_ascii headers) (map string_of_list_ascii cells).

(** A table: two columns, one row with a comma in a cell and an empty one. *)
Definition tableSample : list (list (list ascii)) :=
  [[list_ascii_of_string "climber_id"; list_ascii_of_string "climber_name"];
   [list_ascii_of_string "C1"; list_ascii_of_string "Doe, Ann"];
   [list_ascii_of_string "C2"; []]].


(** ** Perfect Score in the words of the specification *)

(** The rows of a climber in a competition, and their attempts added up as
    integers. *)
Definition pairRows (results : list ResultEntry) (climberId compId : string)
  : list ResultEntry :=
  filter (fun r => (climber_id r =? climberId)%string
                   && (comp_id r =? compId)%string) results.

Definition pairAttempts (results : list ResultEntry) (climberId compId : string)
  : Z :=
  sumZ (map attemptsAsSpecified (pairRows results climberId compId)).

(** The climber has a row with a top on the boulder in the competition. *)
Definition toppedBoulder (results : list ResultEntry)
    (compId climberId boulderId : string) : bool :=
  existsb (fun r => (comp_id r =? compId)%string
                    && (climber_id r =? climberId)%string
                    && (boulder_id r =? boulderId)%string
                    && loose_eq (top_completed r) 1) results.

(** The climber topped every distinct boulder of the competition. *)
Definition toppedEveryBoulder (results : list ResultEntry)
    (compId climberId : string) : bool :=
  forallb (toppedBoulder results compId climberId)
          (distinctBoulders results compId).

(** No climber has two rows on the same boulder of a competition. *)
Definition rowKey (r : ResultEntry) : string * string * string :=
  (comp_id r, climber_id r, boulder_id r).

Definition noDuplicateRows (results : list ResultEntry) : Prop :=
  NoDup (map rowKey results).

(** Both boulders of a competition topped, one of them in two rows. *)
Definition repeatedTopSample : list ResultEntry :=
  [sampleRow "1" "b1" "C1" (VString "0") (VString "2") (VString "1") (VString "1");
   sampleRow "1" "b2" "C1" (VString "0") (VString "2") (VString "1") (VString "1");
   sampleRow "1" "b1" "C1" (VString "0") (VString "1") (VString "1") (VString "1")].

(* ################################################################## *)
(** * Properties                                                       *)
(* ################################################################## *)

(** ** Coercions on sample values *)

Example parseInt_examples :
  parseInt (VString "12abc") = Num 12 /\ parseInt (VString " -7") = Num (-7) /\
  parseInt (VString "0x1f") = Num 31 /\ parseInt (VString "abc") = NaN /\
  parseInt (VString "1.9") = Num 1 /\ parseInt (VString EmptyString) = NaN.
Proof. repeat split; reflexivity. Qed.

Example string_to_number_examples :
  string_to_number "1" = TN_int 1 /\ string_to_number " 01 " = TN_int 1 /\
  string_to_number "1.0" = TN_int 1 /\ string_to_number "10e-1" = TN_int 1 /\
  string_to_number "0x1" = TN_int 1 /\ string_to_number "1.5" = TN_other /\
  string_to_number EmptyString = TN_int 0 /\ string_to_number "no" = TN_nan /\
  string_to_number "-0" = TN_int 0 /\ string_to_number "." = TN_nan /\
  string_to_number "1e" = TN_nan /\ string_to_number "-" = TN_nan.
Proof. repeat split; reflexivity. Qed.

(** A missing or empty attempts cell counts for nothing. *)
Lemma parseInt_or_zero_missing :
  parseInt (or_zero VUndefined) = Num 0 /\
  parseInt (or_zero VNull) = Num 0 /\
  parseInt (or_zero (VString EmptyString)) = Num 0 /\
  parseInt (or_zero (VNumber (Num 0))) = Num 0.
Proof. repeat split; reflexivity. Qed.

(** ** Scoring *)

(** C1. For every result row, [computePoints] is 50 when zone_completed is
    loosely equal to 1, plus 50 when top_completed is loosely equal to 1, and
    0 for each field otherwise, so it is 0, 50 or 100; it is a total
    function. The number 1 and the string "1" are loosely equal to 1; 0, "0",
    the empty string and a missing value are not. *)
Theorem computePoints_spec : forall result : ResultEntry,
  computePoints result
    = 50 * Z.b2z (loose_eq (zone_completed result) 1)
      + 50 * Z.b2z (loose_eq (top_completed result) 1)
  /\ (computePoints result = 0 \/ computePoints result = 50
      \/ computePoints result = 100)
  /\ loose_eq (VNumber (Num 1)) 1 = true
  /\ loose_eq (VString "1") 1 = true
  /\ loose_eq (VNumber (Num 0)) 1 = false
  /\ loose_eq (VString "0") 1 = false
  /\ loose_eq (VString EmptyString) 1 = false
  /\ loose_eq VUndefined 1 = false.
Proof.
  intros result. unfold computePoints.
  destruct (loose_eq (zone_completed result) 1),
           (loose_eq (top_completed result) 1); cbn [Z.b2z];
    repeat split; try reflexivity; lia.
Qed.

Lemma computePoints_range : forall result,
  0 <= computePoints result <= 100 /\ (50 | computePoints result).
Proof.
  intros result. unfold computePoints.
  destruct (loose_eq (zone_completed result) 1),
           (loose_eq (top_completed result) 1); simpl; split; try lia.
  - exists 2; lia.
  - exists 1; lia.
  - exists 1; lia.
  - exists 0; lia.
Qed.

(** ** Loops as folds *)

(** An invariant over the part of the list already visited. *)
Lemma fold_left_invariant {X Y : Type} (f : X -> Y -> X)
    (P : list Y -> X -> Prop) (l : list Y) (x0 : X) :
  P [] x0 ->
  (forall pre y x, P pre x -> P (pre ++ [y]) (f x y)) ->
  P l (fold_left f l x0).
Proof.
  intros H0 Hstep. induction l as [|y l IH] using rev_ind.
  - exact H0.
  - rewrite fold_left_app. simpl. apply Hstep, IH.
Qed.

Lemma find_app {X : Type} (p : X -> bool) (l l' : list X) :
  find p (l ++ l') = match find p l with Some x => Some x | None => find p l' end.
Proof.
  induction l as [|x l IH]; simpl; [reflexivity|].
  destruct (p x); [reflexivity | exact IH].
Qed.

Lemma filter_none {X : Type} (p : X -> bool) (l : list X) :
  (forall x, In x l -> p x = false) -> filter p l = [].
Proof.
  induction l as [|x l IH]; simpl; intros Hall; [reflexivity|].
  rewrite (Hall x (or_introl eq_refl)). apply IH. intros y Hy. apply Hall. now right.
Qed.

(** ** Maps *)

Module JsMapFacts.
Import JsMap.
Section Facts.
Context {V : Type}.
Implicit Types (m : list (string * V)) (k : string) (v : V).

Lemma get_set_same k v m : get k (set k v m) = Some v.
Proof.
  induction m as [|[k' v'] m IH]; simpl.
  - now rewrite String.eqb_refl.
  - destruct (String.eqb_spec k k') as [->|Hne]; simpl.
    + now rewrite String.eqb_refl.
    + destruct (String.eqb_spec k k'); [contradiction | exact IH].
Qed.

Lemma get_set_other k k' v m : k <> k' -> get k' (set k v m) = get k' m.
Proof.
  intros Hne. induction m as [|[k0 v0] m IH]; simpl.
  - destruct (String.eqb_spec k' k); [congruence | reflexivity].
  - destruct (String.eqb_spec k k0) as [->|Hk]; simpl.
    + destruct (String.eqb_spec k' k0); [congruence | reflexivity].
    + destruct (String.eqb_spec k' k0); [reflexivity | exact IH].
Qed.

Lemma get_In k v m : get k m = Some v -> In (k, v) m.
Proof.
  induction m as [|[k' v'] m IH]; simpl; [discriminate|].
  destruct (String.eqb_spec k k') as [->|Hne].
  - intros [= ->]. now left.
  - intros Hg. right. now apply IH.
Qed.

Lemma get_None k m : get k m = None <-> ~ In k (keys m).
Proof.
  induction m as [|[k' v'] m IH]; simpl.
  - tauto.
  - destruct (String.eqb_spec k k') as [->|Hne].
    + split; [discriminate | intros Hn; exfalso; apply Hn; now left].
    + rewrite IH. split.
      * intros Hn [Heq|Hin]; [congruence | contradiction].
      * intros Hn Hin. apply Hn. now right.
Qed.

Lemma has_true k m : has k m = true <-> In k (keys m).
Proof.
  unfold has. destruct (get k m) eqn:Hg.
  - split; [intros _ | reflexivity].
    apply get_In in Hg. change k with (fst (k, v)). now apply in_map.
  - apply get_None in Hg. split; [discriminate | contradiction].
Qed.

Lemma has_false k m : has k m = false <-> get k m = None.
Proof. unfold has. destruct (get k m); split; congruence. Qed.

Lemma In_get k v m : NoDup (keys m) -> In (k, v) m -> get k m = Some v.
Proof.
  induction m as [|[k' v'] m IH]; simpl; [tauto|].
  intros Hnd [Heq|Hin].
  - injection Heq as -> ->. now rewrite String.eqb_refl.
  - inversion Hnd as [|? ? Hnotin Hnd']; subst.
    destruct (String.eqb_spec k k') as [->|Hne].
    + exfalso. apply Hnotin. change k' with (fst (k', v)). now apply in_map.
    + now apply IH.
Qed.

Lemma set_fresh k v m : get k m = None -> set k v m = m ++ [(k, v)].
Proof.
  induction m as [|[k' v'] m IH]; simpl; [reflexivity|].
  destruct (String.eqb_spec k k'); [discriminate|].
  intros Hg. now rewrite IH.
Qed.

Lemma keys_set_present k v m : In k (keys m) -> keys (set k v m) = keys m.
Proof.
  induction m as [|[k' v'] m IH]; simpl; [tauto|].
  destruct (String.eqb_spec k k') as [->|Hne]; [reflexivity|].
  intros [Heq|Hin]; [congruence|]. simpl. now rewrite IH.
Qed.

Lemma keys_app m m' : keys (m ++ m') = keys m ++ keys m'.
Proof. apply map_app. Qed.

Lemma get_app k m m' :
  get k (m ++ m') = match get k m with Some v => Some v | None => get k m' end.
Proof.
  induction m as [|[k' v'] m IH]; simpl; [reflexivity|].
  destruct (String.eqb_spec k k'); [reflexivity | exact IH].
Qed.
End Facts.

Lemma get_map {V W : Type} (g : V -> W) k (m : list (string * V)) :
  get k (map (fun e => (fst e, g (snd e))) m) = option_map g (get k m).
Proof.
  induction m as [|[k' v'] m IH]; simpl; [reflexivity|].
  destruct (String.eqb_spec k k'); [reflexivity | exact IH].
Qed.

End JsMapFacts.

(** ** Climber aggregation *)

Import JsMapFacts.

Lemma firstRow_In teams id :
  firstRow teams id <> None <-> In id (map tr_climber_id teams).
Proof.
  unfold firstRow. induction teams as [|x teams IH]; simpl.
  - split; [congruence | tauto].
  - destruct (String.eqb_spec (tr_climber_id x) id) as [Heq|Hne].
    + split; [now left | congruence].
    + rewrite IH. split; [now right | intros [H|H]; [contradiction | exact H]].
Qed.

Lemma climberInfoOf_spec teams :
  NoDup (JsMap.keys (climberInfoOf teams)) /\
  forall id, JsMap.get id (climberInfoOf teams)
             = option_map infoOfRow (firstRow teams id).
Proof.
  unfold climberInfoOf.
  apply (fold_left_invariant _
           (fun pre m => NoDup (JsMap.keys m) /\
              forall id, JsMap.get id m = option_map infoOfRow (firstRow pre id))).
  - split; [constructor | reflexivity].
  - intros pre x m [Hnd Hget]. unfold firstRow in *.
    destruct (JsMap.has (tr_climber_id x) m) eqn:Hhas.
    + split; [exact Hnd|]. intros id. rewrite find_app, Hget.
      destruct (find _ pre) eqn:Hf; [reflexivity|]. simpl.
      destruct (String.eqb_spec (tr_climber_id x) id) as [Heq|Hne]; [|reflexivity].
      subst id. unfold JsMap.has in Hhas. rewrite Hget, Hf in Hhas. discriminate.
    + apply has_false in Hhas. rewrite (set_fresh _ _ _ Hhas). split.
      * rewrite keys_app. simpl. apply NoDup_app; [exact Hnd | repeat constructor; simpl; tauto |].
        intros k Hin [Hk|[]]. subst k. now apply get_None in Hhas.
      * intros id. rewrite get_app, find_app, Hget.
        destruct (find _ pre) eqn:Hf; [reflexivity|]. simpl.
        rewrite (String.eqb_sym id).
        destruct (String.eqb_spec (tr_climber_id x) id); reflexivity.
Qed.

Lemma seedClimberStats_map info acc :
  NoDup (JsMap.keys acc ++ JsMap.keys info) ->
  fold_left
    (fun climberStats (entry : string * ClimberInfo) =>
       let '(climberId, i) := entry in
       JsMap.set climberId (zeroStats i) climberStats)
    info acc
  = acc ++ map (fun e => (fst e, zeroStats (snd e))) info.
Proof.
  revert acc. induction info as [|[k i] info IH]; intros acc Hnd; simpl.
  - now rewrite app_nil_r.
  - assert (Hk : JsMap.get k acc = None).
    { apply get_None. intros Hin. apply NoDup_app_remove_r in Hnd as Hacc.
      simpl in Hnd. apply NoDup_remove_2 in Hnd. apply Hnd.
      apply in_or_app. now left. }
    rewrite (set_fresh _ _ _ Hk), IH.
    + now rewrite <- app_assoc.
    + rewrite keys_app, <- app_assoc. exact Hnd.
Qed.

Lemma seedClimberStats_spec info :
  NoDup (JsMap.keys info) ->
  seedClimberStats info = map (fun e => (fst e, zeroStats (snd e))) info.
Proof.
  intros Hnd. unfold seedClimberStats.
  exact (seedClimberStats_map info [] Hnd).
Qed.

Lemma keys_map_snd {V W : Type} (g : V -> W) (m : list (string * V)) :
  JsMap.keys (map (fun e => (fst e, g (snd e))) m) = JsMap.keys m.
Proof. unfold JsMap.keys. rewrite map_map. reflexivity. Qed.

(** A row touches the entry of its own climber only, and no key. *)
Lemma addResult_get id m result :
  JsMap.get id (addResult m result)
  = if (climber_id result =? id)%string
    then option_map (fun stats => addToStats stats result) (JsMap.get id m)
    else JsMap.get id m.
Proof.
  unfold addResult.
  destruct (String.eqb_spec (climber_id result) id) as [Heq|Hne].
  - subst id. destruct (JsMap.get (climber_id result) m) eqn:Hg; simpl.
    + apply get_set_same.
    + exact Hg.
  - destruct (JsMap.get (climber_id result) m); [|reflexivity].
    now apply get_set_other.
Qed.

(** A row of a climber that is not registered leaves the map as it was. *)
Lemma addResult_unknown m result :
  JsMap.has (climber_id result) m = false -> addResult m result = m.
Proof.
  unfold JsMap.has, addResult.
  now destruct (JsMap.get (climber_id result) m).
Qed.

Lemma addResult_keys m result :
  JsMap.keys (addResult m result) = JsMap.keys m.
Proof.
  unfold addResult. destruct (JsMap.get (climber_id result) m) eqn:Hg; [|reflexivity].
  apply keys_set_present. apply has_true. unfold JsMap.has. now rewrite Hg.
Qed.

Lemma fold_addResult_keys rows m :
  JsMap.keys (fold_left addResult rows m) = JsMap.keys m.
Proof.
  revert m. induction rows as [|r rows IH]; intros m; simpl; [reflexivity|].
  now rewrite IH, addResult_keys.
Qed.

Lemma fold_addResult_get id rows m :
  JsMap.get id (fold_left addResult rows m)
  = option_map (fun stats => fold_left addToStats (rowsOf id rows) stats)
               (JsMap.get id m).
Proof.
  revert m. induction rows as [|r rows IH]; intros m; simpl.
  - now destruct (JsMap.get id m).
  - rewrite IH, addResult_get.
    destruct (climber_id r =? id)%string; [|reflexivity].
    now destruct (JsMap.get id m).
Qed.

Lemma aggregateClimberStats_keys teams results filterCompId :
  JsMap.keys (aggregateClimberStats teams results filterCompId)
  = JsMap.keys (climberInfoOf teams).
Proof.
  unfold aggregateClimberStats. rewrite fold_addResult_keys.
  destruct (climberInfoOf_spec teams) as [Hnd _].
  now rewrite (seedClimberStats_spec _ Hnd), keys_map_snd.
Qed.

Lemma aggregateClimberStats_get teams results filterCompId id :
  JsMap.get id (aggregateClimberStats teams results filterCompId)
  = option_map
      (fun teamRow =>
         fold_left addToStats
           (rowsOf id (filteredResultsOf results filterCompId))
           (zeroStats (infoOfRow teamRow)))
      (firstRow teams id).
Proof.
  unfold aggregateClimberStats. rewrite fold_addResult_get.
  destruct (climberInfoOf_spec teams) as [Hnd Hget].
  rewrite (seedClimberStats_spec _ Hnd), get_map, Hget.
  now destruct (firstRow teams id).
Qed.

Lemma addToStats_identity stats result :
  cs_climber_id (addToStats stats result) = cs_climber_id stats /\
  cs_climber_name (addToStats stats result) = cs_climber_name stats /\
  cs_team_id (addToStats stats result) = cs_team_id stats /\
  cs_team_name (addToStats stats result) = cs_team_name stats /\
  cs_division (addToStats stats result) = cs_division stats.
Proof. repeat split. Qed.

Lemma fold_addToStats_identity rows stats :
  let stats' := fold_left addToStats rows stats in
  cs_climber_id stats' = cs_climber_id stats /\
  cs_climber_name stats' = cs_climber_name stats /\
  cs_team_id stats' = cs_team_id stats /\
  cs_team_name stats' = cs_team_name stats /\
  cs_division stats' = cs_division stats.
Proof.
  revert stats. induction rows as [|r rows IH]; intros stats; simpl.
  - repeat split.
  - destruct (IH (addToStats stats r)) as (H1 & H2 & H3 & H4 & H5).
    repeat split; assumption.
Qed.

Lemma fold_addToStats_points rows stats :
  cs_total_points (fold_left addToStats rows stats)
  = cs_total_points stats + sumZ (map computePoints rows).
Proof.
  revert stats. induction rows as [|r rows IH]; intros stats; simpl.
  - lia.
  - rewrite IH. simpl. lia.
Qed.

Lemma sum_points_multiple rows :
  (50 | sumZ (map computePoints rows)).
Proof.
  induction rows as [|r rows IH]; simpl.
  - exists 0; lia.
  - apply Z.divide_add_r; [apply computePoints_range | exact IH].
Qed.

(** C9. The map returned by [aggregateClimberStats] has exactly one entry per
    distinct climber_id of the roster; identity, team and division of the
    entry are those of the first roster row bearing that climber_id; and a
    climber with no matching (filtered) result row has total_points 0,
    total_attempts 0 and an empty comp_breakdown. *)
Theorem aggregateClimberStats_entries :
  forall (teams : list RosterEntry) (results : list ResultEntry)
         (filterCompId : option string),
  let climberStats := aggregateClimberStats teams results filterCompId in
  NoDup (JsMap.keys climberStats)
  /\ (forall id, In id (JsMap.keys climberStats)
                 <-> In id (map tr_climber_id teams))
  /\ (forall id teamRow,
        firstRow teams id = Some teamRow ->
        exists stats,
          JsMap.get id climberStats = Some stats
          /\ In (id, stats) climberStats
          /\ cs_climber_id stats = id
          /\ cs_climber_name stats = tr_climber_name teamRow
          /\ cs_team_id stats = tr_team_id teamRow
          /\ cs_team_name stats = tr_team_name teamRow
          /\ cs_division stats = tr_division teamRow
          /\ ((forall r, In r (filteredResultsOf results filterCompId) ->
                         climber_id r <> id) ->
              cs_total_points stats = 0
              /\ cs_total_attempts stats = Num 0
              /\ cs_comp_breakdown stats = [])).
Proof.
  intros teams results filterCompId climberStats. subst climberStats.
  split; [|split].
  - rewrite aggregateClimberStats_keys. apply climberInfoOf_spec.
  - intros id. rewrite <- has_true. unfold JsMap.has.
    rewrite aggregateClimberStats_get, <- firstRow_In.
    destruct (firstRow teams id); simpl; split; congruence.
  - intros id teamRow Hfirst.
    pose proof (aggregateClimberStats_get teams results filterCompId id) as Hget.
    rewrite Hfirst in Hget. simpl in Hget.
    eexists. split; [exact Hget|].
    split; [now apply get_In|].
    destruct (fold_addToStats_identity
                (rowsOf id (filteredResultsOf results filterCompId))
                (zeroStats (infoOfRow teamRow))) as (H1 & H2 & H3 & H4 & H5).
    assert (Hid : tr_climber_id teamRow = id).
    { unfold firstRow in Hfirst. apply find_some in Hfirst.
      now apply String.eqb_eq. }
    split; [rewrite H1; exact Hid|].
    do 4 (split; [assumption|]).
    intros Hnone.
    unfold rowsOf. rewrite (filter_none _ (filteredResultsOf results filterCompId)).
    + repeat split.
    + intros r Hin. apply String.eqb_neq. now apply Hnone.
Qed.

(** C3, where the code departs from it. An attempts cell that holds text no
    integer can be read from is truthy, so [|| 0] leaves it alone and
    [parseInt] yields NaN: with attempts_to_zone = "abc" and attempts_to_top
    = "3" the climber's total_attempts and the attempts of the competition
    bucket are NaN, not 3. *)
Theorem aggregateClimberStats_unparseable_attempts :
  let results :=
    [sampleRow "1" "b1" "C1" (VString "abc") (VString "3")
               (VString "1") (VString "1")] in
  let climberStats := aggregateClimberStats sampleRoster results None in
  parseInt (or_zero (VString "abc")) = NaN
  /\ option_map cs_total_attempts (JsMap.get "C1" climberStats) = Some NaN
  /\ option_map cs_total_points (JsMap.get "C1" climberStats) = Some 100
  /\ option_map cs_comp_breakdown (JsMap.get "C1" climberStats)
     = Some [("1", mkCompStats 100 NaN)].
Proof. repeat split; reflexivity. Qed.

(** The example of the specification, end to end. *)
Example pipeline_sample :
  let climberStats := aggregateClimberStats sampleRoster pipelineSample None in
  let teamStats := aggregateTeamStats climberStats sampleRoster in
  option_map (fun s => (cs_total_points s, cs_total_attempts s))
             (JsMap.get "C1" climberStats) = Some (100, Num 5)
  /\ option_map (fun s => (cs_total_points s, cs_total_attempts s))
                (JsMap.get "C2" climberStats) = Some (50, Num 10)
  /\ option_map ts_total_points (JsMap.get "T1" teamStats) = Some 150
  /\ map cs_climber_id
         (sortLeaderboard codeUnitCompare (JsMap.values climberStats) cs_climber_name)
     = ["C1"; "C2"].
Proof. repeat split; reflexivity. Qed.

(** ** Team aggregation *)

Lemma addClimber_get tid m (entry : string * ClimberStats) :
  JsMap.get tid (addClimber m entry)
  = if (cs_team_id (snd entry) =? tid)%string
    then option_map (fun team => addToTeam team (snd entry)) (JsMap.get tid m)
    else JsMap.get tid m.
Proof.
  unfold addClimber.
  destruct (String.eqb_spec (cs_team_id (snd entry)) tid) as [Heq|Hne].
  - subst tid. destruct (JsMap.get (cs_team_id (snd entry)) m) eqn:Hg; simpl.
    + apply get_set_same.
    + exact Hg.
  - destruct (JsMap.get (cs_team_id (snd entry)) m); [|reflexivity].
    now apply get_set_other.
Qed.

Lemma addClimber_keys m entry :
  JsMap.keys (addClimber m entry) = JsMap.keys m.
Proof.
  unfold addClimber.
  destruct (JsMap.get (cs_team_id (snd entry)) m) eqn:Hg; [|reflexivity].
  apply keys_set_present. apply has_true. unfold JsMap.has. now rewrite Hg.
Qed.

Lemma fold_addClimber_keys (l : JsMap.t ClimberStats) m :
  JsMap.keys (fold_left addClimber l m) = JsMap.keys m.
Proof.
  revert m. induction l as [|e l IH]; intros m; simpl; [reflexivity|].
  now rewrite IH, addClimber_keys.
Qed.

Lemma fold_addClimber_get tid (l : JsMap.t ClimberStats) m :
  JsMap.get tid (fold_left addClimber l m)
  = option_map (fun team => fold_left addToTeam (climbersOfTeam tid l) team)
               (JsMap.get tid m).
Proof.
  unfold climbersOfTeam, JsMap.values.
  revert m. induction l as [|e l IH]; intros m; simpl.
  - now destruct (JsMap.get tid m).
  - rewrite IH, addClimber_get.
    destruct (cs_team_id (snd e) =? tid)%string; [|reflexivity].
    now destruct (JsMap.get tid m).
Qed.

Lemma fold_addToTeam_points l team :
  ts_total_points (fold_left addToTeam l team)
  = ts_total_points team + sumZ (map cs_total_points l).
Proof.
  revert team. induction l as [|st l IH]; intros team; simpl.
  - lia.
  - rewrite IH. simpl. lia.
Qed.

(** After the first loop every team is present once, with zero points. *)
Lemma initTeams_spec teams :
  let teamStats := fold_left initTeam teams [] in
  NoDup (JsMap.keys teamStats)
  /\ (forall tid team, JsMap.get tid teamStats = Some team ->
                       ts_total_points team = 0)
  /\ (forall teamRow, In teamRow teams ->
                      In (tr_team_id teamRow) (JsMap.keys teamStats)).
Proof.
  apply (fold_left_invariant initTeam
           (fun pre m => NoDup (JsMap.keys m)
              /\ (forall tid team, JsMap.get tid m = Some team ->
                                   ts_total_points team = 0)
              /\ (forall teamRow, In teamRow pre ->
                                  In (tr_team_id teamRow) (JsMap.keys m)))).
  - split; [constructor|]. split; [discriminate | intros ? []].
  - intros pre x m (Hnd & Hzero & Hall).
    set (m1 := if JsMap.has (tr_team_id x) m then m
               else JsMap.set (tr_team_id x)
                      (mkTeamStats (tr_team_id x) (tr_team_name x) 0 (Num 0) []) m).
    assert (H1 : NoDup (JsMap.keys m1)
                 /\ (forall tid team, JsMap.get tid m1 = Some team ->
                                      ts_total_points team = 0)
                 /\ (forall k, In k (JsMap.keys m) -> In k (JsMap.keys m1))
                 /\ In (tr_team_id x) (JsMap.keys m1)).
    { subst m1. destruct (JsMap.has (tr_team_id x) m) eqn:Hhas.
      - repeat split; auto. now apply has_true.
      - apply has_false in Hhas. rewrite (set_fresh _ _ _ Hhas).
        rewrite keys_app. simpl. repeat split.
        + apply NoDup_app; [exact Hnd | repeat constructor; simpl; tauto |].
          intros k Hin [Hk|[]]. subst k. now apply get_None in Hhas.
        + intros tid team. rewrite get_app.
          destruct (JsMap.get tid m) eqn:Hg.
          * intros [= <-]. eapply Hzero; eauto.
          * simpl. destruct (tid =? tr_team_id x)%string; [|discriminate].
            now intros [= <-].
        + intros k Hk. apply in_or_app. now left.
        + apply in_or_app. right. now left. }
    destruct H1 as (Hnd1 & Hzero1 & Hkeep & Hin1).
    assert (Hgoal : forall m2,
              initTeam m x = m2 ->
              NoDup (JsMap.keys m2)
              /\ (forall tid team, JsMap.get tid m2 = Some team ->
                                   ts_total_points team = 0)
              /\ (forall k, In k (JsMap.keys m1) -> In k (JsMap.keys m2))).
    { intros m2 <-. unfold initTeam. fold m1.
      destruct (JsMap.get (tr_team_id x) m1) as [team|] eqn:Hg; [|now auto].
      destruct (existsb _ (ts_climbers team)); [now auto|].
      rewrite keys_set_present by exact Hin1.
      repeat split; auto.
      intros tid t. destruct (String.eqb_spec (tr_team_id x) tid) as [<-|Hne].
      - rewrite get_set_same. intros [= <-]. simpl. eapply Hzero1; eauto.
      - rewrite get_set_other by exact Hne. apply Hzero1. }
    destruct (Hgoal _ eq_refl) as (Hnd2 & Hzero2 & Hkeep2).
    repeat split; auto.
    intros teamRow Hin. apply in_app_or in Hin as [Hin|[<-|[]]].
    + apply Hkeep2, Hkeep, Hall, Hin.
    + apply Hkeep2, Hin1.
Qed.

(** C4. For every team in the output of [aggregateTeamStats] applied to
    [aggregateClimberStats] of a roster and results, the team's total_points
    is the sum of total_points over the climbers whose team_id is that team;
    and every climber's total_points is a multiple of 50. *)
Theorem aggregateTeamStats_points :
  forall (teams : list RosterEntry) (results : list ResultEntry)
         (filterCompId : option string),
  let climberStats := aggregateClimberStats teams results filterCompId in
  let teamStats := aggregateTeamStats climberStats teams in
  (forall teamId team,
     In (teamId, team) teamStats ->
     ts_total_points team
     = sumZ (map cs_total_points (climbersOfTeam teamId climberStats)))
  /\ (forall climberId stats,
        In (climberId, stats) climberStats -> (50 | cs_total_points stats)).
Proof.
  intros teams results filterCompId climberStats teamStats. split.
  - intros teamId team Hin.
    destruct (initTeams_spec teams) as (Hnd & Hzero & _).
    assert (Hget : JsMap.get teamId teamStats = Some team).
    { apply In_get; [|exact Hin]. subst teamStats. unfold aggregateTeamStats.
      rewrite fold_addClimber_keys. exact Hnd. }
    subst teamStats. unfold aggregateTeamStats in Hget.
    rewrite fold_addClimber_get in Hget.
    destruct (JsMap.get teamId (fold_left initTeam teams [])) as [t0|] eqn:Hg0;
      [|discriminate].
    simpl in Hget. injection Hget as <-.
    rewrite fold_addToTeam_points, (Hzero _ _ Hg0). lia.
  - intros climberId stats Hin.
    assert (Hnd : NoDup (JsMap.keys climberStats)).
    { subst climberStats. rewrite aggregateClimberStats_keys.
      apply climberInfoOf_spec. }
    apply (In_get _ _ _ Hnd) in Hin. subst climberStats.
    rewrite aggregateClimberStats_get in Hin.
    destruct (firstRow teams climberId); [|discriminate].
    simpl in Hin. injection Hin as <-.
    rewrite fold_addToStats_points. simpl. apply sum_points_multiple.
Qed.

(** ** Sorting *)

Module JsArrayFacts.
Import JsArray.
Section SortFacts.
Context {A : Type}.
Variable after : A -> A -> bool.

Lemma insert_perm x l : Permutation (insert after x l) (x :: l).
Proof.
  induction l as [|y l IH]; simpl; [reflexivity|].
  destruct (after x y); [|reflexivity].
  rewrite IH. apply perm_swap.
Qed.

Lemma sort_perm l : Permutation (sort after l) l.
Proof.
  induction l as [|x l IH]; simpl; [reflexivity|].
  rewrite insert_perm. now constructor.
Qed.

Lemma sort_In x l : In x (sort after l) <-> In x l.
Proof.
  split; apply Permutation_in; [|symmetry]; apply sort_perm.
Qed.

Lemma sort_length l : List.length (sort after l) = List.length l.
Proof. apply Permutation_length, sort_perm. Qed.

(** On a domain [D] where [after] decides a transitive relation [R] in
    both directions, the result is ordered by [R]. *)
Section Ordered.
Variable D : A -> Prop.
Variable R : A -> A -> Prop.
Hypothesis R_not_after : forall x y, D x -> D y -> after x y = false -> R x y.
Hypothesis R_after : forall x y, D x -> D y -> after x y = true -> R y x.
Hypothesis R_trans : forall x y z, D x -> D y -> D z -> R x y -> R y z -> R x z.

Lemma insert_sorted x l :
  D x -> Forall D l -> StronglySorted R l -> StronglySorted R (insert after x l).
Proof.
  intros Hx. induction l as [|y l IH]; simpl; intros HD Hs.
  - repeat constructor.
  - inversion HD as [|? ? Hy HDl]; subst.
    inversion Hs as [|? ? Hsl Hall]; subst.
    destruct (after x y) eqn:Haft.
    + constructor; [now apply IH|].
      apply (Permutation_Forall (Permutation_sym (insert_perm x l))).
      constructor; [now apply R_after | exact Hall].
    + constructor; [exact Hs|].
      assert (Hxy : R x y) by now apply R_not_after.
      constructor; [exact Hxy|].
      rewrite Forall_forall in *. intros z Hz.
      apply (R_trans x y z); auto.
Qed.

Lemma sort_sorted l : Forall D l -> StronglySorted R (sort after l).
Proof.
  induction l as [|x l IH]; simpl; intros HD; [constructor|].
  inversion HD; subst. apply insert_sorted; auto.
  apply (Permutation_Forall (Permutation_sym (sort_perm l))). assumption.
Qed.
End Ordered.

(** Stability: elements that are never [after] one another keep their
    order, so a filter that selects such elements commutes with [sort]. *)
Section Stable.
Variable p : A -> bool.
Variable D : A -> Prop.
Hypothesis p_class :
  forall x y, D x -> D y -> p x = true -> p y = true -> after x y = false.

Lemma filter_insert x l :
  D x -> Forall D l ->
  filter p (insert after x l) = filter p (x :: l).
Proof.
  intros Hx. induction l as [|y l IH]; intros HD; [reflexivity|].
  inversion HD as [|? ? Hy HDl]; subst. simpl.
  destruct (after x y) eqn:Haft; [|reflexivity].
  simpl. rewrite (IH HDl). simpl.
  destruct (p x) eqn:Hpx; [|reflexivity].
  destruct (p y) eqn:Hpy; [|reflexivity].
  rewrite (p_class x y Hx Hy Hpx Hpy) in Haft. discriminate.
Qed.

Lemma filter_sort l : Forall D l -> filter p (sort after l) = filter p l.
Proof.
  induction l as [|x l IH]; intros HD; [reflexivity|].
  inversion HD as [|? ? Hx HDl]; subst. simpl sort.
  rewrite filter_insert; auto.
  - simpl. now rewrite IH.
  - apply (Permutation_Forall (Permutation_sym (sort_perm l))). assumption.
Qed.
End Stable.
End SortFacts.

Lemma StronglySorted_nth {A : Type} (R : A -> A -> Prop) (l : list A) :
  StronglySorted R l ->
  forall i j a b, (i < j)%nat ->
    nth_error l i = Some a -> nth_error l j = Some b -> R a b.
Proof.
  induction 1 as [|x l Hs IH Hall]; intros i j a b Hij Hi Hj.
  - destruct i; discriminate.
  - destruct j as [|j]; [lia|]. simpl in Hj.
    destruct i as [|i]; simpl in Hi.
    + injection Hi as <-. rewrite Forall_forall in Hall.
      apply Hall. eapply nth_error_In; eauto.
    + apply (IH i j); auto. lia.
Qed.

Lemma join_single sep x : join sep [x] = x.
Proof. reflexivity. Qed.

End JsArrayFacts.

(** ** Leaderboard order *)

Lemma ranksBefore_as_specified (localeCompare : string -> string -> Z)
    {A : Type} `{Ranked A} (nameKey : A -> string) (a b : A) :
  ranksBefore localeCompare nameKey a b ->
  orderedAsSpecified localeCompare nameKey a b.
Proof.
  unfold ranksBefore, orderedAsSpecified.
  intros [Hp|[[Hp Hlt]|Hn]]; [now left | | now right; right].
  right; left. split; [exact Hp|].
  destruct (total_attempts a), (total_attempts b); simpl in *; try contradiction.
  lia.
Qed.

Section LeaderboardFacts.
Variable localeCompare : string -> string -> Z.

(** What ECMAScript asks of a comparison used for sorting: opposite signs
    when the arguments are swapped, and transitivity. *)
Hypothesis localeCompare_antisym :
  forall a b, Z.sgn (localeCompare a b) = - Z.sgn (localeCompare b a).
Hypothesis localeCompare_trans :
  forall a b c, localeCompare a b <= 0 -> localeCompare b c <= 0 ->
                localeCompare a c <= 0.

Context {A : Type} `{Ranked A}.
Variable nameKey : A -> string.

Let after (a b : A) : bool :=
  gt (leaderboardCompare localeCompare nameKey a b) (Num 0).
Let numeric (x : A) : Prop := total_attempts x <> NaN.

Lemma ranks_not_after x y :
  numeric x -> numeric y -> after x y = false ->
  ranksBefore localeCompare nameKey x y.
Proof.
  unfold numeric, after, leaderboardCompare, ranksBefore, strict_ne, strict_eq.
  intros Hx Hy.
  destruct (Z.eqb_spec (total_points x) (total_points y)) as [Hp|Hp]; simpl.
  - destruct (total_attempts x) as [|ax]; [contradiction|].
    destruct (total_attempts y) as [|ay]; [contradiction|].
    destruct (Z.eqb_spec ax ay) as [Ha|Ha]; simpl.
    + intros Hc. right; right. repeat split; [exact Hp | congruence | lia].
    + intros Hc. right; left. split; [exact Hp|]. simpl. lia.
  - intros Hc. left. lia.
Qed.

Lemma ranks_after x y :
  numeric x -> numeric y -> after x y = true ->
  ranksBefore localeCompare nameKey y x.
Proof.
  unfold numeric, after, leaderboardCompare, ranksBefore, strict_ne, strict_eq.
  intros Hx Hy.
  destruct (Z.eqb_spec (total_points x) (total_points y)) as [Hp|Hp]; simpl.
  - destruct (total_attempts x) as [|ax]; [contradiction|].
    destruct (total_attempts y) as [|ay]; [contradiction|].
    destruct (Z.eqb_spec ax ay) as [Ha|Ha]; simpl.
    + intros Hc. right; right. repeat split; [lia | congruence |].
      unfold compareText in *.
      pose proof (localeCompare_antisym (toLowerCase (nameKey x))
                                        (toLowerCase (nameKey y))).
      lia.
    + intros Hc. right; left. split; [lia|]. simpl. lia.
  - intros Hc. left. lia.
Qed.

Lemma ranks_trans x y z :
  numeric x -> numeric y -> numeric z ->
  ranksBefore localeCompare nameKey x y ->
  ranksBefore localeCompare nameKey y z ->
  ranksBefore localeCompare nameKey x z.
Proof.
  unfold numeric, ranksBefore, compareText. intros Hx Hy Hz.
  destruct (total_attempts x) as [|ax]; [contradiction|].
  destruct (total_attempts y) as [|ay]; [contradiction|].
  destruct (total_attempts z) as [|az]; [contradiction|].
  simpl.
  intros [H1|[[H1 H1']|(H1 & H1' & H1'')]] [H2|[[H2 H2']|(H2 & H2' & H2'')]];
    try (left; lia);
    try (right; left; split; [lia|]; try injection H1' as H1'; try injection H2' as H2'; lia).
  right; right. repeat split; [lia | congruence |].
  eapply localeCompare_trans; eauto.
Qed.

(** C5, as the code has it. For every input list whose totals are numbers
    and a collation that is a consistent comparison, the output of
    [sortLeaderboard] is a rearrangement of the input in which, for any two
    items a before b, either a has more points, or they have equal points
    and a has at most as many attempts (strictly fewer, in fact), or points
    and attempts are equal and a's name is not after b's name in the
    case-insensitive comparison. In particular two climbers equal on points
    and attempts named "Zed" and "Amy" come out with Amy first, whichever
    order they went in. *)
Theorem sortLeaderboard_ordered (data : list A) :
  Forall (fun x => total_attempts x <> NaN) data ->
  let sorted := sortLeaderboard localeCompare data nameKey in
  Permutation sorted data
  /\ (forall i j a b,
        (i < j)%nat ->
        nth_error sorted i = Some a -> nth_error sorted j = Some b ->
        orderedAsSpecified localeCompare nameKey a b
        /\ ranksBefore localeCompare nameKey a b)
  /\ (forall zed amy,
        nameKey zed = "Zed" -> nameKey amy = "Amy" ->
        total_points zed = total_points amy ->
        total_attempts zed = total_attempts amy ->
        total_attempts zed <> NaN ->
        localeCompare "amy" "zed" < 0 ->
        sortLeaderboard localeCompare [zed; amy] nameKey = [amy; zed]
        /\ sortLeaderboard localeCompare [amy; zed] nameKey = [amy; zed]).
Proof.
  intros Hnum sorted. subst sorted. unfold sortLeaderboard.
  split; [apply JsArrayFacts.sort_perm|]. split.
  - intros i j a b Hij Hi Hj.
    assert (Hr : ranksBefore localeCompare nameKey a b).
    { eapply JsArrayFacts.StronglySorted_nth; eauto.
      apply (JsArrayFacts.sort_sorted _ numeric); auto.
      - exact ranks_not_after.
      - exact ranks_after.
      - exact ranks_trans. }
    split; [now apply ranksBefore_as_specified | exact Hr].
  - intros zed amy Hz Ha Hp Hatt Hn Hlc.
    pose proof (localeCompare_antisym "amy" "zed") as Hanti.
    assert (HZ : toLowerCase "Zed" = "zed") by reflexivity.
    assert (HA : toLowerCase "Amy" = "amy") by reflexivity.
    assert (Hza : after zed amy = true).
    { unfold after, leaderboardCompare, strict_ne, strict_eq, compareText.
      rewrite Hz, Ha, Hp, <- Hatt, Z.eqb_refl, HZ, HA. cbn [negb].
      destruct (total_attempts zed) as [|az]; [contradiction|].
      rewrite Z.eqb_refl. cbn [negb gt]. apply Z.ltb_lt. lia. }
    assert (Haz : after amy zed = false).
    { unfold after, leaderboardCompare, strict_ne, strict_eq, compareText.
      rewrite Hz, Ha, Hp, <- Hatt, Z.eqb_refl, HZ, HA. cbn [negb].
      destruct (total_attempts zed) as [|az]; [contradiction|].
      rewrite Z.eqb_refl. cbn [negb gt]. apply Z.ltb_ge. lia. }
    simpl. fold (after zed amy) (after amy zed). rewrite Hza, Haz. now split.
Qed.
End LeaderboardFacts.

(** The code-unit collation is a comparison in that sense. *)
Lemma string_compare_not_gt_trans a : forall b c,
  String.compare a b <> Gt -> String.compare b c <> Gt -> String.compare a c <> Gt.
Proof.
  induction a as [|x a IH]; intros [|y b] [|z c]; simpl; try congruence.
  unfold Ascii.compare.
  destruct (N.compare_spec (N_of_ascii x) (N_of_ascii y)) as [Hxy|Hxy|Hxy];
    destruct (N.compare_spec (N_of_ascii y) (N_of_ascii z)) as [Hyz|Hyz|Hyz];
    destruct (N.compare_spec (N_of_ascii x) (N_of_ascii z)) as [Hxz|Hxz|Hxz];
    try congruence; try lia; intros H1 H2; eauto.
Qed.

Lemma codeUnitCompare_antisym a b :
  Z.sgn (codeUnitCompare a b) = - Z.sgn (codeUnitCompare b a).
Proof.
  unfold codeUnitCompare. rewrite (String.compare_antisym b a).
  now destruct (String.compare a b).
Qed.

Lemma codeUnitCompare_trans a b c :
  codeUnitCompare a b <= 0 -> codeUnitCompare b c <= 0 -> codeUnitCompare a c <= 0.
Proof.
  unfold codeUnitCompare. intros H1 H2.
  pose proof (string_compare_not_gt_trans a b c) as Ht.
  destruct (String.compare a b), (String.compare b c), (String.compare a c);
    try lia; exfalso; apply Ht; congruence.
Qed.

(** The ranking on the tie of the specification: Zed and Amy, 100 points and
    5 attempts each. *)
Lemma sortLeaderboard_ordered_witness :
  let zed := sampleClimber "Zed" 100 (Num 5) in
  let amy := sampleClimber "Amy" 100 (Num 5) in
  Forall (fun x => total_attempts x <> NaN) [zed; amy]
  /\ sortLeaderboard codeUnitCompare [zed; amy] cs_climber_name = [amy; zed]
  /\ orderedAsSpecified codeUnitCompare cs_climber_name amy zed.
Proof.
  assert (Hnum : Forall (fun x : ClimberStats => total_attempts x <> NaN)
                   [sampleClimber "Zed" 100 (Num 5); sampleClimber "Amy" 100 (Num 5)]).
  { repeat constructor; discriminate. }
  pose proof (sortLeaderboard_ordered codeUnitCompare codeUnitCompare_antisym
                codeUnitCompare_trans cs_climber_name _ Hnum) as (_ & Hord & Htie).
  split; [exact Hnum|]. split.
  - apply (Htie (sampleClimber "Zed" 100 (Num 5)) (sampleClimber "Amy" 100 (Num 5)));
      try reflexivity; discriminate.
  - apply (Hord 0%nat 1%nat); [lia | reflexivity | reflexivity].
Defined.

(** C5 as worded fails on a list that holds a total that is not a number.
    Climber C1's row has the attempts_to_zone cell "abc", so its total is
    NaN; C2 has the same 100 points and 3 attempts. The comparison of the
    two returns NaN, the sort moves neither, and the pair comes out in the
    order it went in, whichever that was: in neither order are the
    attempts of the first at most those of the second, nor equal. *)
Lemma sortLeaderboard_nan_total :
  let results :=
    [sampleRow "1" "b1" "C1" (VString "abc") (VString "3") (VString "1") (VString "1");
     sampleRow "1" "b1" "C2" (VString "0") (VString "3") (VString "1") (VString "1")] in
  let x := mkClimberStats "C1" "A" "T1" "Alpha" "Beginner" 100 NaN
             [("1", mkCompStats 100 NaN)] in
  let y := mkClimberStats "C2" "B" "T1" "Alpha" "Beginner" 100 (Num 3)
             [("1", mkCompStats 100 (Num 3))] in
  JsMap.values (aggregateClimberStats sampleRoster results None) = [x; y]
  /\ sortLeaderboard codeUnitCompare [x; y] cs_climber_name = [x; y]
  /\ sortLeaderboard codeUnitCompare [y; x] cs_climber_name = [y; x]
  /\ ~ orderedAsSpecified codeUnitCompare cs_climber_name x y
  /\ ~ orderedAsSpecified codeUnitCompare cs_climber_name y x.
Proof.
  cbv zeta. split; [reflexivity|]. split; [reflexivity|]. split; [reflexivity|].
  unfold orderedAsSpecified. split.
  - intros [H|[[_ H]|(_ & H & _)]]; simpl in H; [lia | exact H | discriminate H].
  - intros [H|[[_ H]|(_ & H & _)]]; simpl in H; [lia | exact H | discriminate H].
Qed.

(** ** The input array of [sortLeaderboard] *)

Section StoreFacts.
Context {A : Type}.
Implicit Types (h : @store A) (r : ref).

Lemma deref_app_old h a r :
  (r < List.length h)%nat -> deref r (h ++ [a]) = deref r h.
Proof. intros Hr. unfold deref. now rewrite app_nth1. Qed.

Lemma deref_app_new h a : deref (List.length h) (h ++ [a]) = a.
Proof. unfold deref. now rewrite nth_middle. Qed.

Lemma assign_length r a h : List.length (assign r a h) = List.length h.
Proof.
  revert r. induction h as [|b h IH]; intros [|r]; simpl; auto.
Qed.

Lemma deref_assign_same r a h :
  (r < List.length h)%nat -> deref r (assign r a h) = a.
Proof.
  revert r. induction h as [|b h IH]; intros [|r]; simpl; try lia; auto.
  intros Hr. apply IH. lia.
Qed.

Lemma deref_assign_other r r' a h :
  r <> r' -> deref r' (assign r a h) = deref r' h.
Proof.
  revert r r'. induction h as [|b h IH]; intros [|r] [|r'] Hne;
    simpl; try reflexivity; try congruence.
  apply IH. congruence.
Qed.
End StoreFacts.

(** C10. [sortLeaderboard] does not mutate its argument. In any store, for
    [data] an allocated array, the call returns a reference to an array that
    did not exist before, holding the sorted elements; [data], like every
    array allocated before the call, holds the same elements in the same
    order afterwards. *)
Theorem sortLeaderboard_leaves_input :
  forall (localeCompare : string -> string -> Z) (A : Type) (HR : Ranked A)
         (nameKey : A -> string) (h : @store A) (data : ref),
  (data < List.length h)%nat ->
  let result := fst (sortLeaderboard_st localeCompare data nameKey h) in
  let h' := snd (sortLeaderboard_st localeCompare data nameKey h) in
  deref data h' = deref data h
  /\ (forall r, (r < List.length h)%nat -> deref r h' = deref r h)
  /\ result = List.length h
  /\ result <> data
  /\ deref result h' = sortLeaderboard localeCompare (deref data h) nameKey.
Proof.
  intros localeCompare A HR nameKey h data Hdata result h'.
  subst result h'. unfold sortLeaderboard_st, bind, spread, sort_in_place. simpl.
  assert (Hold : forall r, (r < List.length h)%nat ->
            deref r (assign (List.length h)
                       (JsArray.sort
                          (fun a b => gt (leaderboardCompare localeCompare nameKey a b) (Num 0))
                          (deref (List.length h) (h ++ [deref data h])))
                       (h ++ [deref data h]))
            = deref r h).
  { intros r Hr. rewrite deref_assign_other by lia. now apply deref_app_old. }
  split; [now apply Hold|]. split; [exact Hold|].
  split; [reflexivity|]. split; [lia|].
  rewrite deref_assign_same by (rewrite length_app; simpl; lia).
  now rewrite deref_app_new.
Qed.

(** A store with two arrays; the second one is sorted. *)
Lemma sortLeaderboard_leaves_input_witness :
  let zed := sampleClimber "Zed" 100 (Num 5) in
  let amy := sampleClimber "Amy" 100 (Num 5) in
  let h := [[amy]; [zed; amy]] in
  (1 < List.length h)%nat
  /\ deref 1%nat (snd (sortLeaderboard_st codeUnitCompare 1%nat cs_climber_name h))
     = [zed; amy]
  /\ deref 2%nat (snd (sortLeaderboard_st codeUnitCompare 1%nat cs_climber_name h))
     = [amy; zed].
Proof.
  assert (Hlen : (1 < List.length [[sampleClimber "Amy" 100 (Num 5)];
                                  [sampleClimber "Zed" 100 (Num 5);
                                   sampleClimber "Amy" 100 (Num 5)]])%nat)
    by (simpl; lia).
  pose proof (sortLeaderboard_leaves_input codeUnitCompare ClimberStats _
                cs_climber_name _ 1%nat Hlen) as (Hsame & _ & _ & _ & _).
  split; [exact Hlen|]. split; [exact Hsame | reflexivity].
Defined.

(** ** Awards that count rows per climber *)

Lemma set_NoDup {V : Type} k (v : V) m :
  NoDup (JsMap.keys m) -> NoDup (JsMap.keys (JsMap.set k v m)).
Proof.
  intros Hnd. destruct (JsMap.get k m) eqn:Hg.
  - rewrite keys_set_present; [exact Hnd|].
    apply has_true. unfold JsMap.has. now rewrite Hg.
  - rewrite (set_fresh _ _ _ Hg), keys_app. simpl.
    apply NoDup_app; [exact Hnd | repeat constructor; simpl; tauto |].
    intros x Hin [Hx|[]]. subst x. now apply get_None in Hg.
Qed.

(** A loop that pushes at most one object per visited element. *)
Lemma fold_left_push {X Y : Type} (g : X -> list Y) (l : list X) (acc : list Y) :
  fold_left (fun candidates x => candidates ++ g x) l acc = acc ++ flat_map g l.
Proof.
  revert acc. induction l as [|x l IH]; intros acc; simpl.
  - now rewrite app_nil_r.
  - now rewrite IH, app_assoc.
Qed.

Lemma nonempty_true {X : Type} (l : list X) : nonempty l = true <-> l <> [].
Proof.
  unfold nonempty. destruct l as [|x l].
  - simpl. split; [discriminate | congruence].
  - split; [discriminate|]. intros _. apply Z.ltb_lt. simpl List.length. lia.
Qed.

Lemma nonempty_cons {X : Type} (x : X) (l : list X) : nonempty (x :: l) = true.
Proof. apply nonempty_true. discriminate. Qed.

Section CountFacts.
Variable counted : ResultEntry -> bool.

Lemma countFor_nonneg results id : 0 <= countFor counted results id.
Proof. unfold countFor. lia. Qed.

Lemma countFor_cons r results id :
  countFor counted (r :: results) id
  = (if counted r && (climber_id r =? id)%string then 1 else 0)
    + countFor counted results id.
Proof.
  unfold countFor. cbn [filter].
  destruct (counted r && (climber_id r =? id)%string); [|lia].
  cbn [List.length]. lia.
Qed.

Lemma countFor_zero results id :
  (forall r, In r results -> counted r = false) -> countFor counted results id = 0.
Proof.
  intros Hnone. unfold countFor. rewrite filter_none; [reflexivity|].
  intros r Hr. now rewrite (Hnone r Hr).
Qed.

Lemma counts_fold_get id rows (m : JsMap.t Z) :
  JsMap.get id
    (fold_left
       (fun counts result =>
          if counted result then
            let climberId := climber_id result in
            JsMap.set climberId
              (match JsMap.get climberId counts with
               | Some c => c
               | None => 0
               end + 1)
              counts
          else counts)
       rows m)
  = if countFor counted rows id =? 0 then JsMap.get id m
    else Some (match JsMap.get id m with Some c => c | None => 0 end
               + countFor counted rows id).
Proof.
  revert m. induction rows as [|r rows IH]; intros m.
  - simpl. reflexivity.
  - simpl fold_left. rewrite IH, countFor_cons.
    pose proof (countFor_nonneg rows id) as Hnn.
    destruct (counted r) eqn:Hc; simpl andb.
    + destruct (String.eqb_spec (climber_id r) id) as [Heq|Hne].
      * subst id. rewrite get_set_same.
        destruct (Z.eqb_spec (countFor counted rows (climber_id r)) 0) as [H0|H0].
        -- rewrite H0. reflexivity.
        -- destruct (Z.eqb_spec (1 + countFor counted rows (climber_id r)) 0); [lia|].
           f_equal. lia.
      * rewrite get_set_other by exact Hne. reflexivity.
    + reflexivity.
Qed.

Lemma countsOf_get results id :
  JsMap.get id (countsOf counted results)
  = if countFor counted results id =? 0 then None
    else Some (countFor counted results id).
Proof. unfold countsOf. rewrite counts_fold_get. reflexivity. Qed.

Lemma countsOf_NoDup results : NoDup (JsMap.keys (countsOf counted results)).
Proof.
  unfold countsOf.
  apply (fold_left_invariant _ (fun _ m => NoDup (JsMap.keys m))).
  - constructor.
  - intros pre r m Hnd. destruct (counted r); [|exact Hnd].
    now apply set_NoDup.
Qed.

Lemma countsOf_In results id c :
  In (id, c) (countsOf counted results)
  <-> c = countFor counted results id /\ 0 < c.
Proof.
  pose proof (countFor_nonneg results id) as Hnn. split.
  - intros Hin. apply (In_get _ _ _ (countsOf_NoDup results)) in Hin.
    rewrite countsOf_get in Hin.
    destruct (Z.eqb_spec (countFor counted results id) 0); [discriminate|].
    injection Hin as <-. split; [reflexivity | lia].
  - intros [-> Hpos]. apply get_In. rewrite countsOf_get.
    destruct (Z.eqb_spec (countFor counted results id) 0); [lia | reflexivity].
Qed.

Lemma maxCount_fold (counts : JsMap.t Z) (m0 : Z) :
  let m := fold_left (fun maxC (entry : string * Z) =>
                        if maxC <? snd entry then snd entry else maxC)
                     counts m0 in
  m0 <= m /\ (forall e, In e counts -> snd e <= m)
  /\ (m = m0 \/ exists e, In e counts /\ snd e = m).
Proof.
  revert m0. induction counts as [|e counts IH]; intros m0; simpl.
  - split; [lia|]. split; [tauto | now left].
  - destruct (IH (if m0 <? snd e then snd e else m0)) as (H1 & H2 & H3).
    destruct (Z.ltb_spec m0 (snd e)) as [Hlt|Hge].
    + split; [lia|]. split.
      * intros e' [<-|Hin]; [lia | now apply H2].
      * right. destruct H3 as [->|(e' & Hin & He')].
        -- exists e. split; [now left | reflexivity].
        -- exists e'. split; [now right | exact He'].
    + split; [lia|]. split.
      * intros e' [<-|Hin]; [lia | now apply H2].
      * destruct H3 as [->|(e' & Hin & He')]; [now left|].
        right. exists e'. split; [now right | exact He'].
Qed.

(** [maxCount] is the largest count, 0 when nothing was counted. *)
Lemma maxCount_spec results M :
  0 <= M ->
  (forall id, countFor counted results id <= M) ->
  (M = 0 \/ exists id, countFor counted results id = M) ->
  maxCount (countsOf counted results) = M.
Proof.
  intros HM Hle Hex. unfold maxCount.
  destruct (maxCount_fold (countsOf counted results) 0) as (H0 & Hall & Hor).
  simpl in *.
  set (m := fold_left _ (countsOf counted results) 0) in *.
  assert (Hm : m <= M).
  { destruct Hor as [->|([id c] & Hin & Hc)]; [exact HM|].
    apply countsOf_In in Hin as [-> _]. simpl in Hc. rewrite <- Hc. apply Hle. }
  destruct Hex as [->|[id Hid]]; [lia|].
  destruct (Z.eq_dec M 0) as [->|HM0]; [lia|].
  assert (Hin : In (id, M) (countsOf counted results)).
  { apply countsOf_In. split; [now symmetry | lia]. }
  apply Hall in Hin. simpl in Hin. lia.
Qed.

Lemma countCandidates_spec counts maxC climberStats :
  countCandidates counts maxC climberStats
  = map (candidateOf climberStats)
        (filter (fun e => (snd e =? maxC) && JsMap.has (fst e) climberStats)
                counts).
Proof.
  unfold countCandidates.
  enough (Hgen : forall acc,
            fold_left
              (fun candidates (entry : string * Z) =>
                 let '(climberId, count) := entry in
                 if count =? maxC then
                   match JsMap.get climberId climberStats with
                   | Some climber =>
                       candidates ++
                       [mkCountAward (cs_climber_name climber) count
                                     (cs_total_attempts climber) false]
                   | None => candidates
                   end
                 else candidates)
              counts acc
            = acc ++ map (candidateOf climberStats)
                (filter (fun e => (snd e =? maxC) && JsMap.has (fst e) climberStats)
                        counts))
    by apply (Hgen []).
  induction counts as [|[id c] counts IH]; intros acc; simpl.
  - now rewrite app_nil_r.
  - rewrite IH. unfold JsMap.has, candidateOf, nameOf, attemptsOf. simpl.
    destruct (c =? maxC); simpl; [|reflexivity].
    destruct (JsMap.get id climberStats) eqn:Hg; simpl; [|reflexivity].
    rewrite Hg, <- app_assoc. reflexivity.
Qed.
End CountFacts.

(** Sorting by attempts, fewest first, and keeping those equal to the first:
    on numeric attempts the first element has the fewest attempts, and the
    elements kept are the candidates with that many attempts, in the order
    the candidates had before the sort. *)
Section FewestFirst.
Context {X : Type}.
Variable att : X -> number.

Lemma fewest_first (cands : list X) :
  cands <> [] ->
  Forall (fun c => att c <> NaN) cands ->
  exists c0 rest,
    JsArray.sort (fun a b => gt (sub (att a) (att b)) (Num 0)) cands = c0 :: rest
    /\ In c0 cands
    /\ (forall c, In c cands -> num_le (att c0) (att c))
    /\ filter (fun c => strict_eq (att c) (att c0))
              (JsArray.sort (fun a b => gt (sub (att a) (att b)) (Num 0)) cands)
       = filter (fun c => strict_eq (att c) (att c0)) cands.
Proof.
  intros Hne Hnum.
  set (after := fun a b => gt (sub (att a) (att b)) (Num 0)).
  set (D := fun c => att c <> NaN).
  set (R := fun a b => num_le (att a) (att b)).
  assert (Hsorted : StronglySorted R (JsArray.sort after cands)).
  { apply (JsArrayFacts.sort_sorted after D R); [| | |exact Hnum];
      unfold D, R, after, num_le, gt, sub.
    - intros x y Hx Hy. destruct (att x), (att y); try contradiction.
      intros Hc. apply Z.ltb_ge in Hc. lia.
    - intros x y Hx Hy. destruct (att x), (att y); try contradiction.
      intros Hc. apply Z.ltb_lt in Hc. lia.
    - intros x y z Hx Hy Hz. destruct (att x), (att y), (att z);
        try contradiction. lia. }
  destruct (JsArray.sort after cands) as [|c0 rest] eqn:Hs.
  { exfalso. apply Hne. apply length_zero_iff_nil.
    rewrite <- (JsArrayFacts.sort_length after), Hs. reflexivity. }
  assert (Hc0 : In c0 cands).
  { apply (JsArrayFacts.sort_In after). rewrite Hs. now left. }
  assert (Hmin : forall c, In c cands -> num_le (att c0) (att c)).
  { intros c Hc. apply (JsArrayFacts.sort_In after) in Hc. rewrite Hs in Hc.
    destruct Hc as [<-|Hc].
    - rewrite Forall_forall in Hnum. specialize (Hnum _ Hc0).
      unfold num_le. destruct (att c0); [contradiction | lia].
    - inversion Hsorted as [|? ? _ Hall]; subst.
      rewrite Forall_forall in Hall. now apply Hall. }
  exists c0, rest. repeat split; auto.
  rewrite <- Hs.
  apply (JsArrayFacts.filter_sort after _ D); [|exact Hnum].
  intros x y Hx Hy Hpx Hpy. unfold after, D, strict_eq, gt, sub in *.
  destruct (att x), (att y), (att c0); try discriminate.
  apply Z.eqb_eq in Hpx, Hpy. apply Z.ltb_ge. lia.
Qed.
End FewestFirst.

Lemma filter_map_comm {X Y : Type} (f : X -> Y) (p : Y -> bool) (l : list X) :
  filter p (map f l) = map f (filter (fun x => p (f x)) l).
Proof.
  induction l as [|x l IH]; simpl; [reflexivity|].
  destruct (p (f x)); simpl; now rewrite IH.
Qed.

Lemma NoDup_map_filter {X Y : Type} (f : X -> Y) (p : X -> bool) (l : list X) :
  NoDup (map f l) -> NoDup (map f (filter p l)).
Proof.
  induction l as [|x l IH]; simpl; intros Hnd; [constructor|].
  inversion Hnd as [|? ? Hnotin Hnd']; subst.
  destruct (p x); simpl; [|now apply IH].
  constructor; [|now apply IH].
  intros Hin. apply Hnotin. apply in_map_iff in Hin as (y & Hy & Hyin).
  apply filter_In in Hyin as [Hyin _]. apply in_map_iff. eauto.
Qed.

Lemma strict_eq_true a b : strict_eq a b = true <-> a = b /\ a <> NaN.
Proof.
  unfold strict_eq. destruct a as [|x], b as [|y]; split;
    try discriminate; try (intros [? ?]; congruence).
  - intros Hxy. apply Z.eqb_eq in Hxy. subst. split; [reflexivity | discriminate].
  - intros [[= ->] _]. apply Z.eqb_refl.
Qed.

Lemma num_le_antisym a b : num_le a b -> num_le b a -> a = b.
Proof.
  unfold num_le. destruct a, b; try contradiction. intros. f_equal. lia.
Qed.

(** The award made from the winners: the winner itself when alone, the
    joined names and the tie flag otherwise. *)
Lemma countWinners_award (climberStats : JsMap.t ClimberStats)
    (winners : list (string * Z)) :
  winners <> [] ->
  exists award,
    match map (candidateOf climberStats) winners with
    | [w] => Ok (Some w)
    | [] => Throw TypeError
    | w0 :: _ =>
        Ok (Some (mkCountAward
                    (JsArray.join " & "
                       (map ca_climber_name (map (candidateOf climberStats) winners)))
                    (ca_count w0) (ca_attempts w0) true))
    end = Ok (Some award)
    /\ ca_climber_name award
       = JsArray.join " & " (map (nameOf climberStats) (map fst winners))
    /\ ca_count award = snd (hd (EmptyString, 0) winners)
    /\ ca_attempts award = attemptsOf climberStats (fst (hd (EmptyString, 0) winners))
    /\ ca_is_tie award = (1 <? Z.of_nat (List.length winners)).
Proof.
  intros Hne. destruct winners as [|e1 [|e2 winners]]; [congruence| |].
  - eexists. split; [reflexivity|]. repeat split.
  - eexists. split; [reflexivity|]. simpl.
    repeat split.
    + rewrite !map_map. reflexivity.
    + symmetry. apply Z.ltb_lt. lia.
Qed.

Section CountAwardFacts.
Variable counted : ResultEntry -> bool.

(** Nothing counted: no award. *)
Lemma countAward_none results climberStats :
  (forall r, In r results -> counted r = false) ->
  countAward counted results climberStats = Ok None.
Proof.
  intros Hnone. unfold countAward.
  destruct (nonempty results && nonempty climberStats); [|reflexivity].
  rewrite (maxCount_spec counted results 0); [reflexivity | lia | | now left].
  intros id. rewrite countFor_zero by exact Hnone. lia.
Qed.

(** A registered climber reaches the largest count [maxC] and the climbers
    who reach it have numeric attempts: the award goes to those of them with
    the fewest total attempts. *)
Lemma countAward_spec results climberStats maxC :
  0 < maxC ->
  (forall id, countFor counted results id <= maxC) ->
  (exists id, countFor counted results id = maxC
              /\ JsMap.has id climberStats = true) ->
  (forall id, countFor counted results id = maxC ->
              JsMap.has id climberStats = true ->
              attemptsOf climberStats id <> NaN) ->
  exists award winners,
    countAward counted results climberStats = Ok (Some award)
    /\ winners <> [] /\ NoDup winners
    /\ (forall id,
          In id winners <->
          countFor counted results id = maxC
          /\ JsMap.has id climberStats = true
          /\ forall id', countFor counted results id' = maxC ->
                         JsMap.has id' climberStats = true ->
                         num_le (attemptsOf climberStats id)
                                (attemptsOf climberStats id'))
    /\ ca_count award = maxC
    /\ (forall id, In id winners ->
                   ca_attempts award = attemptsOf climberStats id)
    /\ ca_climber_name award
       = JsArray.join " & " (map (nameOf climberStats) winners)
    /\ ca_is_tie award = (1 <? Z.of_nat (List.length winners)).
Proof.
  intros Hpos Hle (best & Hbest & Hbestreg) Hnum.
  set (entries := filter (fun e : string * Z =>
                            (snd e =? maxC) && JsMap.has (fst e) climberStats)
                         (countsOf counted results)).
  assert (Hentries : forall id c,
            In (id, c) entries <->
            c = maxC /\ countFor counted results id = maxC
            /\ JsMap.has id climberStats = true).
  { intros id c. unfold entries. rewrite filter_In, countsOf_In. simpl.
    rewrite andb_true_iff, Z.eqb_eq. split.
    - intros [[-> _] [Hc Hh]]. auto.
    - intros (-> & Hc & Hh). repeat split; auto; lia. }
  assert (HcandNum : Forall (fun c => ca_attempts c <> NaN)
                            (map (candidateOf climberStats) entries)).
  { apply Forall_forall. intros c Hc. apply in_map_iff in Hc as ([id k] & <- & Hin).
    apply Hentries in Hin as (_ & Hk & Hh). simpl. now apply Hnum. }
  assert (HcandNe : map (candidateOf climberStats) entries <> []).
  { assert (Hin : In (best, maxC) entries) by (apply Hentries; auto).
    intros Hnil. apply (in_map (candidateOf climberStats)) in Hin.
    rewrite Hnil in Hin. exact Hin. }
  destruct (fewest_first ca_attempts _ HcandNe HcandNum)
    as (c0 & rest & Hsort & Hc0 & Hmin & Hfilter).
  apply in_map_iff in Hc0 as ([id0 k0] & Hc0eq & Hin0).
  pose proof (proj1 (Hentries _ _) Hin0) as (Hk0 & Hcount0 & Hreg0).
  assert (Hatt0 : ca_attempts c0 = attemptsOf climberStats id0)
    by (rewrite <- Hc0eq; reflexivity).
  assert (Hnum0 : attemptsOf climberStats id0 <> NaN) by now apply Hnum.
  set (winE := filter (fun e : string * Z =>
                         strict_eq (attemptsOf climberStats (fst e))
                                   (ca_attempts c0)) entries).
  assert (HwinE : forall id c,
            In (id, c) winE <->
            In (id, c) entries
            /\ attemptsOf climberStats id = attemptsOf climberStats id0).
  { intros id c. unfold winE. rewrite filter_In, strict_eq_true, Hatt0. simpl.
    split.
    - intros [? [? ?]]. auto.
    - intros [? Heq]. repeat split; auto. now rewrite Heq. }
  assert (HwinNe : winE <> []).
  { assert (Hin : In (id0, k0) winE) by (apply HwinE; auto).
    intros Hnil. rewrite Hnil in Hin. exact Hin. }
  destruct (countWinners_award climberStats winE HwinNe)
    as (award & Haward & Hname & Hcount & Hatt & Htie).
  exists award, (map fst winE).
  assert (Hrun : countAward counted results climberStats = Ok (Some award)).
  { unfold countAward.
    assert (Hr : nonempty results = true).
    { apply nonempty_true. intros ->. unfold countFor in Hbest. simpl in Hbest. lia. }
    assert (Hc : nonempty climberStats = true).
    { apply nonempty_true. intros ->. discriminate. }
    rewrite Hr, Hc. simpl andb. cbv iota.
    rewrite (maxCount_spec counted results maxC); [| lia | exact Hle | right; eauto].
    rewrite (proj2 (Z.ltb_lt 0 maxC) Hpos).
    rewrite countCandidates_spec. fold entries. cbv zeta.
    rewrite Hsort. simpl first. cbv iota.
    rewrite <- Hsort, Hfilter.
    rewrite (filter_map_comm (candidateOf climberStats)).
    exact Haward. }
  split; [exact Hrun|].
  split; [intros Hnil; apply HwinNe; now apply map_eq_nil in Hnil|].
  split.
  { unfold winE, entries. do 2 apply NoDup_map_filter.
    apply countsOf_NoDup. }
  assert (Hmember : forall id,
            In id (map fst winE) <->
            countFor counted results id = maxC
            /\ JsMap.has id climberStats = true
            /\ attemptsOf climberStats id = attemptsOf climberStats id0).
  { intros id. rewrite in_map_iff. split.
    - intros ([id' c] & Hfst & Hin). simpl in Hfst. subst id'.
      apply HwinE in Hin as [Hin Heq]. apply Hentries in Hin as (_ & ? & ?). auto.
    - intros (Hc & Hh & Heq). exists (id, maxC). split; [reflexivity|].
      apply HwinE. split; [apply Hentries; auto | exact Heq]. }
  assert (Hfewest : forall id',
            countFor counted results id' = maxC ->
            JsMap.has id' climberStats = true ->
            num_le (attemptsOf climberStats id0) (attemptsOf climberStats id')).
  { intros id' Hc Hh. rewrite <- Hatt0.
    apply (Hmin (candidateOf climberStats (id', maxC))).
    apply in_map. apply Hentries. auto. }
  split.
  { intros id. rewrite Hmember. split.
    - intros (Hc & Hh & Heq). repeat split; auto.
      intros id' Hc' Hh'. rewrite Heq. now apply Hfewest.
    - intros (Hc & Hh & Hall). repeat split; auto.
      apply num_le_antisym; [now apply Hall | now apply Hfewest]. }
  assert (Hhd : In (hd (EmptyString, 0) winE) winE).
  { destruct winE; [congruence | now left]. }
  destruct (hd (EmptyString, 0) winE) as [idh ch] eqn:Hh.
  apply HwinE in Hhd as [Hhd Hhatt]. apply Hentries in Hhd as (-> & _ & _).
  simpl in Hcount, Hatt.
  split; [exact Hcount|]. split.
  { intros id Hid. apply Hmember in Hid as (_ & _ & Heq).
    rewrite Hatt, Hhatt. now symmetry. }
  split; [exact Hname|].
  rewrite Htie. now rewrite length_map.
Qed.
End CountAwardFacts.

(** ** Unknown climbers in the awards *)

(** C2, where the code departs from it. Aggregation skips a row whose
    climber_id is not in the roster, but [computeFunStats] does not survive
    it: when the only first-attempt top belongs to an unregistered climber,
    the Flash Master block finds no candidate, and reading the attempts of
    the first element of the empty candidate array throws a TypeError. The
    Zone Hero block does the same on a zone-only row of an unregistered
    climber. *)
Theorem computeFunStats_throws_on_unknown_climber :
  let flash :=
    [sampleRow "1" "b1" "C9" (VString "0") (VString "1")
               (VString "1") (VString "1")] in
  let zone :=
    [sampleRow "1" "b1" "C9" (VString "2") (VString "0")
               (VString "1") (VString "0")] in
  let statsOf results := aggregateClimberStats sampleRoster results None in
  let teamsOf results := aggregateTeamStats (statsOf results) sampleRoster in
  JsMap.keys (statsOf flash) = ["C1"; "C2"]
  /\ flashMaster flash (statsOf flash) = Throw TypeError
  /\ computeFunStats flash (statsOf flash) (teamsOf flash) "all"
     = Throw TypeError
  /\ zoneHero zone (statsOf zone) = Throw TypeError
  /\ computeFunStats zone (statsOf zone) (teamsOf zone) "all"
     = Throw TypeError.
Proof. repeat split; vm_compute; reflexivity. Qed.

(** ** Zone Hero *)

(** No row with a zone and without a top: no Zone Hero. *)
Lemma zoneHero_none results climberStats :
  (forall r, In r results -> isZoneOnly r = false) ->
  zoneHero results climberStats = Ok None.
Proof. apply countAward_none. Qed.

(** C8, as the code has it. Zone Hero counts, for each climber, the result
    rows where zone_completed is loosely equal to 1 and top_completed is
    loosely equal to 0: the number 0, the string "0" and the empty string
    pass the second test, a missing cell or a text that is not a number does
    not. When [maxZones] is the largest such count, at least 1, reached by a
    registered climber, and the climbers who reach it have numeric total
    attempts, the award goes to the registered climbers with [maxZones] such
    rows and, among them, the fewest total_attempts; their names are joined
    and the tie flag is set when there are several. *)
Theorem zoneHero_spec :
  forall (results : list ResultEntry) (climberStats : JsMap.t ClimberStats)
         (maxZones : Z),
  0 < maxZones ->
  (forall id, countFor isZoneOnly results id <= maxZones) ->
  (exists id, countFor isZoneOnly results id = maxZones
              /\ JsMap.has id climberStats = true) ->
  (forall id, countFor isZoneOnly results id = maxZones ->
              JsMap.has id climberStats = true ->
              attemptsOf climberStats id <> NaN) ->
  (forall r, isZoneOnly r
             = loose_eq (zone_completed r) 1 && loose_eq (top_completed r) 0)
  /\ loose_eq (VNumber (Num 0)) 0 = true
  /\ loose_eq (VString "0") 0 = true
  /\ loose_eq (VString EmptyString) 0 = true
  /\ loose_eq VUndefined 0 = false
  /\ loose_eq (VString "no") 0 = false
  /\ exists award winners,
       zoneHero results climberStats = Ok (Some award)
       /\ winners <> [] /\ NoDup winners
       /\ (forall id,
             In id winners <->
             countFor isZoneOnly results id = maxZones
             /\ JsMap.has id climberStats = true
             /\ forall id', countFor isZoneOnly results id' = maxZones ->
                            JsMap.has id' climberStats = true ->
                            num_le (attemptsOf climberStats id)
                                   (attemptsOf climberStats id'))
       /\ ca_count award = maxZones
       /\ (forall id, In id winners ->
                      ca_attempts award = attemptsOf climberStats id)
       /\ ca_climber_name award
          = JsArray.join " & " (map (nameOf climberStats) winners)
       /\ ca_is_tie award = (1 <? Z.of_nat (List.length winners)).
Proof.
  intros results climberStats maxZones Hpos Hle Hex Hnum.
  do 6 (split; [reflexivity|]).
  now apply countAward_spec.
Qed.

(** Two registered climbers with one zone-only row each: the one with fewer
    total attempts is the Zone Hero. *)
Lemma zoneHero_spec_witness :
  exists award,
    zoneHero
      [sampleRow "1" "b1" "C1" (VString "2") (VString "3") (VString "1") (VString "0");
       sampleRow "1" "b1" "C2" (VString "1") (VString "2") (VString "1") (VString "0")]
      (aggregateClimberStats sampleRoster
         [sampleRow "1" "b1" "C1" (VString "2") (VString "3") (VString "1") (VString "0");
          sampleRow "1" "b1" "C2" (VString "1") (VString "2") (VString "1") (VString "0")]
         None)
    = Ok (Some award)
    /\ ca_count award = 1.
Proof.
  set (results :=
    [sampleRow "1" "b1" "C1" (VString "2") (VString "3") (VString "1") (VString "0");
     sampleRow "1" "b1" "C2" (VString "1") (VString "2") (VString "1") (VString "0")]).
  set (climberStats := aggregateClimberStats sampleRoster results None).
  assert (Hcount : forall id,
            countFor isZoneOnly results id
            = (if ("C1" =? id)%string then 1 else 0)
              + (if ("C2" =? id)%string then 1 else 0)).
  { intros id. unfold results. rewrite !countFor_cons.
    change (countFor isZoneOnly [] id) with 0.
    change (isZoneOnly (sampleRow "1" "b1" "C1" (VString "2") (VString "3")
                                  (VString "1") (VString "0"))) with true.
    change (isZoneOnly (sampleRow "1" "b1" "C2" (VString "1") (VString "2")
                                  (VString "1") (VString "0"))) with true.
    cbn [sampleRow climber_id andb]. lia. }
  assert (Hle : forall id, countFor isZoneOnly results id <= 1).
  { intros id. rewrite Hcount.
    destruct (String.eqb_spec "C1" id), (String.eqb_spec "C2" id);
      try lia; congruence. }
  assert (Hex : exists id, countFor isZoneOnly results id = 1
                           /\ JsMap.has id climberStats = true).
  { exists "C1". split; reflexivity. }
  assert (Hnum : forall id, countFor isZoneOnly results id = 1 ->
                            JsMap.has id climberStats = true ->
                            attemptsOf climberStats id <> NaN).
  { intros id _. unfold JsMap.has, attemptsOf.
    change climberStats with
      [("C1", mkClimberStats "C1" "A" "T1" "Alpha" "Beginner" 50 (Num 5)
                [("1", mkCompStats 50 (Num 5))]);
       ("C2", mkClimberStats "C2" "B" "T1" "Alpha" "Beginner" 50 (Num 3)
                [("1", mkCompStats 50 (Num 3))])].
    simpl. destruct (id =? "C1")%string; [discriminate|].
    destruct (id =? "C2")%string; discriminate. }
  destruct (zoneHero_spec results climberStats 1 ltac:(lia) Hle Hex Hnum)
    as (_ & _ & _ & _ & _ & _ & award & winners & Hrun & _ & _ & _ & Hc & _).
  exists award. split; [exact Hrun | exact Hc].
Defined.

(** C8 as worded fails where top_completed is not 0 or 1. A row with
    zone_completed "1" and top_completed missing, or holding "no", is a zone
    without a top in the reading of the specification, so climber C1 would
    hold the largest count, 1; the code counts no such row and gives no
    Zone Hero. *)
Lemma zoneHero_uncounted_rows :
  let missing :=
    [sampleRow "1" "b1" "C1" (VString "0") (VString "3") (VString "1") VUndefined] in
  let text :=
    [sampleRow "1" "b1" "C1" (VString "0") (VString "3") (VString "1") (VString "no")] in
  let statsOf results := aggregateClimberStats sampleRoster results None in
  (countFor zoneOnlyAsSpecified missing "C1" = 1
   /\ JsMap.has "C1" (statsOf missing) = true
   /\ attemptsOf (statsOf missing) "C1" = Num 3
   /\ countFor isZoneOnly missing "C1" = 0
   /\ zoneHero missing (statsOf missing) = Ok None)
  /\ (countFor zoneOnlyAsSpecified text "C1" = 1
      /\ JsMap.has "C1" (statsOf text) = true
      /\ attemptsOf (statsOf text) "C1" = Num 3
      /\ countFor isZoneOnly text "C1" = 0
      /\ zoneHero text (statsOf text) = Ok None).
Proof. repeat split; vm_compute; reflexivity. Qed.

(** ** Perfect Score *)

Lemma set_set {V : Type} k (v1 v2 : V) m :
  JsMap.set k v2 (JsMap.set k v1 m) = JsMap.set k v2 m.
Proof.
  induction m as [|[k' v'] m IH]; simpl.
  - now rewrite String.eqb_refl.
  - destruct (String.eqb_spec k k') as [->|Hne]; simpl.
    + now rewrite String.eqb_refl.
    + destruct (String.eqb_spec k k'); [contradiction|]. now rewrite IH.
Qed.

Lemma In_set {V : Type} k (v : V) m k' v' :
  In (k', v') (JsMap.set k v m) -> (k', v') = (k, v) \/ In (k', v') m.
Proof.
  induction m as [|[k0 v0] m IH]; simpl.
  - intros [H|[]]; left; now symmetry.
  - destruct (String.eqb_spec k k0) as [->|Hne]; simpl.
    + intros [H|H]; [left; now symmetry | right; now right].
    + intros [H|H]; [right; now left|].
      destruct (IH H) as [Heq|Hin]; [now left | right; now right].
Qed.

(** The key of a (competition, climber) pair determines the pair as long as
    competition ids hold no colon. *)
Lemma colon_key_inj c1 : forall c2 k1 k2,
  no_colon c1 = true -> no_colon c2 = true ->
  colon_key c1 k1 = colon_key c2 k2 -> c1 = c2 /\ k1 = k2.
Proof.
  unfold colon_key.
  induction c1 as [|x c1 IH]; intros [|y c2] k1 k2 H1 H2; simpl in *.
  - intros [= ->]. now split.
  - intros [= <- _]. discriminate.
  - intros [= -> _]. discriminate.
  - apply andb_true_iff in H1 as [_ H1]. apply andb_true_iff in H2 as [_ H2].
    intros [= -> Heq]. destruct (IH _ _ _ H1 H2 Heq) as [-> ->]. now split.
Qed.

Lemma perfectScanStep_split a b r :
  perfectScanStep (a, b) r = (scanTops a r, scanBoulders b r).
Proof.
  unfold perfectScanStep, scanTops, scanBoulders, JsMap.has. cbv zeta.
  destruct (loose_eq (top_completed r) 1);
    destruct (JsMap.get (colon_key (comp_id r) (climber_id r)) a) eqn:Ha;
    destruct (JsMap.get (comp_id r) b) eqn:Hb;
    rewrite ?Ha, ?Hb, ?get_set_same, ?set_set; reflexivity.
Qed.

Lemma perfectScan_split results :
  perfectScan results
  = (fold_left scanTops results [], fold_left scanBoulders results []).
Proof.
  unfold perfectScan. generalize (@nil (string * TopsData)).
  generalize (@nil (string * list string)).
  induction results as [|r results IH]; intros b a; [reflexivity|].
  cbn [fold_left]. rewrite perfectScanStep_split. apply IH.
Qed.

Lemma topCount_nonneg results compId climberId :
  0 <= topCount results compId climberId.
Proof. unfold topCount. lia. Qed.

Lemma topCount_app_one pre y compId climberId :
  topCount (pre ++ [y]) compId climberId
  = topCount pre compId climberId
    + (if loose_eq (top_completed y) 1
          && ((comp_id y =? compId)%string && (climber_id y =? climberId)%string)
       then 1 else 0).
Proof.
  unfold topCount. rewrite filter_app, length_app. cbn [filter].
  destruct (loose_eq (top_completed y) 1
            && ((comp_id y =? compId)%string && (climber_id y =? climberId)%string));
    cbn [List.length]; lia.
Qed.

(** After the scan, the entry of a (competition, climber) pair holds the
    number of the pair's rows with a top, and exists when there is one. *)
Lemma scanTops_spec results :
  Forall (fun r => no_colon (comp_id r) = true) results ->
  let compClimberTops := fold_left scanTops results [] in
  NoDup (JsMap.keys compClimberTops)
  /\ (forall compId climberId,
        no_colon compId = true ->
        JsMap.get (colon_key compId climberId) compClimberTops
        = if topCount results compId climberId =? 0 then None
          else Some (mkTops climberId compId (topCount results compId climberId)))
  /\ (forall k data,
        In (k, data) compClimberTops ->
        k = colon_key (td_compId data) (td_climberId data)
        /\ no_colon (td_compId data) = true).
Proof.
  apply (fold_left_invariant scanTops
    (fun pre cct =>
       Forall (fun r => no_colon (comp_id r) = true) pre ->
       NoDup (JsMap.keys cct)
       /\ (forall compId climberId,
             no_colon compId = true ->
             JsMap.get (colon_key compId climberId) cct
             = if topCount pre compId climberId =? 0 then None
               else Some (mkTops climberId compId (topCount pre compId climberId)))
       /\ (forall k data,
             In (k, data) cct ->
             k = colon_key (td_compId data) (td_climberId data)
             /\ no_colon (td_compId data) = true))).
  - intros _. split; [constructor|]. split; [reflexivity | intros ? ? []].
  - intros pre y cct IH Hall. apply Forall_app in Hall as [Hpre Hy].
    inversion Hy as [|? ? Hyc _]; subst.
    destruct (IH Hpre) as (Hnd & Hget & Hent). unfold scanTops.
    destruct (loose_eq (top_completed y) 1) eqn:Htop.
    + pose proof (Hget (comp_id y) (climber_id y) Hyc) as Hgy.
      pose proof (topCount_nonneg pre (comp_id y) (climber_id y)) as Hnn.
      set (key := colon_key (comp_id y) (climber_id y)) in *.
      assert (Hv : match JsMap.get key cct with
                   | Some data =>
                       mkTops (td_climberId data) (td_compId data) (td_tops data + 1)
                   | None => mkTops (climber_id y) (comp_id y) 1
                   end
                   = mkTops (climber_id y) (comp_id y)
                            (topCount pre (comp_id y) (climber_id y) + 1)).
      { rewrite Hgy.
        destruct (Z.eqb_spec (topCount pre (comp_id y) (climber_id y)) 0) as [->|];
          reflexivity. }
      rewrite Hv. split; [now apply set_NoDup|]. split.
      * intros compId climberId Hc. rewrite topCount_app_one, Htop. simpl andb.
        destruct (String.eqb_spec (comp_id y) compId) as [Hce|Hce];
          [destruct (String.eqb_spec (climber_id y) climberId) as [Hke|Hke]|].
        -- subst compId climberId. fold key. rewrite get_set_same. simpl.
           destruct (Z.eqb_spec (topCount pre (comp_id y) (climber_id y) + 1) 0);
             [lia | reflexivity].
        -- simpl. rewrite Z.add_0_r, get_set_other; [now apply Hget|].
           unfold key. intros Heq.
           apply colon_key_inj in Heq as [_ Heq]; auto.
        -- simpl. rewrite Z.add_0_r, get_set_other; [now apply Hget|].
           unfold key. intros Heq.
           apply colon_key_inj in Heq as [Heq _]; auto.
      * intros k data Hin. apply In_set in Hin as [Heq|Hin]; [|now apply Hent].
        injection Heq as -> ->. simpl. now split.
    + split; [exact Hnd|]. split; [|exact Hent].
      intros compId climberId Hc. rewrite topCount_app_one, Htop. simpl.
      rewrite Z.add_0_r. now apply Hget.
Qed.

Lemma set_add_In x s b : In b (set_add x s) <-> b = x \/ In b s.
Proof.
  unfold set_add. destruct (existsb (String.eqb x) s) eqn:Hex.
  - apply existsb_exists in Hex as (y & Hy & Heq). apply String.eqb_eq in Heq.
    subst y. split; [now right | intros [->|H]; assumption].
  - rewrite in_app_iff. simpl. split.
    + intros [H|[<-|[]]]; auto.
    + intros [->|H]; auto.
Qed.

Lemma set_add_NoDup x s : NoDup s -> NoDup (set_add x s).
Proof.
  intros Hnd. unfold set_add. destruct (existsb (String.eqb x) s) eqn:Hex;
    [exact Hnd|].
  apply NoDup_app; [exact Hnd | repeat constructor; simpl; tauto |].
  intros y Hy [<-|[]].
  assert (Ht : existsb (String.eqb x) s = true).
  { apply existsb_exists. exists x. split; [exact Hy | apply String.eqb_refl]. }
  congruence.
Qed.

(** After the scan, the set of a competition holds its distinct boulders. *)
Lemma scanBoulders_spec results compId :
  let boulders :=
    match JsMap.get compId (fold_left scanBoulders results []) with
    | Some s => s
    | None => []
    end in
  NoDup boulders
  /\ forall b, In b boulders <->
               exists r, In r results /\ comp_id r = compId /\ boulder_id r = b.
Proof.
  apply (fold_left_invariant scanBoulders
    (fun pre cbc =>
       let boulders := match JsMap.get compId cbc with Some s => s | None => [] end in
       NoDup boulders
       /\ forall b, In b boulders <->
                    exists r, In r pre /\ comp_id r = compId /\ boulder_id r = b)).
  - simpl. split; [constructor|]. intros b. split; [tauto | intros (r & [] & _)].
  - intros pre y cbc [Hnd Hmem]. unfold scanBoulders. cbv zeta.
    destruct (String.eqb_spec (comp_id y) compId) as [Heq|Hne].
    + subst compId. rewrite get_set_same. split; [now apply set_add_NoDup|].
      intros b. rewrite set_add_In, Hmem. split.
      * intros [->|(r & Hr & Hc & Hb)].
        -- exists y. split; [apply in_or_app; right; now left | auto].
        -- exists r. split; [apply in_or_app; now left | auto].
      * intros (r & Hr & Hc & Hb). apply in_app_or in Hr as [Hr|[<-|[]]].
        -- right. eauto.
        -- left. now symmetry.
    + rewrite get_set_other by exact Hne. split; [exact Hnd|].
      intros b. rewrite Hmem. split.
      * intros (r & Hr & Hc & Hb). exists r. split; [apply in_or_app; now left | auto].
      * intros (r & Hr & Hc & Hb). apply in_app_or in Hr as [Hr|[<-|[]]];
          [eauto | contradiction].
Qed.

Lemma totalBouldersOf_spec results compId :
  totalBouldersOf (fold_left scanBoulders results []) compId
  = boulderCount results compId.
Proof.
  destruct (scanBoulders_spec results compId) as [Hnd Hmem].
  unfold totalBouldersOf, boulderCount, distinctBoulders.
  assert (Hperm : Permutation
            (match JsMap.get compId (fold_left scanBoulders results []) with
             | Some s => s
             | None => []
             end)
            (nodup string_dec
               (map boulder_id
                    (filter (fun r => (comp_id r =? compId)%string) results)))).
  { apply NoDup_Permutation; [exact Hnd | apply NoDup_nodup|].
    intros b. rewrite Hmem, nodup_In, in_map_iff. split.
    - intros (r & Hr & Hc & Hb). exists r. split; [exact Hb|].
      apply filter_In. split; [exact Hr | now apply String.eqb_eq].
    - intros (r & Hb & Hr). apply filter_In in Hr as [Hr Hc].
      apply String.eqb_eq in Hc. eauto. }
  apply Permutation_length in Hperm.
  destruct (JsMap.get compId (fold_left scanBoulders results [])); simpl in *; lia.
Qed.

Lemma allPerfectScoresOf_concat (m : JsMap.t (list PerfectEntry)) :
  allPerfectScoresOf m = List.concat (map snd m).
Proof.
  unfold allPerfectScoresOf.
  rewrite (fold_left_push (fun e : string * list PerfectEntry => snd e)).
  simpl. now rewrite flat_map_concat_map.
Qed.

Lemma concat_set_push (m : JsMap.t (list PerfectEntry)) k l x :
  JsMap.get k m = Some l ->
  Permutation (List.concat (map snd (JsMap.set k (l ++ [x]) m)))
              (List.concat (map snd m) ++ [x]).
Proof.
  induction m as [|[k' l'] m IH]; simpl; [discriminate|].
  destruct (String.eqb_spec k k') as [->|Hne].
  - intros [= ->]. simpl. rewrite <- !app_assoc.
    apply Permutation_app_head, Permutation_app_comm.
  - intros Hg. simpl. rewrite <- app_assoc.
    apply Permutation_app_head. now apply IH.
Qed.

(** The perfect clearances collected per competition and flattened are,
    up to order, what the entries of [compClimberTops] contribute. *)
Lemma perfectScores_perm results climberStats compClimberTops compBoulderCounts :
  let byComp := perfectScoresByCompOf results climberStats compClimberTops
                                      compBoulderCounts in
  let pushed := flat_map (perfectOf results climberStats compBoulderCounts)
                         (JsMap.values compClimberTops) in
  Permutation (allPerfectScoresOf byComp) pushed
  /\ (pushed = [] -> byComp = []).
Proof.
  cbv zeta. unfold perfectScoresByCompOf, JsMap.values.
  apply (fold_left_invariant _
    (fun pre m =>
       Permutation (allPerfectScoresOf m)
         (flat_map (perfectOf results climberStats compBoulderCounts)
                   (map snd pre))
       /\ (flat_map (perfectOf results climberStats compBoulderCounts)
                    (map snd pre) = [] -> m = []))).
  - split; [reflexivity | reflexivity].
  - intros pre [k data] m [Hperm Hnil].
    rewrite map_app, flat_map_app. simpl. rewrite app_nil_r.
    unfold perfectOf at 2 4.
    destruct ((td_tops data =? totalBouldersOf compBoulderCounts (td_compId data))
              && (0 <? totalBouldersOf compBoulderCounts (td_compId data)));
      [|rewrite app_nil_r; now split].
    destruct (JsMap.get (td_climberId data) climberStats) as [climber|];
      [|rewrite app_nil_r; now split].
    split; [|intros Habs; now apply app_eq_nil in Habs as [_ Habs]].
    rewrite !allPerfectScoresOf_concat in *. unfold JsMap.has.
    destruct (JsMap.get (td_compId data) m) as [entries|] eqn:Hg.
    + rewrite Hg. rewrite concat_set_push by exact Hg.
      now apply Permutation_app_tail.
    + rewrite get_set_same, set_set, (set_fresh _ _ _ Hg).
      rewrite map_app, concat_app. simpl.
      now apply Permutation_app_tail.
Qed.

Lemma Permutation_filter {X : Type} (p : X -> bool) (l l' : list X) :
  Permutation l l' -> Permutation (filter p l) (filter p l').
Proof.
  induction 1 as [|x l l' _ IH|x y l|l l' l'' _ IH1 _ IH2]; simpl.
  - constructor.
  - destruct (p x); [now constructor | exact IH].
  - destruct (p x), (p y); try reflexivity. apply perm_swap.
  - now transitivity (filter p l').
Qed.

(** Which clearances the entries contribute, when competition ids hold no
    colon: one per qualifying (climber, competition) pair. *)
Lemma pushed_spec results climberStats :
  Forall (fun r => no_colon (comp_id r) = true) results ->
  let pushed :=
    flat_map (perfectOf results climberStats (fold_left scanBoulders results []))
             (JsMap.values (fold_left scanTops results [])) in
  NoDup (map pairOf pushed)
  /\ forall p,
       In p pushed <->
       qualifies results climberStats (pe_climber_id p) (pe_comp_id p)
       /\ p = mkPerfect (nameOf climberStats (pe_climber_id p))
                        (pe_climber_id p) (pe_comp_id p)
                        (boulderCount results (pe_comp_id p))
                        (compAttemptsOf results (pe_climber_id p) (pe_comp_id p)).
Proof.
  intros Hcolon.
  destruct (scanTops_spec results Hcolon) as (Hnd & Hget & Hent).
  set (cct := fold_left scanTops results []) in *.
  set (cbc := fold_left scanBoulders results []).
  cbv zeta.
  assert (Hone : forall data p,
            In p (perfectOf results climberStats cbc data) ->
            pairOf p = (td_climberId data, td_compId data)
            /\ td_tops data = boulderCount results (td_compId data)
            /\ 0 < td_tops data
            /\ JsMap.has (td_climberId data) climberStats = true
            /\ p = mkPerfect (nameOf climberStats (td_climberId data))
                     (td_climberId data) (td_compId data)
                     (boulderCount results (td_compId data))
                     (compAttemptsOf results (td_climberId data) (td_compId data))).
  { intros data p. unfold perfectOf, cbc. rewrite totalBouldersOf_spec.
    unfold JsMap.has, nameOf.
    destruct (Z.eqb_spec (td_tops data) (boulderCount results (td_compId data)));
      [|intros []].
    destruct (Z.ltb_spec 0 (boulderCount results (td_compId data))); [|intros []].
    simpl. destruct (JsMap.get (td_climberId data) climberStats); [|intros []].
    intros [<-|[]]. repeat split; auto. lia. }
  split.
  - unfold JsMap.values.
    assert (Hkeys : forall k data, In (k, data) cct ->
                      k = colon_key (td_compId data) (td_climberId data))
      by (intros k data Hin; now apply Hent).
    clear Hget Hent. induction cct as [|[k data] cct IH]; simpl; [constructor|].
    inversion Hnd as [|? ? Hnotin Hnd']; subst.
    rewrite map_app. apply NoDup_app.
    + assert (Hshort : (List.length (perfectOf results climberStats cbc data) <= 1)%nat).
      { unfold perfectOf. destruct (_ && _); [|simpl; lia].
        destruct (JsMap.get _ climberStats); simpl; lia. }
      destruct (perfectOf results climberStats cbc data) as [|p [|q l]];
        simpl in Hshort; [constructor | | lia].
      repeat constructor. simpl. tauto.
    + apply IH; [exact Hnd' | intros k' d' Hin; apply Hkeys; now right].
    + intros pr Hin1 Hin2.
      apply in_map_iff in Hin1 as (p & Hpr & Hp).
      apply in_map_iff in Hin2 as (q & Hqr & Hq).
      apply Hone in Hp as (Hpp & _).
      apply in_flat_map in Hq as (d' & Hd' & Hq).
      apply Hone in Hq as (Hqp & _).
      apply in_map_iff in Hd' as ([k' d''] & Hsnd & Hin). simpl in Hsnd. subst d''.
      apply Hnotin. subst pr. rewrite Hpp, Hqp in Hqr. injection Hqr as Hk Hc.
      rewrite (Hkeys k data (or_introl eq_refl)).
      pose proof (Hkeys k' d' (or_intror Hin)) as Hk'. subst k'.
      rewrite <- Hc, <- Hk. unfold JsMap.keys. apply in_map_iff.
      exists (colon_key (td_compId d') (td_climberId d'), d').
      split; [reflexivity | exact Hin].
  - intros p. rewrite in_flat_map. split.
    + intros (data & Hin & Hp).
      apply in_map_iff in Hin as ([k d] & Hsnd & Hin). simpl in Hsnd. subst d.
      destruct (Hent _ _ Hin) as [Hk Hc].
      apply (In_get _ _ _ Hnd) in Hin. rewrite Hk, (Hget _ _ Hc) in Hin.
      destruct (Z.eqb_spec (topCount results (td_compId data) (td_climberId data)) 0);
        [discriminate|].
      injection Hin as Hdata.
      apply Hone in Hp as (Hpair & Htops & Hpos & Hreg & Hpeq).
      injection Hpair as Hpk Hpc.
      rewrite <- Hdata in Htops, Hpos. simpl in Htops, Hpos.
      rewrite Hpk, Hpc. unfold qualifies. repeat split; auto.
    + intros ((Hreg & Hpos & Htops) & Hpeq).
      assert (Hc : no_colon (pe_comp_id p) = true).
      { unfold topCount in Hpos.
        destruct (filter _ results) as [|r l] eqn:Hf; [simpl in Hpos; lia|].
        assert (Hr : In r (filter
                  (fun r => loose_eq (top_completed r) 1
                            && ((comp_id r =? pe_comp_id p)%string
                                && (climber_id r =? pe_climber_id p)%string))
                  results)) by (rewrite Hf; now left).
        apply filter_In in Hr as [Hr Ht].
        apply andb_true_iff in Ht as [_ Ht]. apply andb_true_iff in Ht as [Ht _].
        apply String.eqb_eq in Ht. rewrite <- Ht.
        rewrite Forall_forall in Hcolon. now apply Hcolon. }
      exists (mkTops (pe_climber_id p) (pe_comp_id p)
                     (topCount results (pe_comp_id p) (pe_climber_id p))).
      split.
      * unfold JsMap.values. apply in_map_iff.
        exists (colon_key (pe_comp_id p) (pe_climber_id p),
                mkTops (pe_climber_id p) (pe_comp_id p)
                       (topCount results (pe_comp_id p) (pe_climber_id p))).
        split; [reflexivity|]. apply get_In. rewrite (Hget _ _ Hc).
        destruct (Z.eqb_spec (topCount results (pe_comp_id p) (pe_climber_id p)) 0);
          [lia | reflexivity].
      * unfold perfectOf, cbc. rewrite totalBouldersOf_spec. simpl.
        rewrite Htops, Z.eqb_refl.
        rewrite (proj2 (Z.ltb_lt 0 (boulderCount results (pe_comp_id p))))
          by (rewrite <- Htops; exact Hpos).
        simpl. unfold JsMap.has in Hreg. unfold nameOf in Hpeq.
        destruct (JsMap.get (pe_climber_id p) climberStats); [|discriminate].
        left. now symmetry.
Qed.

Lemma perfectAwardOf_spec allPerfectScores overallWinners :
  overallWinners <> [] ->
  exists award,
    perfectAwardOf allPerfectScores overallWinners = Ok (Some award)
    /\ ps_attempts award = pe_attempts (hd (mkPerfect EmptyString EmptyString EmptyString 0 NaN) overallWinners)
    /\ ps_other_comps_count award
       = Z.of_nat (List.length allPerfectScores)
         - Z.of_nat (List.length overallWinners)
    /\ ps_is_tie award = (1 <? Z.of_nat (List.length overallWinners)).
Proof.
  intros Hne. unfold perfectAwardOf.
  destruct overallWinners as [|w1 [|w2 ws]]; [congruence| |].
  - eexists. split; [reflexivity|]. repeat split.
  - destruct (distinctComps (w1 :: w2 :: ws) =? 1);
      (eexists; split; [reflexivity|]; repeat split;
       symmetry; apply Z.ltb_lt; simpl List.length; lia).
Qed.

(** The attempts of a climber in a competition are a number as soon as the
    attempts of every row are. *)
Lemma compAttemptsOf_numeric results :
  Forall (fun r => rowAttempts r <> NaN) results ->
  forall climberId compId, compAttemptsOf results climberId compId <> NaN.
Proof.
  intros Hall climberId compId. unfold compAttemptsOf.
  assert (Hf : Forall (fun r => rowAttempts r <> NaN)
                 (filter (fun r => (climber_id r =? climberId)%string
                                   && (comp_id r =? compId)%string) results)).
  { rewrite Forall_forall in *. intros r Hr. apply filter_In in Hr as [Hr _]. auto. }
  generalize 0 as s0.
  induction Hf as [|r l Hr _ IH]; intros s0; simpl; [discriminate|].
  unfold rowAttempts in Hr.
  destruct (parseInt (or_zero (attempts_to_zone r))) as [|a];
    [contradiction|].
  destruct (parseInt (or_zero (attempts_to_top r))) as [|b];
    [contradiction|].
  simpl. apply IH.
Qed.

(** No qualifying pair: no Perfect Score. *)
Lemma perfectScore_none results climberStats :
  Forall (fun r => no_colon (comp_id r) = true) results ->
  (forall climberId compId, ~ qualifies results climberStats climberId compId) ->
  perfectScore results climberStats = Ok None.
Proof.
  intros Hcolon Hnone. unfold perfectScore.
  destruct (nonempty results && nonempty climberStats); [|reflexivity].
  rewrite perfectScan_split.
  destruct (perfectScores_perm results climberStats
              (fold_left scanTops results []) (fold_left scanBoulders results []))
    as [_ Hnil].
  destruct (pushed_spec results climberStats Hcolon) as [_ HQ].
  rewrite Hnil; [reflexivity|].
  destruct (flat_map _ _) as [|p l] eqn:Hp; [reflexivity|].
  exfalso. apply (Hnone (pe_climber_id p) (pe_comp_id p)).
  apply (HQ p). now left.
Qed.

(** Who the award names: a single winner by its fields, several by their
    number. *)
Lemma perfectAwardOf_winner allPerfectScores overallWinners award :
  perfectAwardOf allPerfectScores overallWinners = Ok (Some award) ->
  (forall w, overallWinners = [w] ->
             ps_climber_id award = Some (pe_climber_id w)
             /\ ps_comp_id award = pe_comp_id w
             /\ ps_climber_name award = pe_climber_name w)
  /\ ((1 < List.length overallWinners)%nat ->
      ps_climber_id award = None
      /\ ps_winner_count award = Some (Z.of_nat (List.length overallWinners))).
Proof.
  unfold perfectAwardOf. destruct overallWinners as [|w1 [|w2 ws]].
  - discriminate.
  - intros [= <-]. split; [|simpl; lia].
    intros w [= <-]. repeat split.
  - destruct (distinctComps (w1 :: w2 :: ws) =? 1); intros [= <-];
      (split; [intros w; discriminate | intros _; split; reflexivity]).
Qed.

(** The pool of the Perfect Score block, with the attempts as the [reduce]
    of the code adds them: for competition ids without a colon (the key of
    the per-climber count is the competition id, a colon and the climber id)
    and numeric attempts of the qualifying pairs, the qualifying (climber,
    competition) pairs of all competitions are pooled, the winners are the
    pairs with the fewest attempts of the pool, and other_comps_count is the
    number of qualifying pairs left out of the winners. *)
Lemma perfectScore_pool :
  forall (results : list ResultEntry) (climberStats : JsMap.t ClimberStats),
  Forall (fun r => no_colon (comp_id r) = true) results ->
  (exists climberId compId, qualifies results climberStats climberId compId) ->
  (forall climberId compId,
     qualifies results climberStats climberId compId ->
     compAttemptsOf results climberId compId <> NaN) ->
  exists award qualifiers winners,
    perfectScore results climberStats = Ok (Some award)
    /\ NoDup qualifiers
    /\ (forall climberId compId,
          In (climberId, compId) qualifiers <->
          qualifies results climberStats climberId compId)
    /\ NoDup winners /\ winners <> []
    /\ (forall climberId compId,
          In (climberId, compId) winners <->
          qualifies results climberStats climberId compId
          /\ forall climberId' compId',
               qualifies results climberStats climberId' compId' ->
               num_le (compAttemptsOf results climberId compId)
                      (compAttemptsOf results climberId' compId'))
    /\ (forall climberId compId,
          In (climberId, compId) winners ->
          ps_attempts award = compAttemptsOf results climberId compId)
    /\ ps_other_comps_count award
       = Z.of_nat (List.length qualifiers) - Z.of_nat (List.length winners)
    /\ ps_is_tie award = (1 <? Z.of_nat (List.length winners))
    /\ (forall climberId compId,
          winners = [(climberId, compId)] ->
          ps_climber_id award = Some climberId
          /\ ps_comp_id award = compId
          /\ ps_climber_name award = nameOf climberStats climberId)
    /\ ((1 < List.length winners)%nat ->
        ps_climber_id award = None
        /\ ps_winner_count award = Some (Z.of_nat (List.length winners))).
Proof.
  intros results climberStats Hcolon (cl0 & comp0 & Hq0) Hnum.
  destruct (perfectScores_perm results climberStats
              (fold_left scanTops results []) (fold_left scanBoulders results []))
    as [Hperm Hnil].
  destruct (pushed_spec results climberStats Hcolon) as [HndQ HQ].
  set (byComp := perfectScoresByCompOf results climberStats
                   (fold_left scanTops results [])
                   (fold_left scanBoulders results [])) in *.
  set (pushed := flat_map _ _) in *.
  set (all := allPerfectScoresOf byComp) in *.
  assert (Hall : forall p, In p all <-> In p pushed).
  { intros p. split; apply Permutation_in; [exact Hperm | now symmetry]. }
  assert (Hmem : forall climberId compId,
            In (climberId, compId) (map pairOf all)
            <-> qualifies results climberStats climberId compId).
  { intros climberId compId. rewrite in_map_iff. split.
    - intros (p & Hpair & Hp). apply Hall, HQ in Hp as [Hq _].
      injection Hpair as <- <-. exact Hq.
    - intros Hq.
      exists (mkPerfect (nameOf climberStats climberId) climberId compId
                        (boulderCount results compId)
                        (compAttemptsOf results climberId compId)).
      split; [reflexivity|]. apply Hall, HQ. split; [exact Hq | reflexivity]. }
  assert (Hatt : forall p, In p all ->
            pe_attempts p
            = compAttemptsOf results (pe_climber_id p) (pe_comp_id p)).
  { intros p Hp. apply Hall, HQ in Hp as [_ Hp]. rewrite Hp at 1. reflexivity. }
  assert (HallNe : all <> []).
  { intros Hnil'. apply (Hmem cl0 comp0) in Hq0. rewrite Hnil' in Hq0. exact Hq0. }
  assert (HallNum : Forall (fun p => pe_attempts p <> NaN) all).
  { apply Forall_forall. intros p Hp. rewrite (Hatt p Hp).
    apply Hnum. apply Hmem. apply in_map_iff. exists p. split; [reflexivity|exact Hp]. }
  destruct (fewest_first pe_attempts all HallNe HallNum)
    as (p0 & rest & Hsort & Hp0 & Hmin & Hfilter).
  set (winnersRec := filter (fun w => strict_eq (pe_attempts w) (pe_attempts p0)) all)
    in *.
  assert (Hp0num : pe_attempts p0 <> NaN).
  { rewrite Forall_forall in HallNum. now apply HallNum. }
  assert (HwinNe : winnersRec <> []).
  { assert (Hin : In p0 winnersRec).
    { apply filter_In. split; [exact Hp0|]. now apply strict_eq_true. }
    intros Hnil'. rewrite Hnil' in Hin. exact Hin. }
  destruct (perfectAwardOf_spec
              (JsArray.sort
                 (fun a b => gt (sub (pe_attempts a) (pe_attempts b)) (Num 0)) all)
              winnersRec HwinNe)
    as (award & Haward & Hawatt & Hothers & Htie).
  exists award, (map pairOf all), (map pairOf winnersRec).
  assert (HndAll : NoDup (map pairOf all)).
  { apply (Permutation_NoDup (l := map pairOf pushed)); [|exact HndQ].
    apply Permutation_map. now symmetry. }
  assert (HwinMem : forall climberId compId,
            In (climberId, compId) (map pairOf winnersRec) <->
            qualifies results climberStats climberId compId
            /\ compAttemptsOf results climberId compId = pe_attempts p0).
  { intros climberId compId. rewrite in_map_iff. split.
    - intros (p & Hpair & Hp). apply filter_In in Hp as [Hp Heq].
      apply strict_eq_true in Heq as [Heq _].
      rewrite (Hatt p Hp) in Heq. injection Hpair as <- <-.
      split; [|exact Heq]. apply Hmem. apply in_map_iff.
      exists p. split; [reflexivity | exact Hp].
    - intros [Hq Heq]. apply Hmem in Hq. apply in_map_iff in Hq as (p & Hpair & Hp).
      exists p. split; [exact Hpair|]. apply filter_In. split; [exact Hp|].
      apply strict_eq_true. split; [|rewrite Forall_forall in HallNum; auto].
      rewrite (Hatt p Hp). injection Hpair as -> ->. exact Heq. }
  assert (Hp0q : qualifies results climberStats (pe_climber_id p0) (pe_comp_id p0)).
  { apply Hmem. apply in_map_iff. exists p0. split; [reflexivity | exact Hp0]. }
  assert (Hfew : forall climberId compId,
            qualifies results climberStats climberId compId ->
            num_le (pe_attempts p0) (compAttemptsOf results climberId compId)).
  { intros climberId compId Hq. apply Hmem in Hq.
    apply in_map_iff in Hq as (p & Hpair & Hp). injection Hpair as <- <-.
    rewrite <- (Hatt p Hp). now apply Hmin. }
  split.
  { unfold perfectScore.
    assert (Hr : nonempty results = true).
    { apply nonempty_true. intros ->. destruct Hq0 as (_ & Hpos & _).
      unfold topCount in Hpos. simpl in Hpos. lia. }
    assert (Hc : nonempty climberStats = true).
    { apply nonempty_true. intros ->. destruct Hq0 as (Hreg & _). discriminate. }
    rewrite Hr, Hc, perfectScan_split. simpl andb. cbv iota beta zeta.
    fold byComp.
    assert (Hb : nonempty byComp = true).
    { apply nonempty_true. intros Hnil'. apply HallNe. unfold all.
      now rewrite Hnil'. }
    rewrite Hb. fold all. rewrite Hsort at 1. simpl first. cbv iota beta.
    rewrite Hfilter. exact Haward. }
  split; [exact HndAll|]. split; [exact Hmem|].
  split; [now apply NoDup_map_filter|].
  split; [intros Hnil'; apply HwinNe; now apply map_eq_nil in Hnil'|].
  split.
  { intros climberId compId. rewrite HwinMem. split.
    - intros [Hq Heq]. split; [exact Hq|].
      intros climberId' compId' Hq'. rewrite Heq. now apply Hfew.
    - intros [Hq Hleast]. split; [exact Hq|].
      apply num_le_antisym; [|now apply Hfew].
      rewrite (Hatt p0 Hp0). now apply Hleast. }
  assert (Hhd : In (hd (mkPerfect EmptyString EmptyString EmptyString 0 NaN) winnersRec) winnersRec).
  { destruct winnersRec; [congruence | now left]. }
  apply filter_In in Hhd as [_ Hhd]. apply strict_eq_true in Hhd as [Hhd _].
  split.
  { intros climberId compId Hin. apply HwinMem in Hin as [_ Heq].
    rewrite Hawatt, Hhd. now symmetry. }
  split.
  { rewrite Hothers, JsArrayFacts.sort_length, !length_map. reflexivity. }
  split.
  { rewrite Htie, length_map. reflexivity. }
  destruct (perfectAwardOf_winner _ _ _ Haward) as [Hone Hmany]. split.
  - intros climberId compId Hw.
    apply map_eq_cons in Hw as (w & tl & Heq & Hpw & Htl).
    apply map_eq_nil in Htl. subst tl.
    destruct (Hone w Heq) as (Hid & Hcomp & Hname).
    assert (Hw : In w all).
    { assert (Hin : In w winnersRec) by (rewrite Heq; now left).
      now apply filter_In in Hin. }
    apply Hall, HQ in Hw as [_ Hw]. injection Hpw as <- <-.
    split; [exact Hid|]. split; [exact Hcomp|].
    rewrite Hname. rewrite Hw at 1. reflexivity.
  - rewrite length_map. exact Hmany.
Qed.

(** The example of the specification: A wins with 4 attempts, and B's
    clearance of competition 2 is the one other perfect score. *)
Example perfectScore_sample :
  perfectScore perfectSample (aggregateClimberStats sampleRoster perfectSample None)
  = Ok (Some (mkPerfectScore "A" (Some "C1") "1" 2 (Num 4) false None 1)).
Proof. vm_compute. reflexivity. Qed.

(** ** Perfect Score in the words of the specification *)

(** Sums of integers against sums of sizes. *)
Lemma sumZ_abs_le {X : Type} (f g : X -> Z) (l : list X) :
  (forall x, In x l -> Z.abs (f x) <= g x) ->
  Z.abs (sumZ (map f l)) <= sumZ (map g l).
Proof.
  induction l as [|x l IH]; intros Hall; cbn [map sumZ fold_right]; [lia|].
  specialize (Hall x (or_introl eq_refl)) as Hx.
  assert (IH' : Z.abs (sumZ (map f l)) <= sumZ (map g l))
    by (apply IH; intros y Hy; apply Hall; now right).
  unfold sumZ in *. lia.
Qed.

Lemma sumZ_filter_le {X : Type} (g : X -> Z) (p : X -> bool) (l : list X) :
  (forall x, 0 <= g x) ->
  sumZ (map g (filter p l)) <= sumZ (map g l).
Proof.
  intros Hpos. induction l as [|x l IH]; cbn [filter map sumZ fold_right]; [lia|].
  specialize (Hpos x). unfold sumZ in *.
  destruct (p x); cbn [map fold_right]; lia.
Qed.

Lemma rowMagnitude_nonneg r : 0 <= rowMagnitude r.
Proof. unfold rowMagnitude. lia. Qed.

Lemma rowAttempts_magnitude r :
  Z.abs (numOr0 (rowAttempts r)) <= rowMagnitude r
  /\ (rowAttempts r <> NaN -> numOr0 (rowAttempts r) = attemptsAsSpecified r).
Proof.
  unfold rowAttempts, rowMagnitude, attemptsAsSpecified, cellValue.
  destruct (parseInt (or_zero (attempts_to_zone r))) as [|z],
           (parseInt (or_zero (attempts_to_top r))) as [|t];
    cbn [add numOr0]; split; try lia; try congruence; intros _; reflexivity.
Qed.

(** On numeric rows the [reduce] of the code gives the integer sum. *)
Lemma compAttemptsOf_spec results climberId compId :
  Forall (fun r => rowAttempts r <> NaN) (pairRows results climberId compId) ->
  compAttemptsOf results climberId compId
  = Num (pairAttempts results climberId compId).
Proof.
  unfold compAttemptsOf, pairAttempts, pairRows.
  generalize (filter (fun r => (climber_id r =? climberId)%string
                               && (comp_id r =? compId)%string) results) as l.
  intros l Hall.
  rewrite <- (Z.add_0_l (sumZ (map attemptsAsSpecified l))).
  generalize 0 as s0.
  induction Hall as [|r l Hr _ IH]; intros s0; cbn [fold_left map sumZ fold_right].
  - now rewrite Z.add_0_r.
  - unfold rowAttempts in Hr. unfold attemptsAsSpecified at 1, cellValue.
    destruct (parseInt (or_zero (attempts_to_zone r))) as [|z]; [contradiction|].
    destruct (parseInt (or_zero (attempts_to_top r))) as [|t]; [contradiction|].
    cbn [add numOr0]. rewrite IH. unfold sumZ. f_equal. lia.
Qed.

Lemma pairAttempts_safe results climberId compId :
  withinSafeRange results ->
  Z.abs (pairAttempts results climberId compId) <= maxSafe.
Proof.
  intros Hsafe. unfold pairAttempts, pairRows.
  eapply Z.le_trans; [|exact Hsafe].
  eapply Z.le_trans; [|apply sumZ_filter_le, rowMagnitude_nonneg].
  apply sumZ_abs_le. intros r _. unfold attemptsAsSpecified, rowMagnitude. lia.
Qed.

(** The boulders of the rows that [topCount] counts. *)
Lemma topRows_boulders results compId climberId :
  let tops :=
    filter (fun r => loose_eq (top_completed r) 1
                     && ((comp_id r =? compId)%string
                         && (climber_id r =? climberId)%string)) results in
  (forall b, In b (map boulder_id tops)
             <-> toppedBoulder results compId climberId b = true)
  /\ incl (map boulder_id tops) (distinctBoulders results compId)
  /\ (noDuplicateRows results -> NoDup (map boulder_id tops)).
Proof.
  intros tops. assert (Hmem : forall b, In b (map boulder_id tops)
                       <-> toppedBoulder results compId climberId b = true).
  { intros b. unfold toppedBoulder. rewrite in_map_iff, existsb_exists. split.
    - intros (r & Hb & Hin). apply filter_In in Hin as [Hin Hc].
      exists r. split; [exact Hin|].
      apply andb_true_iff in Hc as [Ht Hc]. apply andb_true_iff in Hc as [Hk Hcl].
      rewrite Hk, Hcl, Ht, Hb, String.eqb_refl. reflexivity.
    - intros (r & Hin & Hc).
      apply andb_true_iff in Hc as [Hc Ht]. apply andb_true_iff in Hc as [Hc Hb].
      apply andb_true_iff in Hc as [Hk Hcl].
      exists r. split; [now apply String.eqb_eq|].
      apply filter_In. split; [exact Hin|]. now rewrite Ht, Hk, Hcl. }
  split; [exact Hmem|]. split.
  - intros b Hb. unfold distinctBoulders. apply nodup_In.
    apply in_map_iff in Hb as (r & Hb & Hin). apply filter_In in Hin as [Hin Hc].
    apply andb_true_iff in Hc as [_ Hc]. apply andb_true_iff in Hc as [Hk _].
    apply in_map_iff. exists r. split; [exact Hb|]. apply filter_In. now split.
  - clear Hmem. unfold noDuplicateRows. subst tops.
    induction results as [|a results IH]; intros Hnd; cbn [filter map];
      [constructor|].
    cbn [map] in Hnd. apply NoDup_cons_iff in Hnd as [Hnot Hnd].
    destruct (loose_eq (top_completed a) 1
              && ((comp_id a =? compId)%string
                  && (climber_id a =? climberId)%string)) eqn:Ha;
      [|now apply IH].
    cbn [map]. constructor; [|now apply IH].
    intros Hin. apply Hnot.
    apply in_map_iff in Hin as (r & Hb & Hin). apply filter_In in Hin as [Hin Hc].
    apply in_map_iff. exists r. split; [|exact Hin].
    apply andb_true_iff in Hc as [_ Hc]. apply andb_true_iff in Hc as [Hk Hcl].
    apply andb_true_iff in Ha as [_ Ha]. apply andb_true_iff in Ha as [Hk' Hcl'].
    apply String.eqb_eq in Hk, Hcl, Hk', Hcl'.
    unfold rowKey. congruence.
Qed.

(** Without duplicate rows the count test of the code is the test of the
    specification: every distinct boulder topped. *)
Lemma qualifies_without_duplicates results climberStats climberId compId :
  noDuplicateRows results ->
  (qualifies results climberStats climberId compId
   <-> JsMap.has climberId climberStats = true
       /\ distinctBoulders results compId <> []
       /\ toppedEveryBoulder results compId climberId = true).
Proof.
  intros Hnd. unfold qualifies, topCount, boulderCount, toppedEveryBoulder.
  destruct (topRows_boulders results compId climberId) as (Hmem & Hincl & Hnodup).
  specialize (Hnodup Hnd). cbv zeta in Hmem, Hincl, Hnodup.
  set (tops := filter _ results) in *.
  assert (HB : NoDup (distinctBoulders results compId))
    by (unfold distinctBoulders; apply NoDup_nodup).
  rewrite forallb_forall.
  rewrite <- (length_map boulder_id tops).
  split.
  - intros (Hhas & Hpos & Heq). split; [exact Hhas|]. split.
    + intros Hnil. rewrite Hnil in Heq. cbn in Heq. lia.
    + intros b Hb. apply Hmem.
      assert (Hall : incl (distinctBoulders results compId) (map boulder_id tops))
        by (apply NoDup_length_incl; [exact Hnodup | lia | exact Hincl]).
      exact (Hall b Hb).
  - intros (Hhas & Hne & Hall). split; [exact Hhas|].
    assert (Hle1 : (List.length (map boulder_id tops)
                    <= List.length (distinctBoulders results compId))%nat)
      by (apply NoDup_incl_length; assumption).
    assert (Hle2 : (List.length (distinctBoulders results compId)
                    <= List.length (map boulder_id tops))%nat).
    { apply NoDup_incl_length; [exact HB|]. intros b Hb. apply Hmem, Hall, Hb. }
    destruct (distinctBoulders results compId) as [|b0 bs]; [contradiction|].
    cbn [List.length] in *. lia.
Qed.

(** C6, as the code has it. Perfect Score, for competition ids without a colon (the
    key of the per-climber count is the competition id, a colon and the
    climber id), attempts cells that parse as numbers on the rows of the
    qualifying pairs, and attempts whose sizes add up to 2^53 at most. A
    registered climber qualifies in a competition exactly when its rows with
    a top there are as many as the distinct boulder_ids of the competition,
    duplicate rows counted each; where no climber has two rows on the same
    boulder of a competition, that is exactly when the competition has a
    boulder and the climber topped every distinct boulder of it. With no
    qualifying pair there is no award. Otherwise the qualifying (climber,
    competition) pairs of all competitions are pooled; the winners are the
    pairs whose attempts, the integer sum of attempts_to_zone and
    attempts_to_top over the rows of the climber in the competition, are the
    fewest of the whole pool; the award shows that sum, names a single
    winner by its climber and competition and several winners by their
    number; and other_comps_count is the number of qualifying pairs left out
    of the winners. *)
Theorem perfectScore_spec :
  forall (results : list ResultEntry) (climberStats : JsMap.t ClimberStats),
  Forall (fun r => no_colon (comp_id r) = true) results ->
  (forall climberId compId,
     qualifies results climberStats climberId compId ->
     Forall (fun r => rowAttempts r <> NaN) (pairRows results climberId compId)) ->
  withinSafeRange results ->
  (noDuplicateRows results ->
   forall climberId compId,
     qualifies results climberStats climberId compId
     <-> JsMap.has climberId climberStats = true
         /\ distinctBoulders results compId <> []
         /\ toppedEveryBoulder results compId climberId = true)
  /\ ((forall climberId compId,
         ~ qualifies results climberStats climberId compId) ->
      perfectScore results climberStats = Ok None)
  /\ ((exists climberId compId,
         qualifies results climberStats climberId compId) ->
      exists award qualifiers winners,
        perfectScore results climberStats = Ok (Some award)
        /\ NoDup qualifiers
        /\ (forall climberId compId,
              In (climberId, compId) qualifiers <->
              qualifies results climberStats climberId compId)
        /\ NoDup winners /\ winners <> []
        /\ (forall climberId compId,
              In (climberId, compId) winners <->
              qualifies results climberStats climberId compId
              /\ forall climberId' compId',
                   qualifies results climberStats climberId' compId' ->
                   pairAttempts results climberId compId
                   <= pairAttempts results climberId' compId')
        /\ (forall climberId compId,
              In (climberId, compId) winners ->
              ps_attempts award = Num (pairAttempts results climberId compId)
              /\ Z.abs (pairAttempts results climberId compId) <= maxSafe)
        /\ ps_other_comps_count award
           = Z.of_nat (List.length qualifiers) - Z.of_nat (List.length winners)
        /\ ps_is_tie award = (1 <? Z.of_nat (List.length winners))
        /\ (forall climberId compId,
              winners = [(climberId, compId)] ->
              ps_climber_id award = Some climberId
              /\ ps_comp_id award = compId
              /\ ps_climber_name award = nameOf climberStats climberId)
        /\ ((1 < List.length winners)%nat ->
            ps_climber_id award = None
            /\ ps_winner_count award = Some (Z.of_nat (List.length winners)))).
Proof.
  intros results climberStats Hcolon Hnum Hsafe.
  split; [intros Hnd climberId compId; now apply qualifies_without_duplicates|].
  split; [intros Hnone; now apply perfectScore_none|].
  intros Hex.
  assert (Hatt : forall climberId compId,
            qualifies results climberStats climberId compId ->
            compAttemptsOf results climberId compId
            = Num (pairAttempts results climberId compId)).
  { intros climberId compId Hq. now apply compAttemptsOf_spec, Hnum. }
  assert (Hnum' : forall climberId compId,
            qualifies results climberStats climberId compId ->
            compAttemptsOf results climberId compId <> NaN).
  { intros climberId compId Hq. rewrite (Hatt _ _ Hq). discriminate. }
  destruct (perfectScore_pool results climberStats Hcolon Hex Hnum')
    as (award & qualifiers & winners & Hrun & Hnq & Hmem & Hnw & Hne & Hwin
        & Haw & Hoth & Htie & Hone & Hmany).
  exists award, qualifiers, winners.
  split; [exact Hrun|]. split; [exact Hnq|]. split; [exact Hmem|].
  split; [exact Hnw|]. split; [exact Hne|].
  split; [|split; [|split; [exact Hoth|]; split; [exact Htie|];
                     split; [exact Hone | exact Hmany]]].
  - intros climberId compId. rewrite Hwin. split.
    + intros [Hq Hmin]. split; [exact Hq|]. intros climberId' compId' Hq'.
      specialize (Hmin _ _ Hq'). rewrite (Hatt _ _ Hq), (Hatt _ _ Hq') in Hmin.
      exact Hmin.
    + intros [Hq Hmin]. split; [exact Hq|]. intros climberId' compId' Hq'.
      rewrite (Hatt _ _ Hq), (Hatt _ _ Hq'). exact (Hmin _ _ Hq').
  - intros climberId compId Hin. split.
    + rewrite (Haw _ _ Hin). apply Hatt. now apply Hwin in Hin.
    + now apply pairAttempts_safe.
Qed.

(** The example of the specification: B's clearance of competition 2 is in
    the pool, and A's 4 attempts in competition 1 win. *)
Lemma perfectScore_spec_witness :
  Forall (fun r => no_colon (comp_id r) = true) perfectSample
  /\ withinSafeRange perfectSample
  /\ qualifies perfectSample
       (aggregateClimberStats sampleRoster perfectSample None) "C2" "2"
  /\ exists award (qualifiers winners : list (string * string)),
       perfectScore perfectSample
         (aggregateClimberStats sampleRoster perfectSample None)
       = Ok (Some award)
       /\ In ("C2", "2") qualifiers
       /\ (forall climberId compId,
             In (climberId, compId) winners ->
             ps_attempts award = Num (pairAttempts perfectSample climberId compId))
       /\ ps_other_comps_count award
          = Z.of_nat (List.length qualifiers) - Z.of_nat (List.length winners).
Proof.
  assert (Hcolon : Forall (fun r => no_colon (comp_id r) = true) perfectSample)
    by (repeat constructor).
  assert (Hsafe : withinSafeRange perfectSample)
    by (vm_compute; discriminate).
  assert (Hq : qualifies perfectSample
                 (aggregateClimberStats sampleRoster perfectSample None) "C2" "2")
    by (repeat split).
  assert (Hrows : Forall (fun r => rowAttempts r <> NaN) perfectSample)
    by (repeat constructor; discriminate).
  assert (Hnum : forall climberId compId,
            qualifies perfectSample
              (aggregateClimberStats sampleRoster perfectSample None)
              climberId compId ->
            Forall (fun r => rowAttempts r <> NaN)
                   (pairRows perfectSample climberId compId)).
  { intros climberId compId _. apply Forall_forall. intros r Hr.
    unfold pairRows in Hr. apply filter_In in Hr as [Hr _].
    revert r Hr. now apply Forall_forall. }
  destruct (perfectScore_spec perfectSample
              (aggregateClimberStats sampleRoster perfectSample None)
              Hcolon Hnum Hsafe) as (_ & _ & Hpool).
  destruct (Hpool (ex_intro _ "C2" (ex_intro _ "2" Hq)))
    as (award & qualifiers & winners & Hrun & _ & Hmem & _ & _ & _ & Haw
        & Hothers & _).
  split; [exact Hcolon|]. split; [exact Hsafe|]. split; [exact Hq|].
  exists award, qualifiers, winners.
  split; [exact Hrun|]. split; [now apply Hmem|]. split; [|exact Hothers].
  intros climberId compId Hin. now apply Haw.
Defined.

(** C6 as worded fails on duplicate rows, both ways. In the first list C1
    topped both boulders of competition 1, b1 in two rows: every distinct
    boulder is topped, yet three tops are not two boulders and there is no
    Perfect Score. In the second C1 topped b1 twice and b2 never: not every
    distinct boulder is topped, yet two tops are two boulders and C1 holds
    the Perfect Score. *)
Lemma perfectScore_repeated_top :
  let statsOf results := aggregateClimberStats sampleRoster results None in
  (noDuplicateRows repeatedTopSample -> False)
  /\ (JsMap.has "C1" (statsOf repeatedTopSample) = true
      /\ boulderCount repeatedTopSample "1" = 2
      /\ toppedEveryBoulder repeatedTopSample "1" "C1" = true
      /\ topCount repeatedTopSample "1" "C1" = 3
      /\ perfectScore repeatedTopSample (statsOf repeatedTopSample) = Ok None)
  /\ (JsMap.has "C1" (statsOf duplicateTopsSample) = true
      /\ boulderCount duplicateTopsSample "1" = 2
      /\ toppedBoulder duplicateTopsSample "1" "C1" "b2" = false
      /\ toppedEveryBoulder duplicateTopsSample "1" "C1" = false
      /\ topCount duplicateTopsSample "1" "C1" = 2
      /\ perfectScore duplicateTopsSample (statsOf duplicateTopsSample)
         = Ok (Some (mkPerfectScore "A" (Some "C1") "1" 2 (Num 3) false None 0))).
Proof.
  cbv zeta. split.
  - unfold noDuplicateRows. intros Hnd. cbn in Hnd.
    apply NoDup_cons_iff in Hnd as [Hnot _]. apply Hnot. right. now left.
  - repeat split; vm_compute; reflexivity.
Qed.

(** A qualifying pair with an attempts cell that is not a number: its
    attempts are NaN, no entry of the pool equals the fewest, and reading
    the first winner raises. *)
Example perfectScore_nan_attempts :
  let results :=
    [sampleRow "1" "b1" "C1" (VString "abc") (VString "2") (VString "1") (VString "1")] in
  exists e, perfectScore results (aggregateClimberStats sampleRoster results None)
            = Throw e.
Proof. cbv zeta. eexists. vm_compute. reflexivity. Qed.

(** ** Efficiency King *)

Lemma efficiencyCandidates_spec climberStats :
  efficiencyCandidates climberStats
  = map efficiencyOf
        (filter (fun stats => gt (cs_total_attempts stats) (Num 0))
                (JsMap.values climberStats)).
Proof.
  unfold efficiencyCandidates, JsMap.values.
  enough (Hgen : forall l acc,
            fold_left
              (fun candidates (entry : string * ClimberStats) =>
                 let climber := snd entry in
                 if gt (cs_total_attempts climber) (Num 0)
                 then candidates ++
                      [mkEfficiency (cs_climber_name climber)
                         (ratioOf (cs_total_points climber)
                                  (cs_total_attempts climber)) false]
                 else candidates)
              l acc
            = acc ++ map efficiencyOf
                (filter (fun stats => gt (cs_total_attempts stats) (Num 0))
                        (map snd l))).
  { apply (Hgen climberStats []). }
  induction l as [|[id st] l IH]; intros acc; simpl.
  - now rewrite app_nil_r.
  - rewrite IH. destruct (gt (cs_total_attempts st) (Num 0)); [|reflexivity].
    simpl. now rewrite <- app_assoc.
Qed.

Lemma ratiosComparable_facts (l : list float) :
  ratiosComparable l = true ->
  (forall x, In x l ->
     PrimFloat.ltb (PrimFloat.abs (PrimFloat.sub x x)) tolerance = true)
  /\ (forall x y, In x l -> In y l -> differenceAgrees x y = true)
  /\ (forall x y z, In x l -> In y l -> In z l ->
        PrimFloat.leb z y = true -> PrimFloat.leb y x = true ->
        PrimFloat.leb z x = true).
Proof.
  unfold ratiosComparable. intros Hall.
  rewrite forallb_forall in Hall. repeat split.
  - intros x Hx. apply Hall in Hx. now apply andb_true_iff in Hx as [Hx _].
  - intros x y Hx Hy. apply Hall in Hx. apply andb_true_iff in Hx as [_ Hx].
    rewrite forallb_forall in Hx. apply Hx in Hy.
    now apply andb_true_iff in Hy as [Hy _].
  - intros x y z Hx Hy Hz Hzy Hyx. apply Hall in Hx.
    apply andb_true_iff in Hx as [_ Hx].
    rewrite forallb_forall in Hx. apply Hx in Hy.
    apply andb_true_iff in Hy as [_ Hy].
    rewrite forallb_forall in Hy. apply Hy in Hz.
    rewrite Hzy, Hyx in Hz. exact Hz.
Qed.

(** C7. Efficiency King. On the example of the specification (ratios 1.998,
    2.000 and 2.0005) Y and Z tie and X is left out. In general the
    candidates are the climbers with total_attempts > 0, each with the double
    total_points / total_attempts; when there is one, the best ratio is the
    largest of them and the winners are all the candidates whose ratio
    differs from it by less than 0.001 in double arithmetic, reported with
    joined names and the tie flag when they are several. The order facts of
    doubles used on the way are those [ratiosComparable] checks. *)
Theorem efficiencyKing_spec :
  efficiencyKing efficiencySample
  = Ok (Some (mkEfficiency "Z & Y" (ratioOf 200050 (Num 100000)) true))
  /\ forall climberStats : JsMap.t ClimberStats,
       let candidates :=
         map efficiencyOf
             (filter (fun stats => gt (cs_total_attempts stats) (Num 0))
                     (JsMap.values climberStats)) in
       candidates <> [] ->
       ratiosComparable (map ek_ratio candidates) = true ->
       exists award best winners,
         efficiencyKing climberStats = Ok (Some award)
         /\ In best (map ek_ratio candidates)
         /\ (forall c, In c candidates -> PrimFloat.leb (ek_ratio c) best = true)
         /\ Permutation winners (filter (nearBest best) candidates)
         /\ ek_climber_name award
            = JsArray.join " & " (map ek_climber_name winners)
         /\ ek_ratio award = best
         /\ ek_is_tie award = (1 <? Z.of_nat (List.length winners)).
Proof.
  split; [vm_compute; reflexivity|].
  intros climberStats candidates Hne Hcheck.
  destruct (ratiosComparable_facts _ Hcheck) as (Hself & Hpair & Htri).
  assert (Hratio : forall c, In c candidates -> In (ek_ratio c) (map ek_ratio candidates))
    by (intros c Hc; now apply in_map).
  set (D := fun c : Efficiency => In c candidates).
  set (R := fun a b : Efficiency => PrimFloat.leb (ek_ratio b) (ek_ratio a) = true).
  assert (Hsorted : StronglySorted R (JsArray.sort efficiencyAfter candidates)).
  { apply (JsArrayFacts.sort_sorted efficiencyAfter D R).
    - intros x y Hx Hy Haft. unfold R, efficiencyAfter in *.
      pose proof (Hpair _ _ (Hratio x Hx) (Hratio y Hy)) as Hd.
      unfold differenceAgrees in Hd. rewrite Haft in Hd. simpl in Hd.
      now apply andb_true_iff in Hd as [Hd _].
    - intros x y Hx Hy Haft. unfold R, efficiencyAfter in *.
      pose proof (Hpair _ _ (Hratio x Hx) (Hratio y Hy)) as Hd.
      unfold differenceAgrees in Hd. rewrite Haft in Hd. simpl in Hd. exact Hd.
    - intros x y z Hx Hy Hz Hxy Hyz. unfold R in *.
      apply (Htri (ek_ratio x) (ek_ratio y) (ek_ratio z)); auto.
    - apply Forall_forall. auto. }
  destruct (JsArray.sort efficiencyAfter candidates) as [|c0 rest] eqn:Hsort.
  { exfalso. apply Hne. apply length_zero_iff_nil.
    rewrite <- (JsArrayFacts.sort_length efficiencyAfter), Hsort. reflexivity. }
  assert (Hc0 : In c0 candidates).
  { apply (JsArrayFacts.sort_In efficiencyAfter). rewrite Hsort. now left. }
  assert (Hrefl : forall c, In c candidates -> R c c).
  { intros c Hc. unfold R.
    pose proof (Hpair _ _ (Hratio c Hc) (Hratio c Hc)) as Hd.
    unfold differenceAgrees in Hd.
    destruct (PrimFloat.ltb 0 (PrimFloat.sub (ek_ratio c) (ek_ratio c)));
      simpl in Hd; [exact Hd | now apply andb_true_iff in Hd as [Hd _]]. }
  assert (Hmax : forall c, In c candidates ->
                           PrimFloat.leb (ek_ratio c) (ek_ratio c0) = true).
  { intros c Hc. apply (JsArrayFacts.sort_In efficiencyAfter) in Hc.
    rewrite Hsort in Hc. destruct Hc as [<-|Hc]; [now apply Hrefl|].
    inversion Hsorted as [|? ? _ Hall]; subst.
    rewrite Forall_forall in Hall. now apply Hall. }
  assert (Hnear0 : nearBest (ek_ratio c0) c0 = true).
  { unfold nearBest. apply Hself. now apply Hratio. }
  set (ws := filter (nearBest (ek_ratio c0)) rest).
  assert (Hperm : Permutation (c0 :: ws)
                    (filter (nearBest (ek_ratio c0)) candidates)).
  { rewrite <- (Permutation_filter _ _ _
                  (JsArrayFacts.sort_perm efficiencyAfter candidates)).
    rewrite Hsort. simpl. rewrite Hnear0. reflexivity. }
  assert (Hrun : exists award,
            efficiencyKing climberStats = Ok (Some award)
            /\ ek_climber_name award
               = JsArray.join " & " (map ek_climber_name (c0 :: ws))
            /\ ek_ratio award = ek_ratio c0
            /\ ek_is_tie award = (1 <? Z.of_nat (List.length (c0 :: ws)))).
  { unfold efficiencyKing. rewrite efficiencyCandidates_spec. fold candidates.
    assert (Hcs : nonempty climberStats = true).
    { apply nonempty_true. intros ->. now apply Hne. }
    assert (Hcn : nonempty candidates = true) by now apply nonempty_true.
    rewrite Hcs, Hcn, Hsort. simpl first. cbv iota beta zeta.
    simpl filter. rewrite Hnear0. fold ws.
    destruct ws as [|w2 ws'].
    - eexists. split; [reflexivity|]. repeat split.
    - eexists. split; [reflexivity|]. repeat split.
      symmetry. apply Z.ltb_lt. simpl List.length. lia. }
  destruct Hrun as (award & Hrun & Hname & Hbest & Htie).
  exists award, (ek_ratio c0), (c0 :: ws).
  repeat split; auto.
Qed.

(** The example of the specification passes the check, and the award it
    yields is the one the theorem describes. *)
Lemma efficiencyKing_spec_witness :
  ratiosComparable
    (map ek_ratio
       (map efficiencyOf
          (filter (fun stats => gt (cs_total_attempts stats) (Num 0))
                  (JsMap.values efficiencySample)))) = true
  /\ exists award best (winners : list Efficiency),
       efficiencyKing efficiencySample = Ok (Some award)
       /\ In best [ratioOf 49950 (Num 25000); ratioOf 100 (Num 50);
                   ratioOf 200050 (Num 100000)]
       /\ ek_ratio award = best
       /\ ek_is_tie award = (1 <? Z.of_nat (List.length winners)).
Proof.
  assert (Hcheck : ratiosComparable
            (map ek_ratio
               (map efficiencyOf
                  (filter (fun stats => gt (cs_total_attempts stats) (Num 0))
                          (JsMap.values efficiencySample)))) = true)
    by (vm_compute; reflexivity).
  split; [exact Hcheck|].
  destruct (proj2 efficiencyKing_spec efficiencySample ltac:(discriminate) Hcheck)
    as (award & best & winners & Hrun & Hin & _ & _ & _ & Hbest & Htie).
  exists award, best, winners. repeat split; auto.
Defined.

(** Duplicate rows are counted each: two tops on boulder b1 make up for the
    boulder b2 that was not topped. *)
Example perfectScore_duplicate_tops :
  topCount duplicateTopsSample "1" "C1" = 2
  /\ distinctBoulders duplicateTopsSample "1" = ["b1"; "b2"]
  /\ perfectScore duplicateTopsSample
       (aggregateClimberStats sampleRoster duplicateTopsSample None)
     = Ok (Some (mkPerfectScore "A" (Some "C1") "1" 2 (Num 3) false None 0)).
Proof. repeat split; vm_compute; reflexivity. Qed.

(* ################################################################## *)
(** * Further properties of the code                                   *)
(* ################################################################## *)

(** ** Reading a CSV line *)

Lemma list_ind2 {X : Type} (P : list X -> Prop) :
  P [] -> (forall a l, P l -> (forall b l', l = b :: l' -> P l') -> P (a :: l)) ->
  forall l, P l.
Proof.
  intros Hnil Hstep l.
  enough (H : P l /\ (forall b l', l = b :: l' -> P l')) by apply H.
  induction l as [|a l [IH1 IH2]].
  - split; [exact Hnil | discriminate].
  - split; [now apply Hstep|]. now intros b l' [= _ <-].
Qed.

(** Inside quotes the loop reads an escaped field back and leaves the quotes
    at its closing quote. *)
Lemma parseCSVLoop_escaped field : forall rest result current,
  hd_error rest <> Some quote_char ->
  parseCSVLoop (escapeQuotes field ++ quote_char :: rest) result current true
  = parseCSVLoop rest result (current ++ field) false.
Proof.
  induction field as [|c field IH]; intros rest result current Hrest.
  - cbn [escapeQuotes app parseCSVLoop]. rewrite Ascii.eqb_refl, app_nil_r.
    destruct rest as [|n rest]; [reflexivity|].
    cbn [andb negb].
    destruct (Ascii.eqb_spec n quote_char) as [->|_]; [now elim Hrest | reflexivity].
  - cbn [escapeQuotes]. destruct (Ascii.eqb_spec c quote_char) as [->|Hc].
    + cbn [app parseCSVLoop]. rewrite Ascii.eqb_refl. cbn [andb].
      rewrite IH by exact Hrest. now rewrite <- app_assoc.
    + cbn [app parseCSVLoop].
      destruct (Ascii.eqb_spec c quote_char) as [|_]; [contradiction|].
      cbn [negb]. rewrite andb_false_r, IH by exact Hrest.
      now rewrite <- app_assoc.
Qed.

(** Outside quotes a plain field is appended to the current one. *)
Lemma parseCSVLoop_plain field : forall rest result current,
  isPlain field = true ->
  parseCSVLoop (field ++ rest) result current false
  = parseCSVLoop rest result (current ++ field) false.
Proof.
  induction field as [|c field IH]; intros rest result current Hplain.
  - now rewrite app_nil_r.
  - cbn [isPlain forallb] in Hplain. apply andb_prop in Hplain as [Hc Hplain].
    apply negb_true_iff, orb_false_iff in Hc as [Hq Hcomma].
    cbn [app parseCSVLoop]. rewrite Hq, Hcomma. cbn [andb].
    rewrite IH by exact Hplain. now rewrite <- app_assoc.
Qed.

Lemma parseCSVLoop_written field rest result current :
  hd_error rest <> Some quote_char ->
  parseCSVLoop (writeField field ++ rest) result current false
  = parseCSVLoop rest result (current ++ field) false.
Proof.
  intros Hrest. unfold writeField. destruct (isPlain field) eqn:Hplain.
  - now apply parseCSVLoop_plain.
  - unfold quoteField. rewrite <- app_comm_cons, <- app_assoc.
    cbn [app parseCSVLoop]. rewrite Ascii.eqb_refl. cbn [andb negb].
    destruct (escapeQuotes field ++ quote_char :: rest) as [|n l] eqn:Hl.
    + now destruct (escapeQuotes field).
    + rewrite <- Hl. now apply parseCSVLoop_escaped.
Qed.

Lemma parseCSVLoop_joined fields : forall field result,
  parseCSVLoop (joinChars comma_char (map writeField (field :: fields)))
               result [] false
  = result ++ field :: fields.
Proof.
  induction fields as [|field' fields IH]; intros field result.
  - cbn [map joinChars].
    rewrite <- (app_nil_r (writeField field)), parseCSVLoop_written by (simpl; congruence).
    reflexivity.
  - change (joinChars comma_char (map writeField (field :: field' :: fields)))
      with (writeField field
            ++ comma_char :: joinChars comma_char (map writeField (field' :: fields))).
    rewrite parseCSVLoop_written by (simpl; intros [= H]; discriminate H).
    cbn [parseCSVLoop app].
    change (Ascii.eqb comma_char quote_char) with false.
    rewrite Ascii.eqb_refl. cbn [andb negb].
    rewrite IH, <- app_assoc. reflexivity.
Qed.

(** X1. [parseCSVLine] reads back what a CSV writer wrote: for a row of at
    least one field, each written plain when it holds neither quote nor comma
    and otherwise between quotes with its quotes doubled, the line of the
    fields joined by commas parses to exactly those fields. *)
Theorem parseCSVLine_round_trip (fields : list (list ascii)) :
  fields <> [] ->
  parseCSVLine
    (string_of_list_ascii (joinChars comma_char (map writeField fields)))
  = map string_of_list_ascii fields.
Proof.
  intros Hne. destruct fields as [|field fields]; [contradiction|].
  unfold parseCSVLine, parseCSVChars.
  rewrite list_ascii_of_string_of_list_ascii, parseCSVLoop_joined.
  reflexivity.
Qed.

Lemma parseCSVLine_round_trip_witness :
  csvSampleFields <> []
  /\ parseCSVLine
       (string_of_list_ascii (joinChars comma_char (map writeField csvSampleFields)))
     = map string_of_list_ascii csvSampleFields.
Proof.
  split; [discriminate|].
  apply (parseCSVLine_round_trip csvSampleFields). discriminate.
Defined.

(** The sample row on the wire: the second and third fields are quoted. *)
Example csvSampleFields_written :
  map writeField csvSampleFields
  = [list_ascii_of_string "plain";
     quote_char :: list_ascii_of_string "a, b" ++ [quote_char];
     [quote_char; quote_char; quote_char; "h"; "i"; quote_char; quote_char;
      quote_char]%char;
     []].
Proof. reflexivity. Qed.

Lemma split_on_nonempty sep s : split_on sep s <> [].
Proof.
  destruct s as [|c s]; simpl; [discriminate|].
  destruct (Ascii.eqb c sep); [discriminate|].
  destruct (split_on sep s); discriminate.
Qed.

Lemma joinChars_split_on sep s : joinChars sep (split_on sep s) = s.
Proof.
  induction s as [|c s IH]; [reflexivity|].
  cbn [split_on]. pose proof (split_on_nonempty sep s) as Hne.
  destruct (Ascii.eqb_spec c sep) as [->|Hc];
    destruct (split_on sep s) as [|piece pieces]; try contradiction.
  - cbn [joinChars app]. cbn [joinChars] in IH. now rewrite IH.
  - destruct pieces as [|piece' pieces].
    + cbn [joinChars] in *. now rewrite IH.
    + change (joinChars sep ((c :: piece) :: piece' :: pieces))
        with (c :: (piece ++ sep :: joinChars sep (piece' :: pieces))).
      change (joinChars sep (piece :: piece' :: pieces))
        with (piece ++ sep :: joinChars sep (piece' :: pieces)) in IH.
      now rewrite IH.
Qed.

(** Outside quotes, on a line without quotes, the loop cuts at the commas. *)
Lemma parseCSVLoop_split_on line : forall result current,
  forallb (fun c => negb (Ascii.eqb c quote_char)) line = true ->
  parseCSVLoop line result current false
  = result ++ match split_on comma_char line with
              | piece :: pieces => (current ++ piece) :: pieces
              | [] => [current]
              end.
Proof.
  induction line as [|c line IH]; intros result current Hq.
  - cbn. now rewrite app_nil_r.
  - cbn [forallb] in Hq. apply andb_prop in Hq as [Hc Hq].
    apply negb_true_iff in Hc. cbn [parseCSVLoop split_on]. rewrite Hc.
    pose proof (split_on_nonempty comma_char line) as Hne.
    destruct (Ascii.eqb c comma_char); cbn [andb negb];
      rewrite IH by exact Hq;
      destruct (split_on comma_char line); try contradiction.
    + rewrite <- app_assoc, app_nil_r. reflexivity.
    + rewrite <- app_assoc. reflexivity.
Qed.

(** X2. On a line that holds no quote, [parseCSVLine] is [line.split(',')]:
    the fields are the pieces between the commas, in order, and joining them
    with commas gives the line back. *)
Theorem parseCSVLine_without_quotes (line : string) :
  forallb (fun c => negb (Ascii.eqb c quote_char)) (list_ascii_of_string line)
  = true ->
  parseCSVLine line
  = map string_of_list_ascii (split_on comma_char (list_ascii_of_string line))
  /\ string_of_list_ascii
       (joinChars comma_char (map list_ascii_of_string (parseCSVLine line)))
     = line.
Proof.
  intros Hq.
  assert (Hparse : parseCSVChars (list_ascii_of_string line)
                   = split_on comma_char (list_ascii_of_string line)).
  { unfold parseCSVChars. rewrite parseCSVLoop_split_on by exact Hq.
    pose proof (split_on_nonempty comma_char (list_ascii_of_string line)).
    now destruct (split_on comma_char (list_ascii_of_string line)). }
  unfold parseCSVLine. rewrite Hparse. split; [reflexivity|].
  rewrite map_map.
  rewrite (map_ext _ (fun x => x)) by apply list_ascii_of_string_of_list_ascii.
  rewrite map_id, joinChars_split_on. apply string_of_list_ascii_of_string.
Qed.

Lemma parseCSVLine_without_quotes_witness :
  parseCSVLine "T1, Alpha ,,C1" = ["T1"; " Alpha "; EmptyString; "C1"]%string
  /\ string_of_list_ascii
       (joinChars comma_char
          (map list_ascii_of_string (parseCSVLine "T1, Alpha ,,C1")))
     = "T1, Alpha ,,C1"%string.
Proof.
  exact (parseCSVLine_without_quotes "T1, Alpha ,,C1" eq_refl).
Defined.

(** ** Reading a CSV file *)

(** The loop always pushes the last field. *)
Lemma parseCSVLoop_length line : forall result current inQuotes,
  (List.length result
   < List.length (parseCSVLoop line result current inQuotes))%nat.
Proof.
  induction line as [|c line IH IH'] using list_ind2;
    intros result current inQuotes.
  - cbn. rewrite length_app. simpl. lia.
  - cbn [parseCSVLoop]. destruct (Ascii.eqb c quote_char).
    + destruct line as [|n line']; [cbn; rewrite length_app; simpl; lia|].
      destruct (inQuotes && Ascii.eqb n quote_char).
      * apply (IH' n line' eq_refl).
      * apply IH.
    + destruct (Ascii.eqb c comma_char && negb inQuotes).
      * eapply Nat.lt_trans; [|apply IH]. rewrite length_app. simpl. lia.
      * apply IH.
Qed.

Lemma parseCSVChars_nonempty line : parseCSVChars line <> [].
Proof.
  unfold parseCSVChars. intros Heq.
  pose proof (parseCSVLoop_length line [] [] false) as Hlt.
  rewrite Heq in Hlt. simpl in Hlt. lia.
Qed.

(** White space and [trim]. *)
Lemma forallb_ws_skip_ws l : forallb is_ws (skip_ws l) = forallb is_ws l.
Proof.
  induction l as [|c l IH]; [reflexivity|]. simpl.
  destruct (is_ws c) eqn:Hc; [exact IH|]. simpl. now rewrite Hc.
Qed.

Lemma forallb_rev {X : Type} (p : X -> bool) (l : list X) :
  forallb p (rev l) = forallb p l.
Proof.
  induction l as [|x l IH]; [reflexivity|]. simpl.
  rewrite forallb_app, IH. simpl. rewrite andb_true_r. apply andb_comm.
Qed.

Lemma forallb_ws_trim l : forallb is_ws (trim l) = forallb is_ws l.
Proof.
  unfold trim.
  now rewrite forallb_rev, forallb_ws_skip_ws, forallb_rev, forallb_ws_skip_ws.
Qed.

Lemma skip_ws_nil l : forallb is_ws l = true -> skip_ws l = [].
Proof.
  induction l as [|c l IH]; [reflexivity|]. simpl.
  destruct (is_ws c); [exact IH | discriminate].
Qed.

Lemma trim_nil l : trim l = [] <-> forallb is_ws l = true.
Proof.
  split.
  - intros Hnil. rewrite <- forallb_ws_trim, Hnil. reflexivity.
  - intros Hall. unfold trim. now rewrite (skip_ws_nil l Hall).
Qed.

Lemma trim_length_zero l :
  (Z.of_nat (List.length (trim l)) =? 0) = forallb is_ws l.
Proof.
  destruct (forallb is_ws l) eqn:Hall.
  - apply trim_nil in Hall. now rewrite Hall.
  - destruct (trim l) eqn:Ht.
    + apply trim_nil in Ht. congruence.
    + apply Z.eqb_neq. simpl List.length. lia.
Qed.

Lemma skip_ws_fixed l : skip_ws (skip_ws l) = skip_ws l.
Proof.
  induction l as [|c l IH]; [reflexivity|]. simpl.
  destruct (is_ws c) eqn:Hc; [exact IH|]. simpl. now rewrite Hc.
Qed.

(** What [skip_ws] leaves ends as the list did. *)
Lemma skip_ws_last l c :
  is_ws c = false -> skip_ws (l ++ [c]) = skip_ws l ++ [c].
Proof.
  intros Hc. induction l as [|x l IH]; simpl.
  - now rewrite Hc.
  - destruct (is_ws x); [exact IH | reflexivity].
Qed.

Lemma skip_ws_head l c a : skip_ws l = c :: a -> is_ws c = false.
Proof.
  induction l as [|x l IH]; simpl; [discriminate|].
  destruct (is_ws x) eqn:Hx; [exact IH|]. now intros [= <- _].
Qed.

(** A trimmed string has no white space at either end: trimming it again
    changes nothing. *)
Lemma trim_trim l : trim (trim l) = trim l.
Proof.
  unfold trim.
  assert (H1 : skip_ws (rev (skip_ws (rev (skip_ws l))))
               = rev (skip_ws (rev (skip_ws l)))).
  { destruct (skip_ws l) as [|c a] eqn:Ha; [reflexivity|].
    apply skip_ws_head in Ha. cbn [rev]. rewrite skip_ws_last by exact Ha.
    rewrite rev_app_distr. cbn [rev app skip_ws]. now rewrite Ha. }
  rewrite H1, rev_involutive, skip_ws_fixed. reflexivity.
Qed.

Lemma forallb_false {X : Type} (p : X -> bool) (l : list X) :
  forallb p l = false -> exists x, In x l /\ p x = false.
Proof.
  induction l as [|x l IH]; simpl; [discriminate|].
  destruct (p x) eqn:Hx.
  - intros Hl. destruct (IH Hl) as (y & Hy & Hpy). exists y. auto.
  - intros _. exists x. auto.
Qed.

Lemma In_split_on sep c s :
  In c s -> c <> sep ->
  exists piece, In piece (split_on sep s) /\ In c piece.
Proof.
  intros Hin Hc. induction s as [|x s IH]; [destruct Hin|].
  cbn [split_on]. pose proof (split_on_nonempty sep s) as Hne.
  destruct Hin as [->|Hin].
  - destruct (Ascii.eqb_spec c sep) as [|_]; [contradiction|].
    destruct (split_on sep s) as [|piece pieces]; [contradiction|].
    exists (c :: piece). split; now left.
  - destruct (IH Hin) as (piece & Hpiece & Hcp).
    destruct (Ascii.eqb x sep).
    + exists piece. split; [now right | exact Hcp].
    + destruct (split_on sep s) as [|piece' pieces]; [contradiction|].
      destruct Hpiece as [->|Hpiece].
      * exists (x :: piece). split; [now left | now right].
      * exists piece. split; [now right | exact Hcp].
Qed.

(** The test that opens [parseCsv] is true of the texts of white space. *)
Lemma parseCsv_guard csvText :
  negb (truthy (VString csvText))
  || (Z.of_nat (List.length (trim (list_ascii_of_string csvText))) =? 0)
  = isBlank csvText.
Proof.
  rewrite trim_length_zero. unfold isBlank.
  destruct csvText; [reflexivity|].
  cbn [truthy String.eqb negb orb]. reflexivity.
Qed.

(** A text that is not blank has a line that is not blank. *)
Lemma csvLines_nonempty csvText :
  isBlank csvText = false -> csvLines csvText <> [].
Proof.
  unfold isBlank, csvLines. intros Hblank.
  rewrite <- forallb_ws_trim in Hblank.
  destruct (forallb_false _ _ Hblank) as (c & Hin & Hc).
  destruct (In_split_on newline_char c _ Hin) as (piece & Hpiece & Hcp).
  { intros ->. discriminate Hc. }
  assert (Hkeep : (0 <? Z.of_nat (List.length (trim piece))) = true).
  { destruct (trim piece) eqn:Ht.
    - apply trim_nil in Ht. rewrite forallb_forall in Ht.
      rewrite (Ht c Hcp) in Hc. discriminate.
    - apply Z.ltb_lt. simpl List.length. lia. }
  intros Hnil.
  assert (Hf : In piece
                 (filter (fun line => 0 <? Z.of_nat (List.length (trim line)))
                    (split_on newline_char (trim (list_ascii_of_string csvText)))))
    by (apply filter_In; auto).
  rewrite Hnil in Hf. destruct Hf.
Qed.

(** The three ways [parseCsv] can end. *)
Lemma parseCsv_cases : forall (csvText : string) (requiredColumns : list string),
  (isBlank csvText = true /\
   parseCsv csvText requiredColumns = CsvError "Empty CSV file")
  \/ (isBlank csvText = false /\
      missingColumns csvText requiredColumns <> [] /\
      parseCsv csvText requiredColumns
      = CsvError ("Missing required columns: "
                  ++ JsArray.join ", " (missingColumns csvText requiredColumns))%string)
  \/ (isBlank csvText = false /\
      missingColumns csvText requiredColumns = [] /\
      parseCsv csvText requiredColumns
      = Parsed (fold_left (addCsvRow (csvHeaders csvText))
                          (tl (csvLines csvText)) [])).
Proof.
  intros csvText requiredColumns. unfold parseCsv.
  rewrite parseCsv_guard. destruct (isBlank csvText) eqn:Hblank; [now left|].
  right. pose proof (csvLines_nonempty csvText Hblank) as Hlines.
  unfold missingColumns, csvHeaders.
  destruct (csvLines csvText) as [|headerLine dataLines]; [contradiction|].
  cbn [hd tl].
  pose proof (parseCSVChars_nonempty headerLine) as Hfields.
  destruct (parseCSVChars headerLine) as [|field fields] eqn:Hparse;
    [contradiction|].
  cbn [map List.length]. rewrite Nat2Z.inj_succ.
  destruct (Z.eqb_spec (Z.succ (Z.of_nat (List.length (map trimString fields)))) 0);
    [lia|].
  destruct (filter _ requiredColumns) as [|col missing] eqn:Hmissing.
  - right. now repeat split.
  - left. rewrite nonempty_cons. now repeat split.
Qed.

(** A text of no-break spaces is blank. *)
Example parseCsv_no_break_space :
  let blank := String (ascii_of_nat 160) (String (ascii_of_nat 160) EmptyString) in
  isBlank blank = true
  /\ parseCsv blank ["climber_id"] = CsvError "Empty CSV file".
Proof. split; vm_compute; reflexivity. Qed.

(** X3. The errors of [parseCsv]. It raises "Empty CSV file" exactly on the
    texts that are empty or all white space, which is what [trim] strips:
    tab, line feed, vertical tab, form feed, carriage return, space and the
    no-break space. Any other error is "Missing
    required columns: " followed by the required columns the header row
    lacks, in the order they were required and separated by ", "; in
    particular "CSV file has no columns" is never raised, since
    [parseCSVLine] returns at least one field. A text that is not blank and
    whose header row has every required column is parsed. *)
Theorem parseCsv_errors : forall (csvText : string) (requiredColumns : list string),
  (isBlank csvText = true
   <-> parseCsv csvText requiredColumns = CsvError "Empty CSV file")
  /\ (forall message,
        parseCsv csvText requiredColumns = CsvError message ->
        message <> "Empty CSV file"%string ->
        missingColumns csvText requiredColumns <> []
        /\ message
           = ("Missing required columns: "
              ++ JsArray.join ", " (missingColumns csvText requiredColumns))%string)
  /\ parseCsv csvText requiredColumns <> CsvError "CSV file has no columns"
  /\ (isBlank csvText = false ->
      missingColumns csvText requiredColumns = [] ->
      exists rows, parseCsv csvText requiredColumns = Parsed rows).
Proof.
  intros csvText requiredColumns.
  destruct (parseCsv_cases csvText requiredColumns)
    as [[Hblank Herr]|[(Hblank & Hmissing & Herr)|(Hblank & Hmissing & Hrows)]];
    rewrite ?Herr, ?Hrows, Hblank;
    (split; [split; congruence || discriminate|]);
    (split; [|split; [discriminate|]]).
  - intros message [= <-] Hne. now elim Hne.
  - discriminate.
  - intros message [= <-] _. now split.
  - congruence.
  - discriminate.
  - intros _ _. eexists. reflexivity.
Qed.

(** ** Rows of a CSV file *)

Lemma keys_set_In {V : Type} k (v : V) m k' :
  In k' (JsMap.keys (JsMap.set k v m)) <-> k' = k \/ In k' (JsMap.keys m).
Proof.
  rewrite <- !has_true. unfold JsMap.has.
  destruct (String.eqb_spec k k') as [->|Hne].
  - rewrite get_set_same. split; auto.
  - rewrite get_set_other by exact Hne.
    split; [now right | intros [Heq|H]; [congruence | exact H]].
Qed.

Lemma combine_fst {X Y : Type} (l : list X) : forall l' : list Y,
  List.length l = List.length l' -> map fst (combine l l') = l.
Proof.
  induction l as [|x l IH]; intros [|y l'] Hlen; simpl in *; try discriminate.
  - reflexivity.
  - f_equal. apply IH. lia.
Qed.

(** The row object has the headers as its keys, [__proto__] apart, and
    cells of the line as its values. *)
Lemma rowOf_spec headers values :
  List.length headers = List.length values ->
  NoDup (JsMap.keys (rowOf headers values))
  /\ (forall col, In col (JsMap.keys (rowOf headers values))
                  <-> In col headers /\ col <> "__proto__"%string)
  /\ (forall col cell, In (col, cell) (rowOf headers values) -> In cell values).
Proof.
  intros Hlen. unfold rowOf.
  assert (Hinv :
    NoDup (JsMap.keys (fold_left assignCell (combine headers values) []))
    /\ (forall col,
          In col (JsMap.keys (fold_left assignCell (combine headers values) []))
          <-> In col (map fst (combine headers values))
              /\ col <> "__proto__"%string)
    /\ (forall col cell,
          In (col, cell) (fold_left assignCell (combine headers values) [])
          -> In cell (map snd (combine headers values)))).
  { apply (fold_left_invariant assignCell
             (fun pre (m : JsMap.t string) =>
                NoDup (JsMap.keys m)
                /\ (forall col, In col (JsMap.keys m)
                                <-> In col (map fst pre)
                                    /\ col <> "__proto__"%string)
                /\ (forall col cell, In (col, cell) m -> In cell (map snd pre)))).
    - split; [constructor|]. split; [|intros ? ? []].
      intros col. split; [intros [] | intros [[] _]].
    - intros pre [h v] m (Hnd & Hkeys & Hvals). unfold assignCell. cbn [fst snd].
      destruct (String.eqb_spec h "__proto__") as [->|Hh].
      + split; [exact Hnd|]. split.
        * intros col. rewrite Hkeys, map_app, in_app_iff. simpl.
          split; [intros [H1 H2]; auto|].
          intros [[H1|[H1|[]]] H2]; [auto | congruence].
        * intros col cell Hin. rewrite map_app, in_app_iff. left.
          eapply Hvals, Hin.
      + split; [now apply set_NoDup|]. split.
        * intros col. rewrite keys_set_In, map_app, in_app_iff, Hkeys. simpl.
          split.
          -- intros [->|[H1 H2]]; auto.
          -- intros [[H1|[H1|[]]] H2]; auto.
        * intros col cell Hin. rewrite map_app, in_app_iff.
          apply In_set in Hin as [[= _ ->]|Hin]; [right; now left|].
          left. eapply Hvals, Hin. }
  destruct Hinv as (Hnd & Hkeys & Hvals).
  rewrite (combine_fst _ _ Hlen) in Hkeys.
  split; [exact Hnd|]. split; [exact Hkeys|].
  intros col cell Hin. apply Hvals in Hin.
  apply in_map_iff in Hin as ([h v] & <- & Hin).
  now apply in_combine_r in Hin.
Qed.

Lemma trimString_fixed s :
  trimString (list_ascii_of_string (trimString s)) = trimString s.
Proof.
  unfold trimString.
  now rewrite list_ascii_of_string_of_list_ascii, trim_trim.
Qed.

(** A header cell [__proto__] gives the row no key. *)
Example rowOf_proto :
  rowOf ["__proto__"; "climber_id"] ["x"; "C1"] = [("climber_id", "C1")].
Proof. reflexivity. Qed.

(** X4. The rows [parseCsv] returns. When [parseCsv] returns, the header
    row has every required column; there is at most one row per line after
    the header; every row has exactly the header cells other than
    [__proto__] as its keys (an assignment to that name adds no property),
    so a required column other than [__proto__] is never missing from a
    row; and every cell is trimmed: it has no white space, the no-break
    space included, at either end. *)
Theorem parseCsv_rows (csvText : string) (requiredColumns : list string)
    (rows : list (JsMap.t string)) :
  parseCsv csvText requiredColumns = Parsed rows ->
  (forall col, In col requiredColumns -> In col (csvHeaders csvText))
  /\ (List.length rows < List.length (csvLines csvText))%nat
  /\ forall row, In row rows ->
       NoDup (JsMap.keys row)
       /\ (forall col, In col (JsMap.keys row)
                       <-> In col (csvHeaders csvText)
                           /\ col <> "__proto__"%string)
       /\ (forall col, In col requiredColumns -> col <> "__proto__"%string ->
                       JsMap.has col row = true)
       /\ (forall col cell, JsMap.get col row = Some cell ->
             trimString (list_ascii_of_string cell) = cell).
Proof.
  intros Hparsed.
  destruct (parseCsv_cases csvText requiredColumns)
    as [[_ Herr]|[(_ & _ & Herr)|(Hblank & Hmissing & Hrows)]];
    try congruence.
  rewrite Hrows in Hparsed. injection Hparsed as <-.
  assert (Hreq : forall col, In col requiredColumns -> In col (csvHeaders csvText)).
  { intros col Hcol. unfold missingColumns in Hmissing.
    destruct (existsb (String.eqb col) (csvHeaders csvText)) eqn:Hex.
    - apply existsb_exists in Hex as (h & Hh & Heq).
      apply String.eqb_eq in Heq. now subst h.
    - assert (Hin : In col (filter (fun col => negb (existsb (String.eqb col)
                                   (csvHeaders csvText))) requiredColumns)).
      { apply filter_In. split; [exact Hcol | now rewrite Hex]. }
      rewrite Hmissing in Hin. destruct Hin. }
  split; [exact Hreq|].
  pose proof (csvLines_nonempty csvText Hblank) as Hlines.
  set (headers := csvHeaders csvText) in *.
  assert (Hinv : (List.length (fold_left (addCsvRow headers)
                                 (tl (csvLines csvText)) [])
                  <= List.length (tl (csvLines csvText)))%nat
           /\ forall row,
                In row (fold_left (addCsvRow headers) (tl (csvLines csvText)) []) ->
                exists values,
                  row = rowOf headers (map trimString values)
                  /\ List.length headers = List.length (map trimString values)).
  { apply (fold_left_invariant (addCsvRow headers)
             (fun pre rows =>
                (List.length rows <= List.length pre)%nat
                /\ forall row, In row rows ->
                     exists values,
                       row = rowOf headers (map trimString values)
                       /\ List.length headers
                          = List.length (map trimString values))).
    - split; [simpl; lia | intros ? []].
    - intros pre line rows0 [Hlen Hall]. unfold addCsvRow.
      rewrite length_app. cbn [List.length].
      destruct (Z.of_nat (List.length (trim line)) =? 0);
        [split; [lia | exact Hall]|].
      destruct (Z.eqb_spec
                  (Z.of_nat (List.length (map trimString (parseCSVChars (trim line)))))
                  (Z.of_nat (List.length headers))) as [Heq|Hne]; cbn [negb].
      + split; [rewrite length_app; simpl; lia|].
        intros row Hin. apply in_app_or in Hin as [Hin|[<-|[]]]; [now apply Hall|].
        exists (parseCSVChars (trim line)). split; [reflexivity | lia].
      + split; [lia | exact Hall]. }
  destruct Hinv as [Hlen Hall]. split.
  - destruct (csvLines csvText); [contradiction|]. simpl in *. lia.
  - intros row Hin. destruct (Hall row Hin) as (values & -> & Hvalues).
    destruct (rowOf_spec headers (map trimString values) Hvalues)
      as (Hnd & Hkeys & Hcells).
    split; [exact Hnd|]. split; [exact Hkeys|]. split.
    + intros col Hcol Hproto. apply has_true, Hkeys. split; [|exact Hproto].
      now apply Hreq.
    + intros col cell Hget. apply get_In, Hcells in Hget.
      apply in_map_iff in Hget as (x & <- & _). apply trimString_fixed.
Qed.

Lemma parseCsv_rows_witness :
  let rows := [[("team_id", "T1"); ("team_name", "Alpha"); ("climber_id", "C1");
                ("climber_name", "Ann"); ("division", "Beginner")]]%string in
  parseCsv csvSampleText teamsRequiredColumns = Parsed rows
  /\ (forall col, In col teamsRequiredColumns -> In col (csvHeaders csvSampleText))
  /\ (List.length rows < List.length (csvLines csvSampleText))%nat
  /\ forall row, In row rows ->
       NoDup (JsMap.keys row)
       /\ (forall col, In col (JsMap.keys row)
                       <-> In col (csvHeaders csvSampleText)
                           /\ col <> "__proto__"%string)
       /\ (forall col, In col teamsRequiredColumns -> col <> "__proto__"%string ->
                       JsMap.has col row = true)
       /\ (forall col cell, JsMap.get col row = Some cell ->
             trimString (list_ascii_of_string cell) = cell).
Proof.
  split; [vm_compute; reflexivity|].
  apply (parseCsv_rows csvSampleText teamsRequiredColumns). vm_compute. reflexivity.
Defined.

(** ** Division buckets *)

(** The buckets, division by division. *)
Lemma aggregateDivisionStats_get climberStats teams :
  JsMap.keys (aggregateDivisionStats climberStats teams) = divisions
  /\ forall division,
       In division divisions ->
       JsMap.get division (aggregateDivisionStats climberStats teams)
       = Some (filter (fun stats => (cs_division stats =? division)%string)
                      (JsMap.values climberStats)).
Proof.
  unfold aggregateDivisionStats.
  apply (fold_left_invariant addToDivision
           (fun pre (m : JsMap.t (list ClimberStats)) =>
              JsMap.keys m = divisions
              /\ forall division,
                   In division divisions ->
                   JsMap.get division m
                   = Some (filter (fun stats =>
                                     (cs_division stats =? division)%string)
                                  (JsMap.values pre)))).
  - split; [reflexivity|].
    intros division [<-|[<-|[<-|[]]]]; reflexivity.
  - intros pre [id stats] m [Hkeys Hget]. unfold addToDivision. cbn [snd].
    unfold JsMap.values in *. rewrite map_app. cbn [map snd].
    destruct (JsMap.has (cs_division stats) m) eqn:Hhas.
    + assert (Hin : In (cs_division stats) divisions)
        by (rewrite <- Hkeys; now apply has_true).
      rewrite (Hget _ Hin). split.
      * rewrite keys_set_present; [exact Hkeys|]. now rewrite Hkeys.
      * intros division Hd. rewrite filter_app. cbn [filter].
        destruct (String.eqb_spec (cs_division stats) division) as [<-|Hne].
        -- apply get_set_same.
        -- rewrite get_set_other by exact Hne. rewrite app_nil_r. now apply Hget.
    + split; [exact Hkeys|]. intros division Hd.
      rewrite filter_app. cbn [filter].
      destruct (String.eqb_spec (cs_division stats) division) as [Heq|Hne].
      * exfalso. apply has_false, get_None in Hhas. apply Hhas.
        rewrite Hkeys, Heq. exact Hd.
      * rewrite app_nil_r. now apply Hget.
Qed.

(** X5. [aggregateDivisionStats] returns the three divisions, in the order
    Beginner, Intermediate, Advanced, whatever the climbers are; the bucket
    of a division holds exactly the climbers of that division, in the order
    of the climber map; a climber of any other division is in no bucket. *)
Theorem aggregateDivisionStats_buckets :
  forall (climberStats : JsMap.t ClimberStats) (teams : list RosterEntry),
  let divisionStats := aggregateDivisionStats climberStats teams in
  JsMap.keys divisionStats = divisions
  /\ (forall division,
        In division divisions ->
        JsMap.get division divisionStats
        = Some (filter (fun stats => (cs_division stats =? division)%string)
                       (JsMap.values climberStats)))
  /\ (forall division, ~ In division divisions ->
                       JsMap.get division divisionStats = None).
Proof.
  intros climberStats teams divisionStats. subst divisionStats.
  destruct (aggregateDivisionStats_get climberStats teams) as [Hkeys Hget].
  split; [exact Hkeys|]. split; [exact Hget|].
  intros division Hd. apply get_None. now rewrite Hkeys.
Qed.

(** ** Totals of a climber *)

Lemma sumZ_app l l' : sumZ (l ++ l') = sumZ l + sumZ l'.
Proof. induction l as [|x l IH]; simpl; lia. Qed.

Lemma sumNum_snoc l x : sumNum (l ++ [x]) = add (sumNum l) x.
Proof. unfold sumNum. now rewrite fold_left_app. Qed.

Lemma fold_addToStats_attempts rows stats :
  cs_total_attempts (fold_left addToStats rows stats)
  = fold_left add (map rowAttempts rows) (cs_total_attempts stats).
Proof.
  revert stats. induction rows as [|r rows IH]; intros stats; simpl;
    [reflexivity|]. now rewrite IH.
Qed.

(** X6. The totals of a climber. For every entry of the map returned by
    [aggregateClimberStats], total_points is the sum of [computePoints] over
    the result rows of that climber that pass the competition filter, and
    total_attempts is the sum of their attempts (NaN as soon as one of them
    is NaN). *)
Theorem aggregateClimberStats_totals
    (teams : list RosterEntry) (results : list ResultEntry)
    (filterCompId : option string) (climberId : string) (stats : ClimberStats) :
  JsMap.get climberId (aggregateClimberStats teams results filterCompId)
  = Some stats ->
  let rows := rowsOf climberId (filteredResultsOf results filterCompId) in
  cs_total_points stats = sumZ (map computePoints rows)
  /\ cs_total_attempts stats = sumNum (map rowAttempts rows).
Proof.
  intros Hget rows. rewrite aggregateClimberStats_get in Hget.
  destruct (firstRow teams climberId) as [teamRow|]; [|discriminate].
  injection Hget as <-. fold rows.
  rewrite fold_addToStats_points, fold_addToStats_attempts. split; reflexivity.
Qed.

Lemma aggregateClimberStats_totals_witness :
  let stats :=
    mkClimberStats "C2" "B" "T1" "Alpha" "Beginner" 50 (Num 10)
                   [("comp1", mkCompStats 50 (Num 10))] in
  JsMap.get "C2" (aggregateClimberStats sampleRoster pipelineSample None)
  = Some stats
  /\ cs_total_points stats
     = sumZ (map computePoints (rowsOf "C2" pipelineSample))
  /\ cs_total_attempts stats
     = sumNum (map rowAttempts (rowsOf "C2" pipelineSample)).
Proof.
  split; [reflexivity|].
  exact (aggregateClimberStats_totals sampleRoster pipelineSample None "C2" _
           eq_refl).
Defined.

(** ** The breakdown by competition *)

Lemma sumZ_values_set {V : Type} (g : V -> Z) k v (m : JsMap.t V) :
  sumZ (map g (JsMap.values (JsMap.set k v m)))
  = sumZ (map g (JsMap.values m)) + g v
    - match JsMap.get k m with Some v0 => g v0 | None => 0 end.
Proof.
  unfold JsMap.values. induction m as [|[k' v'] m IH]; simpl.
  - lia.
  - destruct (k =? k')%string; simpl; lia.
Qed.

Lemma existsb_false_filter {X : Type} (p : X -> bool) (l : list X) :
  existsb p l = false -> filter p l = [].
Proof.
  induction l as [|x l IH]; simpl; [reflexivity|].
  destruct (p x); simpl; [discriminate | exact IH].
Qed.

(** What a row does to the buckets of its climber. *)
Lemma addToStats_breakdown stats result c :
  JsMap.get c (cs_comp_breakdown (addToStats stats result))
  = if (comp_id result =? c)%string then
      let bucket :=
        match JsMap.get c (cs_comp_breakdown stats) with
        | Some bucket => bucket
        | None => mkCompStats 0 (Num 0)
        end in
      Some (mkCompStats (points bucket + computePoints result)
                        (add (attempts bucket) (rowAttempts result)))
    else JsMap.get c (cs_comp_breakdown stats).
Proof.
  unfold addToStats. cbn [cs_comp_breakdown]. unfold JsMap.has.
  destruct (String.eqb_spec (comp_id result) c) as [<-|Hne].
  - destruct (JsMap.get (comp_id result) (cs_comp_breakdown stats)) eqn:Hg.
    + rewrite Hg. apply get_set_same.
    + rewrite get_set_same. cbn zeta. rewrite set_set. apply get_set_same.
  - destruct (JsMap.get (comp_id result) (cs_comp_breakdown stats)) eqn:Hg.
    + rewrite Hg. now apply get_set_other.
    + rewrite get_set_same. rewrite !get_set_other by exact Hne. reflexivity.
Qed.

Lemma addToStats_NoDup stats result :
  NoDup (JsMap.keys (cs_comp_breakdown stats)) ->
  NoDup (JsMap.keys (cs_comp_breakdown (addToStats stats result))).
Proof.
  intros Hnd. unfold addToStats. cbn [cs_comp_breakdown].
  set (breakdown := if JsMap.has _ _ then _ else _).
  assert (Hnd1 : NoDup (JsMap.keys breakdown)).
  { subst breakdown. destruct (JsMap.has _ _); [exact Hnd | now apply set_NoDup]. }
  destruct (JsMap.get (comp_id result) breakdown); [now apply set_NoDup | exact Hnd1].
Qed.

Lemma addToStats_bucket_sum stats result :
  cs_total_points stats
  = sumZ (map points (JsMap.values (cs_comp_breakdown stats))) ->
  cs_total_points (addToStats stats result)
  = sumZ (map points (JsMap.values (cs_comp_breakdown (addToStats stats result)))).
Proof.
  intros Hsum. unfold addToStats.
  cbn [cs_total_points cs_comp_breakdown]. unfold JsMap.has.
  destruct (JsMap.get (comp_id result) (cs_comp_breakdown stats)) eqn:Hg.
  - rewrite Hg, sumZ_values_set, Hg. cbn [points]. lia.
  - rewrite get_set_same, set_set, sumZ_values_set, Hg. cbn [points]. lia.
Qed.

(** The bucket of a competition after a run of rows. *)
Lemma fold_addToStats_breakdown rows stats0 c :
  cs_comp_breakdown stats0 = [] ->
  JsMap.get c (cs_comp_breakdown (fold_left addToStats rows stats0))
  = if existsb (fun r => (comp_id r =? c)%string) rows
    then Some (mkCompStats
                 (sumZ (map computePoints (rowsOfComp c rows)))
                 (sumNum (map rowAttempts (rowsOfComp c rows))))
    else None.
Proof.
  intros H0.
  apply (fold_left_invariant addToStats
           (fun pre stats =>
              JsMap.get c (cs_comp_breakdown stats)
              = if existsb (fun r => (comp_id r =? c)%string) pre
                then Some (mkCompStats
                             (sumZ (map computePoints (rowsOfComp c pre)))
                             (sumNum (map rowAttempts (rowsOfComp c pre))))
                else None)).
  - now rewrite H0.
  - intros pre y stats IH. rewrite addToStats_breakdown, IH.
    unfold rowsOfComp. rewrite existsb_app, filter_app. cbn [existsb filter].
    destruct (comp_id y =? c)%string.
    + rewrite orb_true_r, !map_app, sumZ_app. cbn [map]. rewrite sumNum_snoc.
      destruct (existsb _ pre) eqn:Hex; cbn [points attempts].
      * f_equal. f_equal. simpl. lia.
      * rewrite (existsb_false_filter _ _ Hex). f_equal. f_equal. simpl. lia.
    + rewrite orb_false_r, app_nil_r. reflexivity.
Qed.

(** X7. The breakdown by competition. For every entry of the map returned
    by [aggregateClimberStats], comp_breakdown has one bucket per competition
    in which the climber has a (filtered) result row and no other; the
    bucket holds the points and the attempts of the climber's rows of that
    competition; and total_points is the sum of the points of the buckets. *)
Theorem aggregateClimberStats_breakdown
    (teams : list RosterEntry) (results : list ResultEntry)
    (filterCompId : option string) (climberId : string) (stats : ClimberStats) :
  JsMap.get climberId (aggregateClimberStats teams results filterCompId)
  = Some stats ->
  let rows := rowsOf climberId (filteredResultsOf results filterCompId) in
  let breakdown := cs_comp_breakdown stats in
  NoDup (JsMap.keys breakdown)
  /\ (forall compId, In compId (JsMap.keys breakdown)
                     <-> In compId (map comp_id rows))
  /\ (forall compId bucket,
        JsMap.get compId breakdown = Some bucket ->
        points bucket = sumZ (map computePoints (rowsOfComp compId rows))
        /\ attempts bucket = sumNum (map rowAttempts (rowsOfComp compId rows)))
  /\ cs_total_points stats = sumZ (map points (JsMap.values breakdown)).
Proof.
  intros Hget rows breakdown. rewrite aggregateClimberStats_get in Hget.
  destruct (firstRow teams climberId) as [teamRow|]; [|discriminate].
  injection Hget as Hstats. fold rows in Hstats.
  assert (Hbucket := fun c =>
            fold_addToStats_breakdown rows (zeroStats (infoOfRow teamRow)) c
              eq_refl).
  rewrite Hstats in Hbucket. fold breakdown in Hbucket.
  split; [|split; [|split]].
  - subst breakdown. rewrite <- Hstats.
    apply (fold_left_invariant addToStats
             (fun _ stats => NoDup (JsMap.keys (cs_comp_breakdown stats)))).
    + constructor.
    + intros _ y x. apply addToStats_NoDup.
  - intros compId. rewrite <- has_true. unfold JsMap.has. rewrite Hbucket.
    destruct (existsb _ rows) eqn:Hex.
    + apply existsb_exists in Hex as (r & Hr & Heq). apply String.eqb_eq in Heq.
      split; [intros _ | reflexivity]. subst compId. now apply in_map.
    + split; [discriminate|]. intros Hin.
      apply in_map_iff in Hin as (r & <- & Hr).
      assert (Htrue : existsb (fun r0 => (comp_id r0 =? comp_id r)%string) rows
                      = true).
      { apply existsb_exists. exists r. split; [exact Hr | apply String.eqb_refl]. }
      congruence.
  - intros compId bucket Hb. rewrite Hbucket in Hb.
    destruct (existsb _ rows); [|discriminate]. injection Hb as <-. now split.
  - subst breakdown. rewrite <- Hstats.
    apply (fold_left_invariant addToStats
             (fun _ stats =>
                cs_total_points stats
                = sumZ (map points (JsMap.values (cs_comp_breakdown stats))))).
    + reflexivity.
    + intros _ y x. apply addToStats_bucket_sum.
Qed.

Lemma aggregateClimberStats_breakdown_witness :
  let stats :=
    mkClimberStats "C1" "A" "T1" "Alpha" "Beginner" 100 (Num 5)
                   [("comp1", mkCompStats 100 (Num 5))] in
  let rows := rowsOf "C1" pipelineSample in
  let breakdown := cs_comp_breakdown stats in
  JsMap.get "C1" (aggregateClimberStats sampleRoster pipelineSample None)
  = Some stats
  /\ NoDup (JsMap.keys breakdown)
  /\ (forall compId, In compId (JsMap.keys breakdown)
                     <-> In compId (map comp_id rows))
  /\ (forall compId bucket,
        JsMap.get compId breakdown = Some bucket ->
        points bucket = sumZ (map computePoints (rowsOfComp compId rows))
        /\ attempts bucket = sumNum (map rowAttempts (rowsOfComp compId rows)))
  /\ cs_total_points stats = sumZ (map points (JsMap.values breakdown)).
Proof.
  split; [reflexivity|].
  exact (aggregateClimberStats_breakdown sampleRoster pipelineSample None "C1" _
           eq_refl).
Defined.

(** ** Points are conserved *)

Lemma existsb_find {X : Type} (p : X -> bool) (l : list X) :
  existsb p l = match find p l with Some _ => true | None => false end.
Proof.
  induction l as [|x l IH]; simpl; [reflexivity|]. now destruct (p x).
Qed.

Lemma addResult_has id m result :
  JsMap.has id (addResult m result) = JsMap.has id m.
Proof.
  unfold JsMap.has. rewrite addResult_get.
  destruct (climber_id result =? id)%string; [|reflexivity].
  now destruct (JsMap.get id m).
Qed.

Lemma addResult_sum m result :
  sumZ (map cs_total_points (JsMap.values (addResult m result)))
  = sumZ (map cs_total_points (JsMap.values m))
    + if JsMap.has (climber_id result) m then computePoints result else 0.
Proof.
  unfold addResult, JsMap.has.
  destruct (JsMap.get (climber_id result) m) eqn:Hg; [|lia].
  rewrite sumZ_values_set, Hg. cbn [addToStats cs_total_points]. lia.
Qed.

Lemma fold_addResult_sum rows : forall m,
  sumZ (map cs_total_points (JsMap.values (fold_left addResult rows m)))
  = sumZ (map cs_total_points (JsMap.values m))
    + sumZ (map computePoints
                (filter (fun r => JsMap.has (climber_id r) m) rows)).
Proof.
  induction rows as [|r rows IH]; intros m; cbn [fold_left filter].
  - simpl. lia.
  - rewrite IH, addResult_sum.
    rewrite (filter_ext _ (fun r0 => JsMap.has (climber_id r0) m))
      by (intros; apply addResult_has).
    destruct (JsMap.has (climber_id r) m); simpl; lia.
Qed.

Lemma addClimber_sum m (entry : string * ClimberStats) :
  sumZ (map ts_total_points (JsMap.values (addClimber m entry)))
  = sumZ (map ts_total_points (JsMap.values m))
    + if JsMap.has (cs_team_id (snd entry)) m
      then cs_total_points (snd entry) else 0.
Proof.
  unfold addClimber, JsMap.has.
  destruct (JsMap.get (cs_team_id (snd entry)) m) eqn:Hg; [|lia].
  rewrite sumZ_values_set, Hg. cbn [ts_total_points]. lia.
Qed.

Lemma addClimber_has tid m entry :
  JsMap.has tid (addClimber m entry) = JsMap.has tid m.
Proof.
  unfold JsMap.has. rewrite addClimber_get.
  destruct (cs_team_id (snd entry) =? tid)%string; [|reflexivity].
  now destruct (JsMap.get tid m).
Qed.

Lemma fold_addClimber_sum (l : JsMap.t ClimberStats) : forall m,
  (forall entry, In entry l -> JsMap.has (cs_team_id (snd entry)) m = true) ->
  sumZ (map ts_total_points (JsMap.values (fold_left addClimber l m)))
  = sumZ (map ts_total_points (JsMap.values m))
    + sumZ (map cs_total_points (JsMap.values l)).
Proof.
  induction l as [|e l IH]; intros m Hall; cbn [fold_left].
  - simpl. lia.
  - rewrite IH, addClimber_sum, (Hall e (or_introl eq_refl)).
    + simpl. lia.
    + intros entry Hin. rewrite addClimber_has. apply Hall. now right.
Qed.

(** X8. Points are conserved from the rows to the teams. Over the whole
    league, the total_points of the teams add up to the total_points of the
    climbers, and these add up to the points of the (filtered) result rows
    whose climber is on the roster: no such row is lost or counted twice,
    and a row of an unknown climber counts for nothing. *)
Theorem league_points_conserved :
  forall (teams : list RosterEntry) (results : list ResultEntry)
         (filterCompId : option string),
  let climberStats := aggregateClimberStats teams results filterCompId in
  let teamStats := aggregateTeamStats climberStats teams in
  sumZ (map ts_total_points (JsMap.values teamStats))
  = sumZ (map cs_total_points (JsMap.values climberStats))
  /\ sumZ (map cs_total_points (JsMap.values climberStats))
     = sumZ (map computePoints
                 (filter (registered teams)
                         (filteredResultsOf results filterCompId))).
Proof.
  intros teams results filterCompId climberStats teamStats.
  destruct (climberInfoOf_spec teams) as [Hnd Hinfo].
  destruct (initTeams_spec teams) as (HndT & Hzero & Hpresent).
  split.
  - subst teamStats. unfold aggregateTeamStats.
    rewrite fold_addClimber_sum.
    + assert (Hinit : forall m : JsMap.t TeamStats,
                (forall e, In e m -> ts_total_points (snd e) = 0) ->
                sumZ (map ts_total_points (JsMap.values m)) = 0).
      { unfold JsMap.values.
        induction m as [|e m IH]; intros Hall; simpl; [reflexivity|].
        rewrite (Hall e (or_introl eq_refl)).
        rewrite IH; [reflexivity|].
        intros e' He'. apply Hall. now right. }
      rewrite Hinit; [lia|].
      intros [tid team] Hin. apply (Hzero tid). now apply In_get.
    + intros [id stats] Hin. cbn [snd].
      assert (Hget : JsMap.get id climberStats = Some stats).
      { apply In_get; [|exact Hin]. subst climberStats.
        rewrite aggregateClimberStats_keys. exact Hnd. }
      subst climberStats. rewrite aggregateClimberStats_get in Hget.
      destruct (firstRow teams id) as [teamRow|] eqn:Hfirst; [|discriminate].
      injection Hget as <-.
      destruct (fold_addToStats_identity
                  (rowsOf id (filteredResultsOf results filterCompId))
                  (zeroStats (infoOfRow teamRow))) as (_ & _ & Hteam & _).
      rewrite Hteam. cbn [zeroStats infoOfRow cs_team_id ci_team_id].
      apply has_true, Hpresent. unfold firstRow in Hfirst.
      now apply find_some in Hfirst.
  - subst climberStats. unfold aggregateClimberStats.
    rewrite fold_addResult_sum, (seedClimberStats_spec _ Hnd).
    assert (Hseed : forall info : JsMap.t ClimberInfo,
              sumZ (map cs_total_points
                      (JsMap.values
                         (map (fun e => (fst e, zeroStats (snd e))) info))) = 0).
    { induction info as [|e info IH]; simpl; [reflexivity | exact IH]. }
    rewrite Hseed. cbn [Z.add]. f_equal. f_equal.
    apply filter_ext. intros r. unfold JsMap.has, registered.
    rewrite get_map, Hinfo, existsb_find. unfold firstRow.
    now destruct (find _ teams).
Qed.

(** ** Team entries *)

Lemma initTeam_get tid m x :
  JsMap.get tid (initTeam m x)
  = if (tr_team_id x =? tid)%string then
      let team :=
        match JsMap.get tid m with
        | Some team => team
        | None => mkTeamStats (tr_team_id x) (tr_team_name x) 0 (Num 0) []
        end in
      Some (if existsb (String.eqb (tr_climber_id x)) (ts_climbers team)
            then team
            else mkTeamStats (ts_team_id team) (ts_team_name team)
                   (ts_total_points team) (ts_total_attempts team)
                   (ts_climbers team ++ [tr_climber_id x]))
    else JsMap.get tid m.
Proof.
  unfold initTeam, JsMap.has.
  destruct (String.eqb_spec (tr_team_id x) tid) as [<-|Hne]; cbv zeta.
  - destruct (JsMap.get (tr_team_id x) m) as [team|] eqn:Hg.
    + rewrite Hg. destruct (existsb _ (ts_climbers team)); [exact Hg|].
      apply get_set_same.
    + rewrite get_set_same. cbn [ts_climbers existsb]. apply get_set_same.
  - destruct (JsMap.get (tr_team_id x) m) as [team|] eqn:Hg.
    + rewrite Hg. destruct (existsb _ (ts_climbers team)); [reflexivity|].
      now apply get_set_other.
    + rewrite get_set_same. cbn [ts_climbers existsb].
      now rewrite !get_set_other by exact Hne.
Qed.

Lemma initTeam_NoDup m x :
  NoDup (JsMap.keys m) -> NoDup (JsMap.keys (initTeam m x)).
Proof.
  intros Hnd. unfold initTeam.
  set (m1 := if JsMap.has _ _ then _ else _).
  assert (Hnd1 : NoDup (JsMap.keys m1)).
  { subst m1. destruct (JsMap.has _ _); [exact Hnd | now apply set_NoDup]. }
  destruct (JsMap.get (tr_team_id x) m1) as [team|]; [|exact Hnd1].
  destruct (existsb _ _); [exact Hnd1 | now apply set_NoDup].
Qed.

Lemma find_none_iff {X : Type} (p : X -> bool) (l : list X) :
  find p l = None <-> forall x, In x l -> p x = false.
Proof.
  split; [apply find_none|].
  induction l as [|x l IH]; simpl; intros Hall; [reflexivity|].
  rewrite (Hall x (or_introl eq_refl)). apply IH. intros y Hy. apply Hall. now right.
Qed.

(** One more roster row. *)
Lemma teamAfter_step pre x tid entry :
  teamAfter pre tid entry ->
  teamAfter (pre ++ [x]) tid
    (if (tr_team_id x =? tid)%string then
       let team :=
         match entry with
         | Some team => team
         | None => mkTeamStats (tr_team_id x) (tr_team_name x) 0 (Num 0) []
         end in
       Some (if existsb (String.eqb (tr_climber_id x)) (ts_climbers team)
             then team
             else mkTeamStats (ts_team_id team) (ts_team_name team)
                    (ts_total_points team) (ts_total_attempts team)
                    (ts_climbers team ++ [tr_climber_id x]))
     else entry).
Proof.
  intros Hentry. unfold teamAfter in *. unfold firstTeamRow in *.
  destruct (String.eqb_spec (tr_team_id x) tid) as [Heq|Hne].
  - cbv zeta. destruct entry as [team|].
    + destruct Hentry as (Hid & Hpts & Hatt & Hnd & Hmem & Hname).
      assert (Hname' : option_map tr_team_name
                         (find (fun teamRow => (tr_team_id teamRow =? tid)%string)
                               (pre ++ [x]))
                       = Some (ts_team_name team)).
      { rewrite find_app. revert Hname.
        destruct (find _ pre); intros Hname; [exact Hname | discriminate Hname]. }
      destruct (existsb _ (ts_climbers team)) eqn:Hex.
      * repeat split; try assumption.
        -- intros Hin. apply Hmem in Hin as (row & Hrow & H1 & H2).
           exists row. split; [apply in_or_app; now left | now split].
        -- intros (row & Hrow & H1 & H2).
           apply in_app_or in Hrow as [Hrow|[<-|[]]].
           ++ apply Hmem. now exists row.
           ++ apply existsb_exists in Hex as (c & Hc & Hceq).
              apply String.eqb_eq in Hceq. now subst.
      * cbn [ts_team_id ts_total_points ts_total_attempts ts_climbers ts_team_name].
        repeat split; try assumption.
        -- apply NoDup_app; [exact Hnd | repeat constructor; simpl; tauto |].
           intros c Hc [<-|[]].
           assert (Htrue : existsb (String.eqb (tr_climber_id x)) (ts_climbers team)
                           = true).
           { apply existsb_exists. exists (tr_climber_id x).
             split; [exact Hc | apply String.eqb_refl]. }
           congruence.
        -- intros Hin. apply in_app_or in Hin as [Hin|[<-|[]]].
           ++ apply Hmem in Hin as (row & Hrow & H1 & H2).
              exists row. split; [apply in_or_app; now left | now split].
           ++ exists x. split; [apply in_or_app; right; now left | now split].
        -- intros (row & Hrow & H1 & H2). apply in_or_app.
           apply in_app_or in Hrow as [Hrow|[<-|[]]].
           ++ left. apply Hmem. now exists row.
           ++ right. now left.
    + cbn [ts_climbers existsb ts_team_id ts_total_points ts_total_attempts
           ts_team_name app].
      assert (Hnone : find (fun teamRow => (tr_team_id teamRow =? tid)%string) pre
                      = None).
      { apply find_none_iff. intros row Hrow. apply String.eqb_neq.
        now apply Hentry. }
      repeat split; try assumption.
      * repeat constructor. simpl. tauto.
      * intros [<-|[]]. exists x. split; [apply in_or_app; right; now left|].
        now split.
      * intros (row & Hrow & H1 & H2).
        apply in_app_or in Hrow as [Hrow|[<-|[]]]; [|now left].
        exfalso. now apply (Hentry row).
      * rewrite find_app, Hnone. cbn [find].
        destruct (String.eqb_spec (tr_team_id x) tid); [reflexivity | contradiction].
  - assert (Hfind : find (fun teamRow => (tr_team_id teamRow =? tid)%string)
                         (pre ++ [x])
                    = find (fun teamRow => (tr_team_id teamRow =? tid)%string) pre).
    { rewrite find_app. destruct (find _ pre); [reflexivity|]. cbn [find].
      destruct (String.eqb_spec (tr_team_id x) tid); [contradiction | reflexivity]. }
    destruct entry as [team|].
    + destruct Hentry as (Hid & Hpts & Hatt & Hnd & Hmem & Hname).
      rewrite Hfind. repeat split; try assumption.
      * intros Hin. apply Hmem in Hin as (row & Hrow & H1 & H2).
        exists row. split; [apply in_or_app; now left | now split].
      * intros (row & Hrow & H1 & H2).
        apply in_app_or in Hrow as [Hrow|[<-|[]]]; [|contradiction].
        apply Hmem. now exists row.
    + intros row Hrow. apply in_app_or in Hrow as [Hrow|[<-|[]]];
        [now apply Hentry | exact Hne].
Qed.

Lemma initTeams_entries teams :
  NoDup (JsMap.keys (fold_left initTeam teams []))
  /\ forall tid, teamAfter teams tid (JsMap.get tid (fold_left initTeam teams [])).
Proof.
  apply (fold_left_invariant initTeam
           (fun pre m => NoDup (JsMap.keys m)
                         /\ forall tid, teamAfter pre tid (JsMap.get tid m))).
  - split; [constructor|]. intros tid. simpl. intros ? [].
  - intros pre x m [Hnd Hall]. split; [now apply initTeam_NoDup|].
    intros tid. rewrite initTeam_get. apply teamAfter_step, Hall.
Qed.

Lemma fold_addToTeam_fields l : forall team,
  ts_team_id (fold_left addToTeam l team) = ts_team_id team
  /\ ts_team_name (fold_left addToTeam l team) = ts_team_name team
  /\ ts_climbers (fold_left addToTeam l team) = ts_climbers team
  /\ ts_total_attempts (fold_left addToTeam l team)
     = fold_left add (map cs_total_attempts l) (ts_total_attempts team).
Proof.
  induction l as [|stats l IH]; intros team; cbn [fold_left map].
  - repeat split.
  - destruct (IH (addToTeam team stats)) as (H1 & H2 & H3 & H4).
    rewrite H1, H2, H3, H4. repeat split.
Qed.

(** X9. The entries of [aggregateTeamStats], for any climber map. There is
    one team per distinct team_id of the roster. A team bears that id and
    the team_name of the first roster row of the team; its climbers list
    holds the climber_ids of the roster rows of the team, each once; and
    its total_attempts is the sum of the total_attempts of the climbers
    whose team_id is the team's (NaN as soon as one of them is NaN). *)
Theorem aggregateTeamStats_entries :
  forall (climberStats : JsMap.t ClimberStats) (teams : list RosterEntry),
  let teamStats := aggregateTeamStats climberStats teams in
  NoDup (JsMap.keys teamStats)
  /\ (forall teamId, In teamId (JsMap.keys teamStats)
                     <-> In teamId (map tr_team_id teams))
  /\ (forall teamId team,
        JsMap.get teamId teamStats = Some team ->
        ts_team_id team = teamId
        /\ option_map tr_team_name (firstTeamRow teams teamId)
           = Some (ts_team_name team)
        /\ NoDup (ts_climbers team)
        /\ (forall climberId,
              In climberId (ts_climbers team)
              <-> exists teamRow, In teamRow teams
                                  /\ tr_team_id teamRow = teamId
                                  /\ tr_climber_id teamRow = climberId)
        /\ ts_total_attempts team
           = sumNum (map cs_total_attempts (climbersOfTeam teamId climberStats))).
Proof.
  intros climberStats teams teamStats. subst teamStats.
  unfold aggregateTeamStats.
  destruct (initTeams_entries teams) as [Hnd Hall].
  split; [now rewrite fold_addClimber_keys|]. split.
  - intros teamId. rewrite fold_addClimber_keys, <- has_true. unfold JsMap.has.
    specialize (Hall teamId).
    destruct (JsMap.get teamId (fold_left initTeam teams [])) as [team|].
    + split; [intros _ | reflexivity].
      destruct Hall as (_ & _ & _ & _ & _ & Hname). unfold firstTeamRow in Hname.
      destruct (find _ teams) as [row|] eqn:Hfind; [|discriminate Hname].
      apply find_some in Hfind as [Hrow Heq]. apply String.eqb_eq in Heq.
      subst teamId. now apply in_map.
    + split; [discriminate|]. intros Hin.
      apply in_map_iff in Hin as (row & Heq & Hrow).
      now elim (Hall row Hrow).
  - intros teamId team. rewrite fold_addClimber_get. specialize (Hall teamId).
    destruct (JsMap.get teamId (fold_left initTeam teams [])) as [team0|];
      [|discriminate].
    cbn [option_map]. intros [= <-].
    destruct Hall as (Hid & _ & Hatt & HndC & Hmem & Hname).
    destruct (fold_addToTeam_fields (climbersOfTeam teamId climberStats) team0)
      as (H1 & H2 & H3 & H4).
    rewrite H1, H2, H3, H4, Hatt. repeat split; try assumption; apply Hmem.
Qed.

(** A climber_id listed under two teams is in the climbers list of both,
    but its points go to the team of its first roster row only. *)
Example aggregateTeamStats_shared_climber :
  let climberStats := aggregateClimberStats sharedClimberRoster pipelineSample None in
  let teamStats := aggregateTeamStats climberStats sharedClimberRoster in
  option_map (fun t => (ts_climbers t, ts_total_points t)) (JsMap.get "T1" teamStats)
  = Some (["C1"], 100)
  /\ option_map (fun t => (ts_climbers t, ts_total_points t))
                (JsMap.get "T2" teamStats)
     = Some (["C1"], 0).
Proof. split; reflexivity. Qed.

(** ** The competition filter *)

(** X10. Filtering before aggregating is aggregating with a filter: for a
    current filter other than the empty string, the climber map
    [computeAllStats] stores ([filterByComp], then [aggregateClimberStats]
    with two arguments) is the map [aggregateClimberStats] returns when the
    filter is passed as its third argument, null standing for "all"; and the
    rows handed to [computeFunStats] are those rows. *)
Theorem computeAllStats_filter
    (rawTeams : list RosterEntry) (rawResults : list ResultEntry)
    (currentFilter : string) :
  currentFilter <> EmptyString ->
  let filterCompId :=
    if (currentFilter =? "all")%string then None else Some currentFilter in
  filterByComp rawResults currentFilter = filteredResultsOf rawResults filterCompId
  /\ st_climberStats (computeAllStats rawTeams rawResults currentFilter)
     = aggregateClimberStats rawTeams rawResults filterCompId
  /\ st_funStats (computeAllStats rawTeams rawResults currentFilter)
     = computeFunStats (filteredResultsOf rawResults filterCompId)
         (aggregateClimberStats rawTeams rawResults filterCompId)
         (aggregateTeamStats
            (aggregateClimberStats rawTeams rawResults filterCompId) rawTeams)
         currentFilter.
Proof.
  intros Hne filterCompId.
  assert (Hrows : filterByComp rawResults currentFilter
                  = filteredResultsOf rawResults filterCompId).
  { subst filterCompId. unfold filterByComp, filteredResultsOf.
    destruct (currentFilter =? "all")%string; [reflexivity|].
    destruct (String.eqb_spec currentFilter EmptyString); [contradiction|].
    reflexivity. }
  assert (Hstats : aggregateClimberStats rawTeams
                     (filterByComp rawResults currentFilter) None
                   = aggregateClimberStats rawTeams rawResults filterCompId).
  { unfold aggregateClimberStats. now rewrite <- Hrows. }
  unfold computeAllStats. cbn [st_climberStats st_funStats].
  rewrite Hstats, Hrows. repeat split.
Qed.

Lemma computeAllStats_filter_witness :
  filterByComp pipelineSample "comp1"
  = filteredResultsOf pipelineSample (Some "comp1")
  /\ st_climberStats (computeAllStats sampleRoster pipelineSample "comp1")
     = aggregateClimberStats sampleRoster pipelineSample (Some "comp1")
  /\ st_funStats (computeAllStats sampleRoster pipelineSample "comp1")
     = computeFunStats (filteredResultsOf pipelineSample (Some "comp1"))
         (aggregateClimberStats sampleRoster pipelineSample (Some "comp1"))
         (aggregateTeamStats
            (aggregateClimberStats sampleRoster pipelineSample (Some "comp1"))
            sampleRoster)
         "comp1".
Proof.
  exact (computeAllStats_filter sampleRoster pipelineSample "comp1"
           ltac:(discriminate)).
Defined.

(** With the empty string as filter the two differ: [filterByComp] keeps the
    rows whose comp_id is empty, [aggregateClimberStats] keeps every row. *)
Example computeAllStats_empty_filter :
  option_map cs_total_points
    (JsMap.get "C1"
       (st_climberStats (computeAllStats sampleRoster pipelineSample EmptyString)))
  = Some 0
  /\ option_map cs_total_points
       (JsMap.get "C1"
          (aggregateClimberStats sampleRoster pipelineSample (Some EmptyString)))
     = Some 100.
Proof. split; reflexivity. Qed.

(** ** Most and least attempts *)

Lemma gt_irrefl a : gt a a = false.
Proof. destruct a; simpl; [reflexivity | apply Z.ltb_irrefl]. Qed.

Lemma gt_trans a b c : gt a b = true -> gt b c = true -> gt a c = true.
Proof.
  destruct a, b, c; simpl; try discriminate.
  rewrite !Z.ltb_lt. lia.
Qed.

(** An item that does not exceed the old maximum is below the new one. *)
Lemma gt_below_new x m y :
  gt x m = false -> gt y m = true ->
  gt x y = false /\ strict_eq x y = false.
Proof.
  destruct x, m, y; simpl; try discriminate; try (now split).
  rewrite Z.ltb_ge, Z.ltb_lt. intros H1 H2.
  split; [apply Z.ltb_ge | apply Z.eqb_neq]; lia.
Qed.

Lemma lt_above_new x m y :
  lt x m = false -> lt y m = true ->
  lt x y = false /\ strict_eq x y = false.
Proof.
  unfold lt. destruct x, m, y; simpl; try discriminate; try (now split).
  rewrite Z.ltb_ge, Z.ltb_lt. intros H1 H2.
  split; [apply Z.ltb_ge | apply Z.eqb_neq]; lia.
Qed.

Section RunningExtremes.
Context {X : Type}.
Variable att : X -> number.

(** The loop that keeps the greatest. *)
Lemma running_max_spec (floor : number) (l : list (string * X)) :
  firstGreatest att floor (JsMap.values l)
    (snd (fold_left
            (fun (st : number * option X) (entry : string * X) =>
               let '(best, winner) := st in
               let item := snd entry in
               if gt (att item) best then (att item, Some item)
               else (best, winner))
            l (floor, None))).
Proof.
  set (step := fun (st : number * option X) (entry : string * X) =>
                 let '(best, winner) := st in
                 let item := snd entry in
                 if gt (att item) best then (att item, Some item)
                 else (best, winner)).
  assert (Hinv :
    let st := fold_left step l (floor, None) in
    (forall x, In x (JsMap.values l) -> gt (att x) (fst st) = false)
    /\ match snd st with
       | None => fst st = floor
       | Some w =>
           fst st = att w /\ gt (att w) floor = true
           /\ exists earlier later,
                JsMap.values l = earlier ++ w :: later
                /\ forall x, In x earlier -> strict_eq (att x) (att w) = false
       end).
  { apply (fold_left_invariant step
             (fun pre st =>
                (forall x, In x (JsMap.values pre) -> gt (att x) (fst st) = false)
                /\ match snd st with
                   | None => fst st = floor
                   | Some w =>
                       fst st = att w /\ gt (att w) floor = true
                       /\ exists earlier later,
                            JsMap.values pre = earlier ++ w :: later
                            /\ forall x, In x earlier ->
                                         strict_eq (att x) (att w) = false
                   end)).
    - split; [intros ? [] | reflexivity].
    - intros pre [k y] [best winner] [Hall Hw]. cbn [fst snd] in *.
      unfold step, JsMap.values in *. cbn [snd]. rewrite map_app. cbn [map snd].
      destruct (gt (att y) best) eqn:Hgt; cbn [fst snd].
      + split.
        * intros x Hx. apply in_app_or in Hx as [Hx|[<-|[]]];
            [|apply gt_irrefl].
          exact (proj1 (gt_below_new _ _ _ (Hall x Hx) Hgt)).
        * split; [reflexivity|]. split.
          -- destruct winner as [w|]; [|now subst best].
             destruct Hw as (-> & Hw & _). now apply (gt_trans _ (att w)).
          -- exists (map snd pre), []. split; [reflexivity|].
             intros x Hx. exact (proj2 (gt_below_new _ _ _ (Hall x Hx) Hgt)).
      + split.
        * intros x Hx. apply in_app_or in Hx as [Hx|[<-|[]]]; auto.
        * destruct winner as [w|]; [|exact Hw].
          destruct Hw as (Hbest & Hw & earlier & later & Hsplit & Hearlier).
          split; [exact Hbest|]. split; [exact Hw|].
          exists earlier, (later ++ [y]). split; [|exact Hearlier].
          rewrite Hsplit, <- app_assoc. reflexivity. }
  cbv zeta in Hinv. destruct Hinv as [Hall Hw]. unfold firstGreatest.
  fold step. destruct (fold_left step l (floor, None)) as [best [w|]];
    cbn [fst snd] in *.
  - destruct Hw as (-> & Hw & earlier & later & Hsplit & Hearlier).
    split; [exact Hw|]. exists earlier, later. split; [exact Hsplit|].
    split; intros x Hx.
    + split; [|now apply Hearlier].
      apply Hall. rewrite Hsplit. apply in_or_app. now left.
    + apply Hall. rewrite Hsplit. apply in_or_app. right. now right.
  - subst best. exact Hall.
Qed.

(** The loop that keeps the least among the positive. *)
Lemma running_min_spec (l : list (string * X)) :
  firstLeastPositive att (JsMap.values l)
    (snd (fold_left
            (fun (st : option number * option X) (entry : string * X) =>
               let '(best, winner) := st in
               let item := snd entry in
               if gt (att item) (Num 0) && below (att item) best
               then (Some (att item), Some item)
               else (best, winner))
            l (None, None))).
Proof.
  set (step := fun (st : option number * option X) (entry : string * X) =>
                 let '(best, winner) := st in
                 let item := snd entry in
                 if gt (att item) (Num 0) && below (att item) best
                 then (Some (att item), Some item)
                 else (best, winner)).
  assert (Hinv :
    let st := fold_left step l (None, None) in
    match snd st with
    | None =>
        fst st = None
        /\ forall x, In x (JsMap.values l) -> gt (att x) (Num 0) = false
    | Some w =>
        fst st = Some (att w) /\ gt (att w) (Num 0) = true
        /\ (forall x, In x (JsMap.values l) ->
              gt (att x) (Num 0) = true -> lt (att x) (att w) = false)
        /\ exists earlier later,
             JsMap.values l = earlier ++ w :: later
             /\ forall x, In x earlier -> gt (att x) (Num 0) = true ->
                          strict_eq (att x) (att w) = false
    end).
  { apply (fold_left_invariant step
             (fun pre st =>
                match snd st with
                | None =>
                    fst st = None
                    /\ forall x, In x (JsMap.values pre) ->
                                 gt (att x) (Num 0) = false
                | Some w =>
                    fst st = Some (att w) /\ gt (att w) (Num 0) = true
                    /\ (forall x, In x (JsMap.values pre) ->
                          gt (att x) (Num 0) = true -> lt (att x) (att w) = false)
                    /\ exists earlier later,
                         JsMap.values pre = earlier ++ w :: later
                         /\ forall x, In x earlier -> gt (att x) (Num 0) = true ->
                                      strict_eq (att x) (att w) = false
                end)).
    - cbn. split; [reflexivity | intros ? []].
    - intros pre [k y] [best winner] Hw. cbn [fst snd] in *.
      unfold step, JsMap.values in *. cbn [snd]. rewrite map_app. cbn [map snd].
      destruct (gt (att y) (Num 0)) eqn:Hpos; cbn [andb].
      + destruct winner as [w|].
        * destruct Hw as (-> & Hw & Hall & earlier & later & Hsplit & Hearlier).
          cbn [below]. destruct (lt (att y) (att w)) eqn:Hlt; cbn [fst snd].
          -- split; [reflexivity|]. split; [exact Hpos|]. split.
             ++ intros x Hx Hx0. apply in_app_or in Hx as [Hx|[<-|[]]].
                ** exact (proj1 (lt_above_new _ _ _ (Hall x Hx Hx0) Hlt)).
                ** unfold lt. apply gt_irrefl.
             ++ exists (map snd pre), []. split; [reflexivity|].
                intros x Hx Hx0.
                exact (proj2 (lt_above_new _ _ _ (Hall x Hx Hx0) Hlt)).
          -- split; [reflexivity|]. split; [exact Hw|]. split.
             ++ intros x Hx Hx0. apply in_app_or in Hx as [Hx|[<-|[]]]; auto.
             ++ exists earlier, (later ++ [y]). split; [|exact Hearlier].
                rewrite Hsplit, <- app_assoc. reflexivity.
        * destruct Hw as [-> Hall]. cbn [below].
          destruct (att y) eqn:Hy; [discriminate Hpos|]. cbn [fst snd].
          split; [now rewrite Hy|]. rewrite Hy. split; [exact Hpos|]. split.
          -- intros x Hx Hx0. apply in_app_or in Hx as [Hx|[<-|[]]].
             ++ rewrite (Hall x Hx) in Hx0. discriminate.
             ++ rewrite Hy. unfold lt. apply gt_irrefl.
          -- exists (map snd pre), []. split; [reflexivity|].
             intros x Hx Hx0. rewrite (Hall x Hx) in Hx0. discriminate.
      + cbn [fst snd]. destruct winner as [w|].
        * destruct Hw as (Hbest & Hw & Hall & earlier & later & Hsplit & Hearlier).
          split; [exact Hbest|]. split; [exact Hw|]. split.
          -- intros x Hx Hx0. apply in_app_or in Hx as [Hx|[<-|[]]]; auto.
             congruence.
          -- exists earlier, (later ++ [y]). split; [|exact Hearlier].
             rewrite Hsplit, <- app_assoc. reflexivity.
        * destruct Hw as [Hbest Hall]. split; [exact Hbest|].
          intros x Hx. apply in_app_or in Hx as [Hx|[<-|[]]]; auto. }
  cbv zeta in Hinv. unfold firstLeastPositive. fold step.
  destruct (fold_left step l (None, None)) as [best [w|]]; cbn [fst snd] in *.
  - destruct Hinv as (_ & Hw & Hall & earlier & later & Hsplit & Hearlier).
    split; [exact Hw|]. exists earlier, later. split; [exact Hsplit|].
    split; intros x Hx Hx0.
    + split; [|now apply Hearlier].
      apply Hall; [|exact Hx0]. rewrite Hsplit. apply in_or_app. now left.
    + apply Hall; [|exact Hx0]. rewrite Hsplit. apply in_or_app. right. now right.
  - apply Hinv.
Qed.
End RunningExtremes.

(** X11. Most attempts by team. The award names the first team, in the
    order of the team map, whose total_attempts no other team exceeds, with
    that total; a team whose total is NaN is passed over; there is no award
    exactly when no team has a total above -1, in particular when there is
    no team. *)
Theorem mostAttemptsTeam_spec : forall teamStats : JsMap.t TeamStats,
  exists winner,
    firstGreatest ts_total_attempts (Num (-1)) (JsMap.values teamStats) winner
    /\ mostAttemptsTeam teamStats
       = option_map (fun team => mkTeamAward (ts_team_name team)
                                             (ts_total_attempts team))
                    winner.
Proof.
  intros teamStats. unfold mostAttemptsTeam.
  destruct teamStats as [|entry teamStats].
  - exists None. split; [intros ? [] | reflexivity].
  - rewrite nonempty_cons.
    match goal with
    | |- context [fold_left ?f ?l ?i] => exists (snd (fold_left f l i))
    end.
    split.
    + exact (running_max_spec ts_total_attempts (Num (-1)) (entry :: teamStats)).
    + destruct (fold_left _ (entry :: teamStats) (Num (-1), None))
        as [best [w|]]; reflexivity.
Qed.



(** A boulder nobody tried is not the least attempted one. *)
Example leastAttemptsBoulder_skips_zero :
  leastAttemptsBoulder
    [("1:b1", mkBoulder "1" "b1" (Num 0)); ("1:b2", mkBoulder "1" "b2" (Num 7));
     ("1:b3", mkBoulder "1" "b3" (Num 4)); ("1:b4", mkBoulder "1" "b4" (Num 4))]
  = Some (mkBoulder "1" "b3" (Num 4)).
Proof. reflexivity. Qed.

(** ** Attempts per boulder *)

(** The entry of a key after a run of rows: the comp_id and boulder_id of
    the first row with that key, the attempts of all of them. *)
Lemma boulderAttemptsOf_get results key :
  JsMap.get key (boulderAttemptsOf results)
  = match find (fun r => (colon_key (comp_id r) (boulder_id r) =? key)%string)
               results with
    | None => None
    | Some r0 =>
        Some (mkBoulder (comp_id r0) (boulder_id r0)
                (sumNum (map rowAttempts
                   (filter (fun r => (colon_key (comp_id r) (boulder_id r)
                                      =? key)%string) results))))
    end.
Proof.
  unfold boulderAttemptsOf.
  apply (fold_left_invariant _
           (fun pre (m : JsMap.t BoulderData) =>
              JsMap.get key m
              = match find (fun r => (colon_key (comp_id r) (boulder_id r)
                                      =? key)%string) pre with
                | None => None
                | Some r0 =>
                    Some (mkBoulder (comp_id r0) (boulder_id r0)
                            (sumNum (map rowAttempts
                               (filter (fun r =>
                                          (colon_key (comp_id r) (boulder_id r)
                                           =? key)%string) pre))))
                end)).
  - reflexivity.
  - intros pre y m IH. cbv zeta. unfold JsMap.has.
    rewrite find_app, filter_app, map_app. cbn [find filter].
    destruct (String.eqb_spec (colon_key (comp_id y) (boulder_id y)) key)
      as [Hkey|Hkey].
    + rewrite Hkey in *. rewrite IH.
      destruct (find _ pre) as [r0|] eqn:Hfind.
      * rewrite IH. rewrite get_set_same. cbn [bd_comp_id bd_boulder_id bd_attempts].
        cbn [map]. now rewrite sumNum_snoc.
      * rewrite get_set_same, set_set, get_set_same.
        cbn [bd_comp_id bd_boulder_id bd_attempts].
        assert (Hnone : filter (fun r => (colon_key (comp_id r) (boulder_id r)
                                          =? key)%string) pre = []).
        { apply filter_none. now apply find_none_iff. }
        rewrite Hnone. reflexivity.
    + rewrite app_nil_r.
      destruct (JsMap.get (colon_key (comp_id y) (boulder_id y)) m) eqn:Hg.
      * rewrite Hg, get_set_other by exact Hkey. rewrite IH.
        now destruct (find _ pre).
      * rewrite get_set_same, !get_set_other by exact Hkey. rewrite IH.
        now destruct (find _ pre).
Qed.

Lemma boulderAttemptsOf_NoDup results :
  NoDup (JsMap.keys (boulderAttemptsOf results)).
Proof.
  unfold boulderAttemptsOf.
  apply (fold_left_invariant _
           (fun _ (m : JsMap.t BoulderData) => NoDup (JsMap.keys m))).
  - constructor.
  - intros _ y m Hnd. cbv zeta.
    set (m1 := if JsMap.has _ _ then _ else _).
    assert (Hnd1 : NoDup (JsMap.keys m1)).
    { subst m1. destruct (JsMap.has _ _); [exact Hnd | now apply set_NoDup]. }
    destruct (JsMap.get _ m1); [now apply set_NoDup | exact Hnd1].
Qed.

(** X13. Attempts per boulder. When no comp_id holds a colon, the map of
    the boulder awards has one entry per (competition, boulder) pair that has
    a result row, under the key "comp:boulder"; the entry bears that
    comp_id and boulder_id, and its attempts are the sum of the attempts of
    all the rows of that boulder in that competition. *)
Theorem boulderAttemptsOf_spec (results : list ResultEntry) :
  Forall (fun r => no_colon (comp_id r) = true) results ->
  let boulderAttempts := boulderAttemptsOf results in
  NoDup (JsMap.keys boulderAttempts)
  /\ (forall r, In r results ->
        exists data,
          JsMap.get (colon_key (comp_id r) (boulder_id r)) boulderAttempts
          = Some data
          /\ bd_comp_id data = comp_id r /\ bd_boulder_id data = boulder_id r)
  /\ (forall key data,
        JsMap.get key boulderAttempts = Some data ->
        key = colon_key (bd_comp_id data) (bd_boulder_id data)
        /\ rowsOfBoulder (bd_comp_id data) (bd_boulder_id data) results <> []
        /\ bd_attempts data
           = sumNum (map rowAttempts
                       (rowsOfBoulder (bd_comp_id data) (bd_boulder_id data)
                                      results))).
Proof.
  intros Hcolon boulderAttempts. subst boulderAttempts.
  rewrite Forall_forall in Hcolon.
  assert (Hsame : forall r0, In r0 results ->
            filter (fun r => (colon_key (comp_id r) (boulder_id r)
                              =? colon_key (comp_id r0) (boulder_id r0))%string)
                   results
            = rowsOfBoulder (comp_id r0) (boulder_id r0) results).
  { intros r0 Hr0. unfold rowsOfBoulder. apply filter_ext_in. intros r Hr.
    destruct (String.eqb_spec (colon_key (comp_id r) (boulder_id r))
                              (colon_key (comp_id r0) (boulder_id r0)))
      as [Heq|Hne].
    - apply colon_key_inj in Heq as [-> ->]; auto.
      now rewrite !String.eqb_refl.
    - destruct (String.eqb_spec (comp_id r) (comp_id r0)) as [Hc|]; [|reflexivity].
      destruct (String.eqb_spec (boulder_id r) (boulder_id r0)) as [Hb|];
        [|reflexivity].
      exfalso. apply Hne. now rewrite Hc, Hb. }
  split; [apply boulderAttemptsOf_NoDup|]. split.
  - intros r Hr. rewrite boulderAttemptsOf_get.
    destruct (find _ results) as [r0|] eqn:Hfind.
    + apply find_some in Hfind as [Hr0 Heq]. apply String.eqb_eq in Heq.
      apply colon_key_inj in Heq as [Hc Hb]; auto.
      eexists. split; [reflexivity|]. now split.
    + exfalso. apply (find_none _ _ Hfind) in Hr.
      now rewrite String.eqb_refl in Hr.
  - intros key data. rewrite boulderAttemptsOf_get.
    destruct (find _ results) as [r0|] eqn:Hfind; [|discriminate].
    intros [= <-]. cbn [bd_comp_id bd_boulder_id bd_attempts].
    apply find_some in Hfind as [Hr0 Heq]. apply String.eqb_eq in Heq.
    subst key. rewrite (Hsame r0 Hr0). split; [reflexivity|]. split; [|reflexivity].
    intros Hnil.
    assert (Hin : In r0 (rowsOfBoulder (comp_id r0) (boulder_id r0) results)).
    { apply filter_In. split; [exact Hr0 | now rewrite !String.eqb_refl]. }
    rewrite Hnil in Hin. destruct Hin.
Qed.

Lemma boulderAttemptsOf_spec_witness :
  Forall (fun r => no_colon (comp_id r) = true) boulderSample
  /\ boulderAttemptsOf boulderSample
     = [("1:b1", mkBoulder "1" "b1" (Num 9)); ("1:b2", mkBoulder "1" "b2" (Num 2))]
  /\ (forall key data,
        JsMap.get key (boulderAttemptsOf boulderSample) = Some data ->
        key = colon_key (bd_comp_id data) (bd_boulder_id data)
        /\ rowsOfBoulder (bd_comp_id data) (bd_boulder_id data) boulderSample <> []
        /\ bd_attempts data
           = sumNum (map rowAttempts
                       (rowsOfBoulder (bd_comp_id data) (bd_boulder_id data)
                                      boulderSample))).
Proof.
  assert (Hcolon : Forall (fun r => no_colon (comp_id r) = true) boulderSample)
    by (repeat constructor).
  split; [exact Hcolon|]. split; [reflexivity|].
  apply (boulderAttemptsOf_spec boulderSample Hcolon).
Defined.

(** With a colon in a comp_id two boulders can share a key, and their
    attempts are then added under the name of the first. *)
Example boulderAttemptsOf_colon :
  boulderAttemptsOf
    [sampleRow "1:2" "3" "C1" (VString "1") (VString "1") (VString "1") (VString "1");
     sampleRow "1" "2:3" "C1" (VString "2") (VString "2") (VString "1") (VString "1")]
  = [("1:2:3", mkBoulder "1:2" "3" (Num 6))].
Proof. reflexivity. Qed.

(** ** Totals that are not numbers *)

Lemma fold_add_NaN l : fold_left add l NaN = NaN.
Proof. induction l as [|x l IH]; simpl; [reflexivity | exact IH]. Qed.

Lemma fold_add_Num l : forall z,
  (In NaN l -> fold_left add l (Num z) = NaN)
  /\ (~ In NaN l -> fold_left add l (Num z) = Num (z + sumZ (map numOr0 l))).
Proof.
  induction l as [|x l IH]; intros z; simpl.
  - split; [intros [] | intros _; f_equal; lia].
  - destruct x as [|y]; simpl.
    + split; [intros _; apply fold_add_NaN | intros Hn; elim Hn; now left].
    + destruct (IH (z + y)) as [IH1 IH2]. split.
      * intros [Hx|Hin]; [discriminate | now apply IH1].
      * intros Hn. rewrite IH2 by (intros Hin; apply Hn; now right).
        f_equal. lia.
Qed.

Lemma sumNum_spec l :
  (sumNum l = NaN <-> In NaN l)
  /\ (~ In NaN l -> sumNum l = Num (sumZ (map numOr0 l))).
Proof.
  unfold sumNum. destruct (fold_add_Num l 0) as [H1 H2]. split.
  - split; [|exact H1]. intros Hnan.
    destruct (in_dec (fun a b : number =>
                        ltac:(decide equality; apply Z.eq_dec)) NaN l)
      as [Hin|Hn]; [exact Hin|].
    rewrite (H2 Hn) in Hnan. discriminate.
  - intros Hn. now rewrite (H2 Hn).
Qed.

(** X14. Where NaN totals come from. When the attempts of the filtered
    rows stay within the integers a double holds exactly (their sizes add up
    to 2^53 at most), the total_attempts of a climber entry is NaN exactly
    when one of the climber's rows has attempts that are NaN, and otherwise
    it is the integer sum of the attempts of the rows, itself within that
    range; and the total_attempts of a team is NaN exactly when that of one
    of its climbers is. *)
Theorem total_attempts_nan
    (teams : list RosterEntry) (results : list ResultEntry)
    (filterCompId : option string) :
  withinSafeRange (filteredResultsOf results filterCompId) ->
  let climberStats := aggregateClimberStats teams results filterCompId in
  let teamStats := aggregateTeamStats climberStats teams in
  (forall climberId stats,
     JsMap.get climberId climberStats = Some stats ->
     let rows := rowsOf climberId (filteredResultsOf results filterCompId) in
     (cs_total_attempts stats = NaN
      <-> exists r, In r rows /\ rowAttempts r = NaN)
     /\ ((forall r, In r rows -> rowAttempts r <> NaN) ->
         cs_total_attempts stats = Num (sumZ (map attemptsAsSpecified rows))
         /\ Z.abs (sumZ (map attemptsAsSpecified rows)) <= maxSafe))
  /\ (forall teamId team,
        JsMap.get teamId teamStats = Some team ->
        (ts_total_attempts team = NaN
         <-> exists stats, In stats (climbersOfTeam teamId climberStats)
                           /\ cs_total_attempts stats = NaN)).
Proof.
  intros Hsafe climberStats teamStats. split.
  - intros climberId stats Hget rows. subst climberStats.
    rewrite aggregateClimberStats_get in Hget.
    destruct (firstRow teams climberId) as [teamRow|]; [|discriminate].
    injection Hget as <-. fold rows. rewrite fold_addToStats_attempts.
    change (fold_left add (map rowAttempts rows)
              (cs_total_attempts (zeroStats (infoOfRow teamRow))))
      with (sumNum (map rowAttempts rows)).
    destruct (sumNum_spec (map rowAttempts rows)) as [Hnan Hnum]. split.
    + rewrite Hnan, in_map_iff. split.
      * intros (r & Hr & Hin). now exists r.
      * intros (r & Hin & Hr). now exists r.
    + intros Hall.
      assert (Hsame : map numOr0 (map rowAttempts rows)
                      = map attemptsAsSpecified rows).
      { rewrite map_map. apply map_ext_in. intros r Hr.
        now apply rowAttempts_magnitude, Hall. }
      rewrite Hnum, Hsame.
      2:{ rewrite in_map_iff. intros (r & Hr & Hin). now apply (Hall r). }
      split; [reflexivity|].
      apply Z.le_trans with (sumZ (map rowMagnitude rows)).
      * apply sumZ_abs_le. intros r Hr.
        destruct (rowAttempts_magnitude r) as [Hle Heq].
        rewrite <- Heq by now apply Hall. exact Hle.
      * apply Z.le_trans
          with (sumZ (map rowMagnitude (filteredResultsOf results filterCompId)));
          [|exact Hsafe].
        apply sumZ_filter_le, rowMagnitude_nonneg.
  - intros teamId team Hget. subst teamStats. unfold aggregateTeamStats in Hget.
    rewrite fold_addClimber_get in Hget.
    destruct (initTeams_entries teams) as [_ Hinit]. specialize (Hinit teamId).
    destruct (JsMap.get teamId (fold_left initTeam teams [])) as [team0|];
      [|discriminate].
    injection Hget as <-. destruct Hinit as (_ & _ & Hzero & _).
    destruct (fold_addToTeam_fields (climbersOfTeam teamId climberStats) team0)
      as (_ & _ & _ & Hatt).
    rewrite Hatt, Hzero.
    change (fold_left add
              (map cs_total_attempts (climbersOfTeam teamId climberStats)) (Num 0))
      with (sumNum (map cs_total_attempts (climbersOfTeam teamId climberStats))).
    destruct (sumNum_spec
                (map cs_total_attempts (climbersOfTeam teamId climberStats)))
      as [Hnan _].
    rewrite Hnan, in_map_iff. split.
    + intros (s & Hs & Hin). now exists s.
    + intros (s & Hin & Hs). now exists s.
Qed.

Lemma total_attempts_nan_witness :
  let climberStats := aggregateClimberStats sampleRoster pipelineSample None in
  withinSafeRange pipelineSample
  /\ (forall climberId stats,
        JsMap.get climberId climberStats = Some stats ->
        let rows := rowsOf climberId pipelineSample in
        (cs_total_attempts stats = NaN
         <-> exists r, In r rows /\ rowAttempts r = NaN)
        /\ ((forall r, In r rows -> rowAttempts r <> NaN) ->
            cs_total_attempts stats = Num (sumZ (map attemptsAsSpecified rows))
            /\ Z.abs (sumZ (map attemptsAsSpecified rows)) <= maxSafe)).
Proof.
  intros climberStats.
  assert (Hsafe : withinSafeRange (filteredResultsOf pipelineSample None)).
  { unfold withinSafeRange. vm_compute. discriminate. }
  split; [exact Hsafe|].
  exact (proj1 (total_attempts_nan sampleRoster pipelineSample None Hsafe)).
Defined.

(** ** Try Hard *)

Lemma existsb_filter_length {X : Type} (p : X -> bool) (l : list X) :
  existsb p l = (0 <? Z.of_nat (List.length (filter p l))).
Proof.
  induction l as [|x l IH]; simpl; [reflexivity|].
  destruct (p x); simpl; [|exact IH].
  symmetry. apply Z.ltb_lt. lia.
Qed.

Lemma tryHardCandidates_spec results climberStats :
  tryHardCandidates results climberStats
  = map (tryHardOf results) (toppers results climberStats).
Proof.
  unfold tryHardCandidates, toppers, JsMap.values.
  enough (Hgen : forall l acc,
            fold_left
              (fun candidates (entry : string * ClimberStats) =>
                 let climber := snd entry in
                 let climberResults :=
                   filter (fun r => (climber_id r =? cs_climber_id climber)%string)
                          results in
                 let hasTops :=
                   existsb (fun r => loose_eq (top_completed r) 1) climberResults in
                 let topCount :=
                   Z.of_nat (List.length
                     (filter (fun r => loose_eq (top_completed r) 1)
                             climberResults)) in
                 if hasTops
                 then candidates ++
                      [mkTryHard (cs_climber_name climber)
                                 (cs_total_attempts climber) topCount false]
                 else candidates)
              l acc
            = acc ++ map (tryHardOf results)
                (filter (fun stats => 0 <? topsOf results stats) (map snd l))).
  { apply (Hgen climberStats []). }
  induction l as [|[id st] l IH]; intros acc; simpl.
  - now rewrite app_nil_r.
  - rewrite IH, existsb_filter_length. unfold topsOf at 2.
    destruct (0 <? _); [|reflexivity].
    simpl. now rewrite <- app_assoc.
Qed.

(** The candidate with most attempts, then most tops, comes first, and the
    sort keeps the candidates level with it in their order. *)
Lemma hardest_first (cands : list TryHard) :
  cands <> [] ->
  Forall (fun c => th_attempts c <> NaN) cands ->
  exists c0 rest,
    JsArray.sort (fun a b => gt (tryHardCompare a b) (Num 0)) cands = c0 :: rest
    /\ In c0 cands
    /\ (forall c, In c cands ->
          num_le (th_attempts c) (th_attempts c0)
          /\ (th_attempts c = th_attempts c0 -> th_tops c <= th_tops c0))
    /\ filter (fun c => strict_eq (th_attempts c) (th_attempts c0)
                        && (th_tops c =? th_tops c0))
              (JsArray.sort (fun a b => gt (tryHardCompare a b) (Num 0)) cands)
       = filter (fun c => strict_eq (th_attempts c) (th_attempts c0)
                          && (th_tops c =? th_tops c0)) cands.
Proof.
  intros Hne Hnum.
  set (after := fun a b => gt (tryHardCompare a b) (Num 0)).
  set (D := fun c => th_attempts c <> NaN).
  set (R := fun a b =>
              num_le (th_attempts b) (th_attempts a)
              /\ (th_attempts b = th_attempts a -> th_tops b <= th_tops a)).
  assert (Hsorted : StronglySorted R (JsArray.sort after cands)).
  { apply (JsArrayFacts.sort_sorted after D R); [| | |exact Hnum];
      unfold D, R, after, tryHardCompare, strict_ne, strict_eq, num_le, gt, sub.
    - intros x y Hx Hy. destruct (th_attempts x), (th_attempts y); try contradiction.
      destruct (Z.eqb_spec z z0); cbn [negb]; intros Hc; apply Z.ltb_ge in Hc.
      + split; [lia|]. intros _. lia.
      + split; [lia|]. intros [= Heq]. lia.
    - intros x y Hx Hy. destruct (th_attempts x), (th_attempts y); try contradiction.
      destruct (Z.eqb_spec z z0); cbn [negb]; intros Hc; apply Z.ltb_lt in Hc.
      + split; [lia|]. intros _. lia.
      + split; [lia|]. intros [= Heq]. lia.
    - intros x y z Hx Hy Hz.
      destruct (th_attempts x), (th_attempts y), (th_attempts z);
        try contradiction.
      intros [H1 H1'] [H2 H2']. split; [lia|].
      intros [= Heq]. assert (z1 = z0) by lia. assert (z2 = z1) by lia.
      subst. specialize (H1' eq_refl). specialize (H2' eq_refl). lia. }
  destruct (JsArray.sort after cands) as [|c0 rest] eqn:Hs.
  { exfalso. apply Hne. apply length_zero_iff_nil.
    rewrite <- (JsArrayFacts.sort_length after), Hs. reflexivity. }
  assert (Hc0 : In c0 cands).
  { apply (JsArrayFacts.sort_In after). rewrite Hs. now left. }
  assert (Hmax : forall c, In c cands -> R c0 c).
  { intros c Hc. apply (JsArrayFacts.sort_In after) in Hc. rewrite Hs in Hc.
    destruct Hc as [<-|Hc].
    - rewrite Forall_forall in Hnum. specialize (Hnum _ Hc0).
      unfold R, num_le. destruct (th_attempts c0); [contradiction|].
      split; [lia | intros _; lia].
    - inversion Hsorted as [|? ? _ Hall]; subst.
      rewrite Forall_forall in Hall. now apply Hall. }
  exists c0, rest. repeat split; auto; try (now apply Hmax).
  rewrite <- Hs.
  apply (JsArrayFacts.filter_sort after _ D); [|exact Hnum].
  intros x y Hx Hy Hpx Hpy.
  unfold after, D, tryHardCompare, strict_ne, strict_eq, gt, sub in *.
  apply andb_prop in Hpx as [Hax Htx]. apply andb_prop in Hpy as [Hay Hty].
  destruct (th_attempts x), (th_attempts y), (th_attempts c0); try discriminate.
  apply Z.eqb_eq in Hax, Hay, Htx, Hty. subst.
  rewrite Z.eqb_refl. cbn [negb]. apply Z.ltb_ge. lia.
Qed.

(** X15. Try Hard. When the total attempts of the climbers are numbers: if
    no climber has a top there is no award; otherwise the award goes to the
    climbers with a top who have the most total attempts and, among those,
    the most tops. It bears those attempts and tops; a single winner is
    named alone, several are named in map order joined by " & " with the tie
    flag set. The tops of a climber are counted from the result rows given
    to [computeFunStats]. *)
Theorem tryHardAward_spec
    (results : list ResultEntry) (climberStats : JsMap.t ClimberStats) :
  Forall (fun stats => cs_total_attempts stats <> NaN)
         (JsMap.values climberStats) ->
  (toppers results climberStats = []
   /\ tryHardAward results climberStats = Ok None)
  \/ (exists best,
        In best (toppers results climberStats)
        /\ (forall stats, In stats (toppers results climberStats) ->
              num_le (cs_total_attempts stats) (cs_total_attempts best)
              /\ (cs_total_attempts stats = cs_total_attempts best ->
                  topsOf results stats <= topsOf results best))
        /\ let winners :=
             filter (levelWith results best) (toppers results climberStats) in
           In best winners
           /\ tryHardAward results climberStats
              = Ok (Some
                  (if 1 <? Z.of_nat (List.length winners)
                   then mkTryHard
                          (JsArray.join " & " (map cs_climber_name winners))
                          (cs_total_attempts best) (topsOf results best) true
                   else tryHardOf results best))).
Proof.
  intros Hnum. unfold tryHardAward. rewrite tryHardCandidates_spec.
  assert (Hsub : forall stats, In stats (toppers results climberStats) ->
                               cs_total_attempts stats <> NaN).
  { intros stats Hin. unfold toppers in Hin. apply filter_In in Hin as [Hin _].
    rewrite Forall_forall in Hnum. now apply Hnum. }
  destruct (toppers results climberStats) as [|t0 ts] eqn:Htop.
  { left. split; [reflexivity|]. now destruct (nonempty climberStats). }
  right. rewrite <- Htop in *.
  assert (Hcs : nonempty climberStats = true).
  { destruct climberStats; [discriminate Htop | apply nonempty_cons]. }
  rewrite Hcs.
  assert (Hcands : nonempty (map (tryHardOf results) (toppers results climberStats))
                   = true).
  { rewrite Htop. apply nonempty_cons. }
  rewrite Hcands.
  destruct (hardest_first (map (tryHardOf results) (toppers results climberStats)))
    as (c0 & rest & Hsort & Hc0 & Hmax & Hstable).
  { rewrite Htop. discriminate. }
  { apply Forall_forall. intros c Hc.
    apply in_map_iff in Hc as (stats & <- & Hin). now apply Hsub. }
  apply in_map_iff in Hc0 as (best & Hbest & Hin).
  exists best. split; [exact Hin|]. split.
  { intros stats Hstats.
    destruct (Hmax (tryHardOf results stats)) as [H1 H2];
      [now apply in_map|].
    rewrite <- Hbest in H1, H2. cbn [tryHardOf th_attempts th_tops] in H1, H2.
    now split. }
  cbv zeta.
  assert (Hself : levelWith results best best = true).
  { unfold levelWith. rewrite Z.eqb_refl, andb_true_r.
    apply strict_eq_true. split; [reflexivity | now apply Hsub]. }
  split; [apply filter_In; now split|].
  rewrite Hsort. cbn [first hd_error]. rewrite <- Hsort, Hstable.
  rewrite filter_map_comm, <- Hbest. cbn [tryHardOf th_attempts th_tops].
  fold (tryHardOf results best).
  change (fun x : ClimberStats =>
            strict_eq (cs_total_attempts x) (cs_total_attempts best)
            && (topsOf results x =? topsOf results best))
    with (levelWith results best).
  assert (Hw : In best (filter (levelWith results best)
                               (toppers results climberStats)))
    by (apply filter_In; now split).
  destruct (filter (levelWith results best) (toppers results climberStats))
    as [|w1 [|w2 ws]] eqn:Hwinners.
  - destruct Hw.
  - destruct Hw as [<-|[]]. reflexivity.
  - assert (Hw1 : levelWith results best w1 = true).
    { assert (H1 : In w1 (filter (levelWith results best)
                                 (toppers results climberStats)))
        by (rewrite Hwinners; now left).
      now apply filter_In in H1. }
    unfold levelWith in Hw1. apply andb_prop in Hw1 as [Ha Ht].
    apply strict_eq_true in Ha as [Ha _]. apply Z.eqb_eq in Ht.
    cbn [map tryHardOf th_attempts th_tops th_climber_name List.length].
    rewrite Ha, Ht.
    replace (1 <? Z.of_nat (S (S (List.length ws)))) with true
      by (symmetry; apply Z.ltb_lt; lia).
    rewrite !map_map. reflexivity.
Qed.

Lemma tryHardAward_spec_witness :
  let results := tryHardSample in
  let climberStats := aggregateClimberStats sampleRoster tryHardSample None in
  Forall (fun stats => cs_total_attempts stats <> NaN)
         (JsMap.values climberStats)
  /\ map cs_climber_id (toppers results climberStats) = ["C1"; "C2"]
  /\ tryHardAward results climberStats
     = Ok (Some (mkTryHard "B" (Num 9) 1 false))
  /\ ((toppers results climberStats = []
       /\ tryHardAward results climberStats = Ok None)
      \/ (exists best,
            In best (toppers results climberStats)
            /\ (forall stats, In stats (toppers results climberStats) ->
                  num_le (cs_total_attempts stats) (cs_total_attempts best)
                  /\ (cs_total_attempts stats = cs_total_attempts best ->
                      topsOf results stats <= topsOf results best))
            /\ let winners :=
                 filter (levelWith results best) (toppers results climberStats) in
               In best winners
               /\ tryHardAward results climberStats
                  = Ok (Some
                      (if 1 <? Z.of_nat (List.length winners)
                       then mkTryHard
                              (JsArray.join " & " (map cs_climber_name winners))
                              (cs_total_attempts best) (topsOf results best) true
                       else tryHardOf results best)))).
Proof.
  intros results climberStats.
  assert (Hnum : Forall (fun stats => cs_total_attempts stats <> NaN)
                        (JsMap.values climberStats))
    by (repeat constructor; discriminate).
  split; [exact Hnum|]. split; [reflexivity|]. split; [reflexivity|].
  exact (tryHardAward_spec results climberStats Hnum).
Defined.

(** ** Flash Master *)

Lemma exists_max (f : string -> Z) (l : list string) :
  l <> [] -> exists x, In x l /\ forall y, In y l -> f y <= f x.
Proof.
  induction l as [|a l IH]; [congruence|]. intros _.
  destruct l as [|b l].
  - exists a. split; [now left|]. intros y [<-|[]]. lia.
  - destruct (IH ltac:(discriminate)) as (x & Hx & Hmax).
    destruct (Z_le_gt_dec (f a) (f x)) as [Hle|Hgt].
    + exists x. split; [now right|]. intros y [<-|Hy]; [exact Hle | now apply Hmax].
    + exists a. split; [now left|]. intros y [<-|Hy]; [lia|].
      specialize (Hmax y Hy). lia.
Qed.

Section CountTotal.
Variable counted : ResultEntry -> bool.

Lemma countFor_pos results id :
  0 < countFor counted results id ->
  exists r, In r results /\ counted r = true /\ climber_id r = id.
Proof.
  unfold countFor. intros Hpos.
  destruct (filter (fun r => counted r && (climber_id r =? id)%string) results)
    as [|r l] eqn:Hf; [simpl in Hpos; lia|].
  assert (Hin : In r (filter (fun r => counted r && (climber_id r =? id)%string)
                             results)) by (rewrite Hf; now left).
  apply filter_In in Hin as [Hin Hr]. apply andb_prop in Hr as [Hc Heq].
  exists r. repeat split; auto. now apply String.eqb_eq.
Qed.

Lemma countFor_counted results r :
  In r results -> counted r = true ->
  0 < countFor counted results (climber_id r).
Proof.
  intros Hin Hc. unfold countFor.
  assert (Hf : In r (filter (fun r0 => counted r0
                                       && (climber_id r0 =? climber_id r)%string)
                            results)).
  { apply filter_In. split; [exact Hin|]. now rewrite Hc, String.eqb_refl. }
  destruct (filter _ results); [destruct Hf | simpl; lia].
Qed.

(** A count award on rows whose climbers are registered and have numeric
    totals: none when no row counts, and otherwise the registered climbers
    with the highest count and, among them, the fewest attempts. *)
Lemma countAward_total results climberStats :
  (forall r, In r results -> counted r = true ->
             JsMap.has (climber_id r) climberStats = true) ->
  (forall id, JsMap.has id climberStats = true ->
              attemptsOf climberStats id <> NaN) ->
  ((forall r, In r results -> counted r = false)
   /\ countAward counted results climberStats = Ok None)
  \/ (exists award winners,
        countAward counted results climberStats = Ok (Some award)
        /\ winners <> [] /\ NoDup winners
        /\ 0 < ca_count award
        /\ (forall id, countFor counted results id <= ca_count award)
        /\ (forall id,
              In id winners <->
              countFor counted results id = ca_count award
              /\ forall id', countFor counted results id' = ca_count award ->
                             num_le (attemptsOf climberStats id)
                                    (attemptsOf climberStats id'))
        /\ (forall id, In id winners ->
                       ca_attempts award = attemptsOf climberStats id)
        /\ ca_climber_name award
           = JsArray.join " & " (map (nameOf climberStats) winners)
        /\ ca_is_tie award = (1 <? Z.of_nat (List.length winners))).
Proof.
  intros Hreg Hnum.
  destruct (filter counted results) as [|r1 l1] eqn:Hcounted.
  { left. assert (Hnone : forall r, In r results -> counted r = false).
    { intros r Hr. destruct (counted r) eqn:Hc; [|reflexivity].
      assert (Hin : In r (filter counted results)) by (apply filter_In; auto).
      rewrite Hcounted in Hin. destruct Hin. }
    split; [exact Hnone | now apply countAward_none]. }
  right.
  destruct (exists_max (countFor counted results)
                       (map climber_id (filter counted results)))
    as (id0 & Hid0 & Hmax); [rewrite Hcounted; discriminate|].
  set (M := countFor counted results id0).
  apply in_map_iff in Hid0 as (r0 & Hr0id & Hr0).
  apply filter_In in Hr0 as [Hr0 Hc0].
  assert (Hpos : 0 < M).
  { subst M. rewrite <- Hr0id. now apply countFor_counted. }
  assert (Hle : forall id, countFor counted results id <= M).
  { intros id. destruct (Z_le_gt_dec (countFor counted results id) 0) as [Hz|Hz];
      [lia|].
    destruct (countFor_pos results id ltac:(lia)) as (r & Hr & Hc & Hid).
    apply Hmax. apply in_map_iff. exists r. split; [exact Hid|].
    apply filter_In. now split. }
  assert (Hhas : forall id, countFor counted results id = M ->
                            JsMap.has id climberStats = true).
  { intros id Hid. destruct (countFor_pos results id ltac:(lia))
      as (r & Hr & Hc & <-). now apply Hreg. }
  destruct (countAward_spec counted results climberStats M Hpos Hle)
    as (award & winners & Hrun & Hne & Hnd & Hwin & Hcount & Hatt & Hname & Htie).
  { exists id0. split; [reflexivity | now apply Hhas]. }
  { intros id _ Hh. now apply Hnum. }
  exists award, winners. rewrite Hcount.
  repeat split; auto.
  - now apply Hwin.
  - intros id' Hid'. apply Hwin; auto.
  - intros [Hid Hmin]. apply Hwin. repeat split; auto.
Qed.
End CountTotal.

(** X16. Flash Master. A row is a flash when top_completed and
    attempts_to_top are both loosely equal to 1. When the climbers of the
    flash rows are registered and registered climbers have numeric total
    attempts, there is no award exactly when no row is a flash; otherwise
    the award bears the highest number of flashes of a climber and goes to
    the climbers with that many flashes and, among them, the fewest total
    attempts, named together with the tie flag set when they are several. *)
Theorem flashMaster_spec
    (results : list ResultEntry) (climberStats : JsMap.t ClimberStats) :
  (forall r, In r results -> isFlash r = true ->
             JsMap.has (climber_id r) climberStats = true) ->
  (forall id, JsMap.has id climberStats = true ->
              attemptsOf climberStats id <> NaN) ->
  (forall r, isFlash r
             = loose_eq (top_completed r) 1 && loose_eq (attempts_to_top r) 1)
  /\ (((forall r, In r results -> isFlash r = false)
       /\ flashMaster results climberStats = Ok None)
      \/ (exists award winners,
            flashMaster results climberStats = Ok (Some award)
            /\ winners <> [] /\ NoDup winners
            /\ 0 < ca_count award
            /\ (forall id, countFor isFlash results id <= ca_count award)
            /\ (forall id,
                  In id winners <->
                  countFor isFlash results id = ca_count award
                  /\ forall id', countFor isFlash results id' = ca_count award ->
                                 num_le (attemptsOf climberStats id)
                                        (attemptsOf climberStats id'))
            /\ (forall id, In id winners ->
                           ca_attempts award = attemptsOf climberStats id)
            /\ ca_climber_name award
               = JsArray.join " & " (map (nameOf climberStats) winners)
            /\ ca_is_tie award = (1 <? Z.of_nat (List.length winners)))).
Proof.
  intros Hreg Hnum. split; [reflexivity|].
  exact (countAward_total isFlash results climberStats Hreg Hnum).
Qed.

Lemma flashMaster_spec_witness :
  let climberStats := aggregateClimberStats sampleRoster flashSample None in
  flashMaster flashSample climberStats
  = Ok (Some (mkCountAward "A" 2 (Num 4) false))
  /\ exists award winners,
       flashMaster flashSample climberStats = Ok (Some award)
       /\ winners <> [] /\ NoDup winners
       /\ 0 < ca_count award
       /\ (forall id, countFor isFlash flashSample id <= ca_count award)
       /\ (forall id,
             In id winners <->
             countFor isFlash flashSample id = ca_count award
             /\ forall id', countFor isFlash flashSample id' = ca_count award ->
                            num_le (attemptsOf climberStats id)
                                   (attemptsOf climberStats id'))
       /\ (forall id, In id winners ->
                      ca_attempts award = attemptsOf climberStats id)
       /\ ca_climber_name award
          = JsArray.join " & " (map (nameOf climberStats) winners)
       /\ ca_is_tie award = (1 <? Z.of_nat (List.length winners)).
Proof.
  intros climberStats. split; [reflexivity|].
  assert (Hreg : forall r, In r flashSample -> isFlash r = true ->
                           JsMap.has (climber_id r) climberStats = true).
  { intros r [<-|[<-|[<-|[<-|[]]]]] _; reflexivity. }
  assert (Hnum : forall id, JsMap.has id climberStats = true ->
                            attemptsOf climberStats id <> NaN).
  { intros id. unfold JsMap.has, attemptsOf.
    change climberStats with
      [("C1", mkClimberStats "C1" "A" "T1" "Alpha" "Beginner" 200 (Num 4)
                [("1", mkCompStats 200 (Num 4))]);
       ("C2", mkClimberStats "C2" "B" "T1" "Alpha" "Beginner" 200 (Num 6)
                [("1", mkCompStats 200 (Num 6))])].
    simpl. destruct (id =? "C1")%string; [discriminate|].
    destruct (id =? "C2")%string; discriminate. }
  destruct (flashMaster_spec flashSample climberStats Hreg Hnum)
    as [_ [[Hnone _]|Haward]]; [|exact Haward].
  specialize (Hnone _ (or_introl eq_refl)). discriminate Hnone.
Defined.

(** ** When the awards are computed without an exception *)

Lemma aggregateClimberStats_has teams results filterCompId id :
  JsMap.has id (aggregateClimberStats teams results filterCompId)
  = existsb (fun teamRow => (tr_climber_id teamRow =? id)%string) teams.
Proof.
  unfold JsMap.has. rewrite aggregateClimberStats_get, existsb_find.
  unfold firstRow. now destruct (find _ teams).
Qed.

Lemma filteredResultsOf_In results filterCompId r :
  In r (filteredResultsOf results filterCompId) -> In r results.
Proof.
  unfold filteredResultsOf. destruct filterCompId as [c|]; [|trivial].
  destruct (c =? EmptyString)%string; [trivial|].
  intros Hin. now apply filter_In in Hin.
Qed.

Lemma aggregateClimberStats_numeric teams results filterCompId :
  (forall r, In r results -> rowAttempts r <> NaN) ->
  forall id stats,
    JsMap.get id (aggregateClimberStats teams results filterCompId) = Some stats ->
    cs_total_attempts stats <> NaN.
Proof.
  intros Hnum id stats Hget. rewrite aggregateClimberStats_get in Hget.
  destruct (firstRow teams id) as [teamRow|]; [|discriminate].
  injection Hget as <-. rewrite fold_addToStats_attempts.
  change (fold_left add
            (map rowAttempts (rowsOf id (filteredResultsOf results filterCompId)))
            (cs_total_attempts (zeroStats (infoOfRow teamRow))))
    with (sumNum (map rowAttempts
                    (rowsOf id (filteredResultsOf results filterCompId)))).
  intros Hnan. apply sumNum_spec in Hnan.
  apply in_map_iff in Hnan as (r & Hr & Hin).
  apply filter_In in Hin as [Hin _]. apply filteredResultsOf_In in Hin.
  now apply (Hnum r).
Qed.

Lemma tryHardAward_returns results climberStats :
  Forall (fun stats => cs_total_attempts stats <> NaN)
         (JsMap.values climberStats) ->
  exists award, tryHardAward results climberStats = Ok award.
Proof.
  intros Hnum. unfold tryHardAward. rewrite tryHardCandidates_spec.
  destruct (nonempty climberStats); [|now eexists].
  destruct (map (tryHardOf results) (toppers results climberStats))
    as [|c cands] eqn:Hcands; [now eexists|].
  rewrite nonempty_cons.
  assert (Hall : Forall (fun c => th_attempts c <> NaN) (c :: cands)).
  { rewrite <- Hcands. apply Forall_forall. intros x Hx.
    apply in_map_iff in Hx as (stats & <- & Hin).
    unfold toppers in Hin. apply filter_In in Hin as [Hin _].
    rewrite Forall_forall in Hnum. now apply Hnum. }
  destruct (hardest_first (c :: cands) ltac:(discriminate) Hall)
    as (c0 & rest & Hsort & Hc0 & _ & _).
  rewrite Hsort. cbn [first hd_error filter].
  assert (Hself : strict_eq (th_attempts c0) (th_attempts c0)
                  && (th_tops c0 =? th_tops c0) = true).
  { rewrite Z.eqb_refl, andb_true_r. apply strict_eq_true.
    split; [reflexivity|]. rewrite Forall_forall in Hall. now apply Hall. }
  rewrite Hself. destruct (filter _ rest); eexists; reflexivity.
Qed.

Lemma perfectOf_numeric results climberStats compBoulderCounts data p :
  Forall (fun r => rowAttempts r <> NaN) results ->
  In p (perfectOf results climberStats compBoulderCounts data) ->
  pe_attempts p <> NaN.
Proof.
  intros Hnum. unfold perfectOf.
  destruct (_ && _); [|intros []].
  destruct (JsMap.get _ climberStats); [|intros []].
  intros [<-|[]]. cbn [pe_attempts]. now apply compAttemptsOf_numeric.
Qed.

Lemma perfectScore_returns results climberStats :
  Forall (fun r => rowAttempts r <> NaN) results ->
  exists award, perfectScore results climberStats = Ok award.
Proof.
  intros Hnum. unfold perfectScore.
  destruct (nonempty results && nonempty climberStats); [|now eexists].
  rewrite perfectScan_split.
  destruct (perfectScores_perm results climberStats
              (fold_left scanTops results []) (fold_left scanBoulders results []))
    as [Hperm Hnil].
  cbv zeta in Hperm, Hnil.
  set (byComp := perfectScoresByCompOf results climberStats
                   (fold_left scanTops results [])
                   (fold_left scanBoulders results [])) in *.
  destruct (nonempty byComp) eqn:Hne; [|now eexists].
  set (cands := allPerfectScoresOf byComp) in *.
  assert (Hcands : cands <> []).
  { intros Hc. rewrite Hc in Hperm. apply Permutation_nil in Hperm.
    rewrite (Hnil Hperm) in Hne. discriminate. }
  assert (Hall : Forall (fun p => pe_attempts p <> NaN) cands).
  { apply Forall_forall. intros p Hp.
    apply (Permutation_in _ Hperm) in Hp.
    apply in_flat_map in Hp as (data & _ & Hp).
    now apply (perfectOf_numeric _ _ _ _ _ Hnum Hp). }
  destruct (fewest_first pe_attempts cands Hcands Hall)
    as (c0 & rest & Hsort & Hc0 & _ & Hstable).
  rewrite Hsort in *. cbn [first hd_error].
  assert (Hwin : filter (fun w => strict_eq (pe_attempts w) (pe_attempts c0))
                        (c0 :: rest) <> []).
  { cbn [filter].
    assert (Hself : strict_eq (pe_attempts c0) (pe_attempts c0) = true).
    { apply strict_eq_true. split; [reflexivity|].
      rewrite Forall_forall in Hall. now apply Hall. }
    rewrite Hself. discriminate. }
  destruct (perfectAwardOf_spec (c0 :: rest) _ Hwin) as (award & Haward & _).
  exists (Some award). exact Haward.
Qed.

Lemma efficiencyKing_returns climberStats :
  ratiosFinite climberStats = true ->
  exists award, efficiencyKing climberStats = Ok award.
Proof.
  unfold ratiosFinite, efficiencyKing. intros Hfin.
  destruct (nonempty climberStats); [|now eexists].
  destruct (nonempty (efficiencyCandidates climberStats)) eqn:Hne; [|now eexists].
  destruct (JsArray.sort efficiencyAfter (efficiencyCandidates climberStats))
    as [|c0 rest] eqn:Hsort.
  { exfalso. apply nonempty_true in Hne. apply Hne, length_zero_iff_nil.
    rewrite <- (JsArrayFacts.sort_length efficiencyAfter), Hsort. reflexivity. }
  cbn [first hd_error filter].
  assert (Hc0 : In c0 (efficiencyCandidates climberStats)).
  { apply (JsArrayFacts.sort_In efficiencyAfter). rewrite Hsort. now left. }
  rewrite forallb_forall in Hfin. rewrite (Hfin c0 Hc0).
  destruct (filter _ rest); eexists; reflexivity.
Qed.



(** ** Sorting twice, and ties *)

Lemma sort_fixed {A : Type} (after : A -> A -> bool) (l : list A) :
  StronglySorted (fun x y => after x y = false) l -> JsArray.sort after l = l.
Proof.
  induction 1 as [|x l Hs IH Hall]; [reflexivity|].
  cbn [JsArray.sort]. rewrite IH. destruct l as [|y l]; [reflexivity|].
  cbn [JsArray.insert]. inversion Hall as [|? ? Hxy _]; subst. now rewrite Hxy.
Qed.

Lemma StronglySorted_weaken {A : Type} (D : A -> Prop) (R R' : A -> A -> Prop)
    (l : list A) :
  (forall x y, D x -> D y -> R x y -> R' x y) ->
  Forall D l -> StronglySorted R l -> StronglySorted R' l.
Proof.
  intros Hweak HD Hs. induction Hs as [|x l Hs IH Hall]; [constructor|].
  inversion HD as [|? ? Hx HDl]; subst. constructor; [now apply IH|].
  rewrite Forall_forall in *. intros y Hy. apply Hweak; auto.
Qed.

Section LeaderboardAgain.
Variable localeCompare : string -> string -> Z.
Hypothesis localeCompare_antisym :
  forall a b, Z.sgn (localeCompare a b) = - Z.sgn (localeCompare b a).
Hypothesis localeCompare_trans :
  forall a b c, localeCompare a b <= 0 -> localeCompare b c <= 0 ->
                localeCompare a c <= 0.

Context {A : Type} `{Ranked A}.
Variable nameKey : A -> string.

Lemma ranks_before_not_after x y :
  total_attempts x <> NaN -> total_attempts y <> NaN ->
  ranksBefore localeCompare nameKey x y ->
  gt (leaderboardCompare localeCompare nameKey x y) (Num 0) = false.
Proof.
  unfold leaderboardCompare, ranksBefore, strict_ne, strict_eq, num_lt.
  intros Hx Hy.
  destruct (total_attempts x) as [|ax]; [contradiction|].
  destruct (total_attempts y) as [|ay]; [contradiction|].
  intros [Hp|[[Hp Ha]|(Hp & Ha & Hn)]].
  - destruct (Z.eqb_spec (total_points x) (total_points y)); [lia|].
    simpl. apply Z.ltb_ge. lia.
  - rewrite Hp, Z.eqb_refl. cbn [negb].
    destruct (Z.eqb_spec ax ay); [lia|]. simpl. apply Z.ltb_ge. lia.
  - rewrite Hp, Z.eqb_refl. cbn [negb]. injection Ha as ->.
    rewrite Z.eqb_refl. simpl. apply Z.ltb_ge. lia.
Qed.

(** X18. Sorting a leaderboard again changes nothing, and ties keep their
    order. For a collation that is antisymmetric and transitive and totals
    that are numbers, [sortLeaderboard] applied to its own output returns
    that output; and the entries that tie with a given entry on points,
    attempts and case-insensitive name come out in the order they went in. *)
Theorem sortLeaderboard_idempotent (data : list A) (c : A) :
  Forall (fun x => total_attempts x <> NaN) data ->
  let sorted := sortLeaderboard localeCompare data nameKey in
  sortLeaderboard localeCompare sorted nameKey = sorted
  /\ filter (tiesWith localeCompare nameKey c) sorted
     = filter (tiesWith localeCompare nameKey c) data.
Proof.
  intros Hnum sorted. subst sorted. unfold sortLeaderboard.
  set (after := fun a b =>
                  gt (leaderboardCompare localeCompare nameKey a b) (Num 0)).
  set (D := fun x : A => total_attempts x <> NaN).
  split.
  - apply sort_fixed.
    apply (StronglySorted_weaken D (ranksBefore localeCompare nameKey)).
    + intros x y Hx Hy. now apply ranks_before_not_after.
    + apply (Permutation_Forall
               (Permutation_sym (JsArrayFacts.sort_perm after data))).
      exact Hnum.
    + apply (JsArrayFacts.sort_sorted after D); [| | |exact Hnum].
      * intros x y. now apply ranks_not_after.
      * intros x y. now apply ranks_after.
      * intros x y z. now apply ranks_trans.
  - apply (JsArrayFacts.filter_sort after _ D); [|exact Hnum].
    intros x y Hx Hy Hpx Hpy. unfold tiesWith in Hpx, Hpy.
    apply andb_prop in Hpx as [Hpx Hnx]. apply andb_prop in Hpx as [Hpx Hax].
    apply andb_prop in Hpy as [Hpy Hny]. apply andb_prop in Hpy as [Hpy Hay].
    apply Z.eqb_eq in Hpx, Hpy, Hnx, Hny.
    apply strict_eq_true in Hax as [Hax _]. apply strict_eq_true in Hay as [Hay _].
    apply ranks_before_not_after; auto.
    right; right. split; [lia|]. split; [congruence|].
    unfold compareText in *.
    pose proof (localeCompare_antisym (toLowerCase (nameKey y))
                                      (toLowerCase (nameKey c))) as Hanti.
    apply (localeCompare_trans _ (toLowerCase (nameKey c))); lia.
Qed.
End LeaderboardAgain.

Lemma sortLeaderboard_idempotent_witness :
  let zed := sampleClimber "Zed" 100 (Num 5) in
  let amy := sampleClimber "Amy" 100 (Num 5) in
  let ann := sampleClimber "amy" 100 (Num 5) in
  sortLeaderboard codeUnitCompare [ann; zed; amy] cs_climber_name
  = [ann; amy; zed]
  /\ sortLeaderboard codeUnitCompare
       (sortLeaderboard codeUnitCompare [ann; zed; amy] cs_climber_name)
       cs_climber_name
     = sortLeaderboard codeUnitCompare [ann; zed; amy] cs_climber_name
  /\ filter (tiesWith codeUnitCompare cs_climber_name amy)
            (sortLeaderboard codeUnitCompare [ann; zed; amy] cs_climber_name)
     = [ann; amy].
Proof.
  intros zed amy ann. split; [reflexivity|].
  assert (Hnum : Forall (fun x : ClimberStats => total_attempts x <> NaN)
                        [ann; zed; amy])
    by (repeat constructor; discriminate).
  destruct (sortLeaderboard_idempotent codeUnitCompare codeUnitCompare_antisym
              codeUnitCompare_trans cs_climber_name [ann; zed; amy] amy Hnum)
    as [Hagain Hties].
  split; [exact Hagain|]. rewrite Hties. reflexivity.
Defined.

(** ** Search *)

Lemma filter_filter_comm {X : Type} (p q : X -> bool) (l : list X) :
  filter p (filter q l) = filter q (filter p l).
Proof.
  induction l as [|x l IH]; simpl; [reflexivity|].
  destruct (p x) eqn:Hp, (q x) eqn:Hq; simpl; rewrite ?Hp, ?Hq, IH; reflexivity.
Qed.

Lemma searchClimber_map climberStats rawResults query :
  searchClimber climberStats rawResults query
  = map (fun entry : string * ClimberStats =>
           mkClimberResult (fst entry) (cs_climber_name (snd entry))
             (cs_team_name (snd entry)) (cs_division (snd entry))
             (cs_total_points (snd entry)) (cs_total_attempts (snd entry))
             (map detailOf (rowsOf (fst entry) rawResults)))
        (filter (fun entry => nameMatches query (cs_climber_name (snd entry)))
                climberStats).
Proof.
  unfold searchClimber, nameMatches, rowsOf.
  enough (Hgen : forall l acc,
            fold_left
              (fun results (entry : string * ClimberStats) =>
                 let '(climberId, climberData) := entry in
                 if includes (toLowerCase (cs_climber_name climberData))
                             (toLowerCase query)
                 then results ++
                      [mkClimberResult climberId (cs_climber_name climberData)
                         (cs_team_name climberData) (cs_division climberData)
                         (cs_total_points climberData)
                         (cs_total_attempts climberData)
                         (map detailOf
                              (filter (fun r => (climber_id r =? climberId)%string)
                                      rawResults))]
                 else results)
              l acc
            = acc ++ map (fun entry : string * ClimberStats =>
                 mkClimberResult (fst entry) (cs_climber_name (snd entry))
                   (cs_team_name (snd entry)) (cs_division (snd entry))
                   (cs_total_points (snd entry)) (cs_total_attempts (snd entry))
                   (map detailOf
                        (filter (fun r => (climber_id r =? fst entry)%string)
                                rawResults)))
                (filter (fun entry =>
                           includes (toLowerCase (cs_climber_name (snd entry)))
                                    (toLowerCase query)) l)).
  { apply (Hgen climberStats []). }
  induction l as [|[id st] l IH]; intros acc; cbn [fold_left filter map fst snd].
  - now rewrite app_nil_r.
  - rewrite IH. destruct (includes _ _); [|reflexivity].
    cbn [map fst snd]. now rewrite <- app_assoc.
Qed.

(** Accented capitals are lowered with the others: the query of a lower
    e-acute finds the name with the capital; the multiplication sign and
    the sharp s stay. *)
Example toLowerCase_accented :
  let capital := ascii_of_nat 201 in
  let small := ascii_of_nat 233 in
  toLowerCase (String capital "cole") = String small "cole"
  /\ nameMatches (String small "co") (String capital "cole Alpine") = true
  /\ toLowerCase (String (ascii_of_nat 215) (String (ascii_of_nat 223) EmptyString))
     = String (ascii_of_nat 215) (String (ascii_of_nat 223) EmptyString).
Proof. repeat split; vm_compute; reflexivity. Qed.

(** X19. Search by climber name. On the state [computeAllStats] stores,
    [searchClimber] returns one result per registered climber whose
    lower-cased name includes the lower-cased query, in map order; lower
    case is that of [toLowerCase], accented capitals included. The
    detail rows of a result are all the raw rows of the climber, whatever
    the current filter, while its totals are those of the filtered state:
    total_points is the sum of the points of the detail rows of the selected
    competition, and of all the detail rows only when the filter is "all". *)
Theorem searchClimber_spec
    (rawTeams : list RosterEntry) (rawResults : list ResultEntry)
    (currentFilter query : string) :
  let climberStats :=
    st_climberStats (computeAllStats rawTeams rawResults currentFilter) in
  let hits := searchClimber climberStats rawResults query in
  map csr_climber_id hits
  = filter (fun id => nameMatches query (nameOf climberStats id))
           (JsMap.keys climberStats)
  /\ forall hit, In hit hits ->
       nameMatches query (csr_climber_name hit) = true
       /\ csr_results hit
          = map detailOf (rowsOf (csr_climber_id hit) rawResults)
       /\ csr_total_points hit
          = sumZ (map rd_points
                      (filter (detailSelected currentFilter) (csr_results hit)))
       /\ csr_total_attempts hit
          = sumNum (map (fun d => add (rd_attempts_to_zone d)
                                      (rd_attempts_to_top d))
                        (filter (detailSelected currentFilter)
                                (csr_results hit))).
Proof.
  intros climberStats hits. subst hits. rewrite searchClimber_map.
  assert (Hnd : NoDup (JsMap.keys climberStats)).
  { subst climberStats. unfold computeAllStats. cbn [st_climberStats].
    rewrite aggregateClimberStats_keys. apply climberInfoOf_spec. }
  split.
  - rewrite map_map. cbn [csr_climber_id].
    unfold JsMap.keys. rewrite filter_map_comm. f_equal.
    apply filter_ext_in. intros [id stats] Hin. cbn [fst snd]. unfold nameOf.
    now rewrite (In_get _ _ _ Hnd Hin).
  - intros hit Hin. apply in_map_iff in Hin as ([id stats] & <- & Hin).
    apply filter_In in Hin as [Hin Hmatch]. cbn [fst snd] in *.
    cbn [csr_climber_name csr_results csr_total_points csr_total_attempts
         csr_climber_id].
    split; [exact Hmatch|]. split; [reflexivity|].
    apply (In_get _ _ _ Hnd) in Hin. subst climberStats.
    unfold computeAllStats in Hin. cbn [st_climberStats] in Hin.
    rewrite aggregateClimberStats_get in Hin.
    destruct (firstRow rawTeams id) as [teamRow|]; [|discriminate].
    injection Hin as <-.
    rewrite fold_addToStats_points, fold_addToStats_attempts.
    cbn [filteredResultsOf zeroStats cs_total_points cs_total_attempts].
    rewrite filter_map_comm, !map_map.
    assert (Hrows : rowsOf id (filterByComp rawResults currentFilter)
                    = filter (fun r => detailSelected currentFilter (detailOf r))
                             (rowsOf id rawResults)).
    { unfold filterByComp, rowsOf, detailSelected. cbn [detailOf rd_comp_id].
      destruct (currentFilter =? "all")%string; cbn [orb].
      - symmetry. clear. induction (filter _ rawResults) as [|r l IH];
          [reflexivity|]. cbn [filter]. now rewrite IH.
      - apply filter_filter_comm. }
    rewrite Hrows. split; [rewrite Z.add_0_l|]; reflexivity.
Qed.

(** With competition 2 selected, C1 is shown with the 50 points of that
    competition next to the detail rows of both competitions. *)
Example searchClimber_under_filter :
  map (fun hit => (csr_climber_id hit, csr_total_points hit,
                   map rd_points (csr_results hit)))
      (searchClimber
         (st_climberStats (computeAllStats sampleRoster searchSample "2"))
         searchSample "a")
  = [("C1", 50, [100; 50])].
Proof. reflexivity. Qed.

Lemma teamMembersOf_map climberStats teamId :
  teamMembersOf climberStats teamId
  = map memberOf (climbersOfTeam teamId climberStats).
Proof.
  unfold teamMembersOf, climbersOfTeam, JsMap.values.
  enough (Hgen : forall l acc,
            fold_left
              (fun teamMembers (entry : string * ClimberStats) =>
                 let climberData := snd entry in
                 if (cs_team_id climberData =? teamId)%string
                 then teamMembers ++
                      [mkMember (cs_climber_name climberData)
                                (cs_division climberData)
                                (cs_total_points climberData)
                                (cs_total_attempts climberData)]
                 else teamMembers)
              l acc
            = acc ++ map memberOf
                (filter (fun stats => (cs_team_id stats =? teamId)%string)
                        (map snd l))).
  { apply (Hgen climberStats []). }
  induction l as [|[id st] l IH]; intros acc; cbn [fold_left filter map snd].
  - now rewrite app_nil_r.
  - rewrite IH. destruct (cs_team_id st =? teamId)%string; [|reflexivity].
    cbn [map]. now rewrite <- app_assoc.
Qed.

(** With distinct keys the set of processed teams never stops an entry. *)
Lemma searchTeam_map teamStats climberStats query :
  NoDup (JsMap.keys teamStats) ->
  searchTeam teamStats climberStats query
  = map (fun entry : string * TeamStats =>
           mkTeamResult (fst entry) (ts_team_name (snd entry))
             (ts_total_points (snd entry)) (ts_total_attempts (snd entry))
             (teamMembersOf climberStats (fst entry)))
        (filter (fun entry => nameMatches query (ts_team_name (snd entry)))
                teamStats).
Proof.
  intros Hnd. unfold searchTeam.
  set (step := fun (st : list TeamSearchResult * list string)
                   (entry : string * TeamStats) =>
                 let '(results, processedTeams) := st in
                 let '(teamId, teamData) := entry in
                 if existsb (String.eqb teamId) processedTeams then st
                 else if includes (toLowerCase (ts_team_name teamData))
                                  (toLowerCase query)
                 then (results ++
                       [mkTeamResult teamId (ts_team_name teamData)
                          (ts_total_points teamData) (ts_total_attempts teamData)
                          (teamMembersOf climberStats teamId)],
                       processedTeams ++ [teamId])
                 else st).
  set (hitOf := fun entry : string * TeamStats =>
                  mkTeamResult (fst entry) (ts_team_name (snd entry))
                    (ts_total_points (snd entry)) (ts_total_attempts (snd entry))
                    (teamMembersOf climberStats (fst entry))).
  assert (Hinv :
    fst (fold_left step teamStats ([], []))
    = map hitOf (filter (fun entry => nameMatches query (ts_team_name (snd entry)))
                        teamStats)
    /\ (forall id, In id (snd (fold_left step teamStats ([], []))) ->
                   In id (JsMap.keys teamStats))); [|apply Hinv].
  revert Hnd. induction teamStats as [|[id team] l IH] using rev_ind; intros Hnd.
  - split; [reflexivity | intros ? []].
  - rewrite keys_app in Hnd. cbn [JsMap.keys map fst] in Hnd.
    assert (Hndl : NoDup (JsMap.keys l)) by now apply NoDup_app_remove_r in Hnd.
    assert (Hfresh : ~ In id (JsMap.keys l)).
    { intros Hin. apply NoDup_remove_2 in Hnd. apply Hnd.
      rewrite app_nil_r. exact Hin. }
    destruct (IH Hndl) as [Hres Hproc].
    rewrite fold_left_app, filter_app, map_app, keys_app. cbn [fold_left].
    destruct (fold_left step l ([], [])) as [results processed].
    cbn [fst snd] in *. unfold step.
    destruct (existsb (String.eqb id) processed) eqn:Hex.
    { exfalso. apply existsb_exists in Hex as (x & Hx & Heq).
      apply String.eqb_eq in Heq. subst x. now apply Hfresh, Hproc. }
    cbn [filter snd]. unfold nameMatches at 2.
    destruct (includes _ _); cbn [fst snd map].
    + split; [now rewrite Hres|].
      intros x Hx. apply in_or_app. apply in_app_or in Hx as [Hx|Hx];
        [left; now apply Hproc | right; exact Hx].
    + split; [now rewrite Hres, app_nil_r|].
      intros x Hx. apply in_or_app. left. now apply Hproc.
Qed.

(** X20. Search by team name. On the maps computed from a roster and
    result rows, [searchTeam] returns one result per team whose lower-cased
    name includes the lower-cased query (lower case is that of
    [toLowerCase], accented capitals included), in team-map order, all the
    teams for the empty query; the members of a result are the climbers whose
    team_id is the team's, in climber-map order, each with its own totals;
    and the total_points shown for the team is the sum of the total_points
    of the members shown. *)
Theorem searchTeam_spec
    (teams : list RosterEntry) (results : list ResultEntry)
    (filterCompId : option string) (query : string) :
  let climberStats := aggregateClimberStats teams results filterCompId in
  let teamStats := aggregateTeamStats climberStats teams in
  let hits := searchTeam teamStats climberStats query in
  map tsr_team_id hits
  = map fst (filter (fun entry => nameMatches query (ts_team_name (snd entry)))
                    teamStats)
  /\ (query = EmptyString -> map tsr_team_id hits = JsMap.keys teamStats)
  /\ forall hit, In hit hits ->
       nameMatches query (tsr_team_name hit) = true
       /\ tsr_members hit
          = map memberOf (climbersOfTeam (tsr_team_id hit) climberStats)
       /\ tsr_total_points hit = sumZ (map tm_total_points (tsr_members hit)).
Proof.
  intros climberStats teamStats hits. subst hits.
  destruct (initTeams_spec teams) as (Hnd0 & Hzero & _).
  assert (Hnd : NoDup (JsMap.keys teamStats)).
  { subst teamStats. unfold aggregateTeamStats. now rewrite fold_addClimber_keys. }
  rewrite (searchTeam_map _ _ _ Hnd). split; [|split].
  - rewrite map_map. reflexivity.
  - intros ->. rewrite map_map. cbn [tsr_team_id].
    rewrite forallb_filter_id; [reflexivity|].
    apply forallb_forall. intros entry _. unfold nameMatches.
    now destruct (toLowerCase (ts_team_name (snd entry))).
  - intros hit Hin. apply in_map_iff in Hin as ([tid team] & <- & Hin).
    apply filter_In in Hin as [Hin Hmatch]. cbn [fst snd] in *.
    cbn [tsr_team_name tsr_members tsr_total_points tsr_team_id].
    split; [exact Hmatch|]. rewrite teamMembersOf_map. split; [reflexivity|].
    rewrite map_map. cbn [memberOf tm_total_points].
    apply (In_get _ _ _ Hnd) in Hin. subst teamStats.
    unfold aggregateTeamStats in Hin. rewrite fold_addClimber_get in Hin.
    destruct (JsMap.get tid (fold_left initTeam teams [])) as [team0|] eqn:Hg0;
      [|discriminate].
    injection Hin as <-. rewrite fold_addToTeam_points, (Hzero _ _ Hg0).
    rewrite Z.add_0_l. reflexivity.
Qed.

(** [includes] is the substring test. *)
Lemma prefix_app sub : forall s,
  String.prefix sub s = true <-> exists post, s = (sub ++ post)%string.
Proof.
  induction sub as [|a sub IH]; intros s.
  - split; [intros _; now exists s | now destruct s].
  - destruct s as [|b s]; cbn [String.prefix].
    + split; [discriminate | intros [post Hpost]; discriminate Hpost].
    + destruct (Ascii.ascii_dec a b) as [->|Hab].
      * rewrite IH. split; intros [post Hpost]; exists post.
        -- simpl. now rewrite Hpost.
        -- simpl in Hpost. now injection Hpost.
      * split; [discriminate|]. intros [post Hpost]. simpl in Hpost.
        injection Hpost as Heq _. congruence.
Qed.

Lemma includes_spec s : forall sub,
  includes s sub = true <-> exists pre post, s = (pre ++ sub ++ post)%string.
Proof.
  induction s as [|c s IH]; intros sub; cbn [includes].
  - rewrite orb_false_r, prefix_app. split.
    + intros [post Hpost]. now exists EmptyString, post.
    + intros (pre & post & Heq). destruct pre; [|discriminate Heq].
      now exists post.
  - rewrite orb_true_iff, prefix_app, IH. split.
    + intros [[post Hpost]|(pre & post & Heq)].
      * now exists EmptyString, post.
      * exists (String c pre), post. simpl. now rewrite Heq.
    + intros (pre & post & Heq). destruct pre as [|a pre].
      * left. now exists post.
      * right. simpl in Heq. injection Heq as _ Heq. now exists pre, post.
Qed.

(** ** A filter that selects no row *)

Lemma initTeam_keys m x :
  JsMap.keys (initTeam m x)
  = if JsMap.has (tr_team_id x) m then JsMap.keys m
    else JsMap.keys m ++ [tr_team_id x].
Proof.
  unfold initTeam. destruct (JsMap.has (tr_team_id x) m) eqn:Hhas.
  - destruct (JsMap.get (tr_team_id x) m); [|reflexivity].
    destruct (existsb _ _); [reflexivity|].
    apply keys_set_present. now apply has_true.
  - rewrite get_set_same. cbn [ts_climbers existsb]. rewrite set_set.
    apply has_false in Hhas. rewrite (set_fresh _ _ _ Hhas), keys_app.
    reflexivity.
Qed.

Lemma initTeams_head teams : forall m k,
  hd_error (JsMap.keys m) = Some k ->
  hd_error (JsMap.keys (fold_left initTeam teams m)) = Some k.
Proof.
  induction teams as [|x teams IH]; intros m k Hk; cbn [fold_left]; [exact Hk|].
  apply IH. rewrite initTeam_keys. destruct (JsMap.has _ m); [exact Hk|].
  destruct (JsMap.keys m); [discriminate Hk | exact Hk].
Qed.

Lemma sumNum_zeros l : (forall x, In x l -> x = Num 0) -> sumNum l = Num 0.
Proof.
  unfold sumNum. induction l as [|x l IH]; intros Hall; [reflexivity|].
  cbn [fold_left]. rewrite (Hall x (or_introl eq_refl)). cbn [add Z.add].
  apply IH. intros y Hy. apply Hall. now right.
Qed.

Lemma mostAttemptsTeam_zeros (entry : string * TeamStats) (l : JsMap.t TeamStats) :
  (forall e, In e (entry :: l) -> ts_total_attempts (snd e) = Num 0) ->
  mostAttemptsTeam (entry :: l)
  = Some (mkTeamAward (ts_team_name (snd entry)) (Num 0)).
Proof.
  intros Hall. unfold mostAttemptsTeam. rewrite nonempty_cons. cbn [fold_left].
  rewrite (Hall entry (or_introl eq_refl)). cbn [gt Z.ltb Z.compare].
  assert (Hkeep : forall t (l' : JsMap.t TeamStats),
            (forall e, In e l' -> ts_total_attempts (snd e) = Num 0) ->
            fold_left
              (fun (st : number * option TeamStats) (e : string * TeamStats) =>
                 let '(maxAttempts, maxTeam) := st in
                 let team := snd e in
                 if gt (ts_total_attempts team) maxAttempts
                 then (ts_total_attempts team, Some team)
                 else (maxAttempts, maxTeam))
              l' (Num 0, Some t)
            = (Num 0, Some t)).
  { intros t l'. induction l' as [|e l' IH]; intros Hl'; [reflexivity|].
    cbn [fold_left]. rewrite (Hl' e (or_introl eq_refl)). cbn [gt Z.ltb Z.compare].
    apply IH. intros e' He'. apply Hl'. now right. }
  rewrite Hkeep; [|intros e He; apply Hall; now right].
  now rewrite (Hall entry (or_introl eq_refl)).
Qed.

(** X21. A filter that selects no row. When no raw row belongs to the
    current competition, [computeAllStats] zeroes every climber and every
    team, and [computeFunStats] returns, without an exception, no award but
    one: "most attempts by team" goes to the team of the first roster row,
    with 0 attempts. With an empty roster there is no award at all. *)
Theorem computeAllStats_no_rows
    (rawTeams : list RosterEntry) (rawResults : list ResultEntry)
    (currentFilter : string) :
  filterByComp rawResults currentFilter = [] ->
  let state := computeAllStats rawTeams rawResults currentFilter in
  (forall id stats,
     JsMap.get id (st_climberStats state) = Some stats ->
     cs_total_points stats = 0 /\ cs_total_attempts stats = Num 0
     /\ cs_comp_breakdown stats = [])
  /\ (forall id team,
        JsMap.get id (st_teamStats state) = Some team ->
        ts_total_points team = 0 /\ ts_total_attempts team = Num 0)
  /\ st_funStats state
     = Ok (mkFunStats
             (option_map (fun teamRow => mkTeamAward (tr_team_name teamRow) (Num 0))
                         (hd_error rawTeams))
             None None None None None None None).
Proof.
  intros Hempty state. subst state. unfold computeAllStats.
  cbn [st_climberStats st_teamStats st_funStats]. rewrite Hempty.
  set (climberStats := aggregateClimberStats rawTeams [] None).
  set (teamStats := aggregateTeamStats climberStats rawTeams).
  assert (Hcs : forall id stats,
            JsMap.get id climberStats = Some stats ->
            cs_total_points stats = 0 /\ cs_total_attempts stats = Num 0
            /\ cs_comp_breakdown stats = []).
  { intros id stats Hget. subst climberStats.
    rewrite aggregateClimberStats_get in Hget.
    destruct (firstRow rawTeams id); [|discriminate].
    injection Hget as <-. repeat split. }
  assert (Hvalues : forall stats, In stats (JsMap.values climberStats) ->
                                  cs_total_points stats = 0
                                  /\ cs_total_attempts stats = Num 0).
  { intros stats Hin. apply in_map_iff in Hin as ([id s] & <- & Hin).
    cbn [snd]. destruct (Hcs id s) as (H1 & H2 & _); [|now split].
    apply In_get; [|exact Hin]. subst climberStats.
    rewrite aggregateClimberStats_keys. apply climberInfoOf_spec. }
  destruct (initTeams_entries rawTeams) as [Hnd Hinit].
  assert (Hts : forall id team,
            JsMap.get id teamStats = Some team ->
            ts_total_points team = 0 /\ ts_total_attempts team = Num 0
            /\ option_map tr_team_name (firstTeamRow rawTeams id)
               = Some (ts_team_name team)).
  { intros id team Hget. subst teamStats. unfold aggregateTeamStats in Hget.
    rewrite fold_addClimber_get in Hget. specialize (Hinit id).
    destruct (JsMap.get id (fold_left initTeam rawTeams [])) as [team0|];
      [|discriminate].
    injection Hget as <-.
    destruct Hinit as (_ & Hp & Ha & _ & _ & Hname).
    destruct (fold_addToTeam_fields (climbersOfTeam id climberStats) team0)
      as (_ & Hn & _ & Hatt).
    rewrite fold_addToTeam_points, Hatt, Hn, Hp, Ha. split; [|split].
    - assert (Hz : forall l : list ClimberStats,
                (forall s, In s l -> cs_total_points s = 0) ->
                sumZ (map cs_total_points l) = 0).
      { induction l as [|s l IH]; intros Hl; [reflexivity|]. cbn [map sumZ fold_right].
        rewrite (Hl s (or_introl eq_refl)). unfold sumZ in IH. rewrite IH; [reflexivity|].
        intros s' Hs'. apply Hl. now right. }
      rewrite Hz; [reflexivity|]. intros s Hs. unfold climbersOfTeam in Hs.
      apply filter_In in Hs as [Hs _]. now apply Hvalues.
    - apply sumNum_zeros. intros x Hx. apply in_map_iff in Hx as (s & <- & Hs).
      unfold climbersOfTeam in Hs. apply filter_In in Hs as [Hs _].
      now apply Hvalues.
    - exact Hname. }
  split; [exact Hcs|]. split; [intros id team Hget; now destruct (Hts id team Hget)|].
  assert (Hteam : mostAttemptsTeam teamStats
                  = option_map (fun teamRow =>
                                  mkTeamAward (tr_team_name teamRow) (Num 0))
                               (hd_error rawTeams)).
  { destruct rawTeams as [|row0 rest] eqn:Hroster; [reflexivity|].
    assert (Hhead : hd_error (JsMap.keys teamStats) = Some (tr_team_id row0)).
    { subst teamStats. unfold aggregateTeamStats. rewrite fold_addClimber_keys.
      cbn [fold_left]. apply initTeams_head. rewrite initTeam_keys. reflexivity. }
    assert (Hndts : NoDup (JsMap.keys teamStats)).
    { subst teamStats. unfold aggregateTeamStats.
      now rewrite fold_addClimber_keys. }
    destruct teamStats as [|[k0 t0] l] eqn:Hmap; [discriminate Hhead|].
    cbn in Hhead. injection Hhead as ->.
    rewrite mostAttemptsTeam_zeros.
    - destruct (Hts (tr_team_id row0) t0) as (_ & _ & Hname).
      { cbn [JsMap.get]. now rewrite String.eqb_refl. }
      unfold firstTeamRow in Hname. cbn [find] in Hname.
      rewrite String.eqb_refl in Hname. cbn in Hname. injection Hname as Hname.
      cbn [hd_error option_map snd]. now rewrite Hname.
    - intros [k t] Hin. cbn [snd]. destruct (Hts k t) as (_ & Ha & _); [|exact Ha].
      now apply In_get. }
  assert (Htry : tryHardAward [] climberStats = Ok None).
  { unfold tryHardAward. rewrite tryHardCandidates_spec.
    destruct (nonempty climberStats); [|reflexivity].
    unfold toppers. rewrite filter_none; [reflexivity|]. reflexivity. }
  assert (Heff : efficiencyKing climberStats = Ok None).
  { unfold efficiencyKing. rewrite efficiencyCandidates_spec.
    destruct (nonempty climberStats); [|reflexivity].
    rewrite filter_none; [reflexivity|].
    intros stats Hin. destruct (Hvalues stats Hin) as [_ ->]. reflexivity. }
  unfold computeFunStats. rewrite Hteam, Htry, Heff. reflexivity.
Qed.

Lemma computeAllStats_no_rows_witness :
  filterByComp pipelineSample "comp9" = []
  /\ st_funStats (computeAllStats sampleRoster pipelineSample "comp9")
     = Ok (mkFunStats (Some (mkTeamAward "Alpha" (Num 0)))
                      None None None None None None None).
Proof.
  split; [reflexivity|].
  exact (proj2 (proj2 (computeAllStats_no_rows sampleRoster pipelineSample "comp9"
                         eq_refl))).
Defined.

(** ** Division tables and the individual table *)

Section SortFilter.
Context {A : Type}.
Variable after : A -> A -> bool.
Variable p : A -> bool.
Variable D : A -> Prop.
Variable R : A -> A -> Prop.
Hypothesis R_not_after : forall x y, D x -> D y -> after x y = false -> R x y.
Hypothesis R_after : forall x y, D x -> D y -> after x y = true -> R y x.
Hypothesis not_after_R : forall x y, D x -> D y -> R x y -> after x y = false.
Hypothesis R_trans : forall x y z, D x -> D y -> D z -> R x y -> R y z -> R x z.

Lemma insert_first x l :
  (forall z, hd_error l = Some z -> after x z = false) ->
  JsArray.insert after x l = x :: l.
Proof.
  destruct l as [|z l]; [reflexivity|]. intros Hz. cbn [JsArray.insert].
  now rewrite (Hz z eq_refl).
Qed.

Lemma filter_insert_sorted x l :
  D x -> Forall D l -> StronglySorted R l ->
  filter p (JsArray.insert after x l)
  = if p x then JsArray.insert after x (filter p l) else filter p l.
Proof.
  intros Hx. induction l as [|y l IH]; intros HD Hs.
  - cbn. now destruct (p x).
  - inversion HD as [|? ? Hy HDl]; subst.
    inversion Hs as [|? ? Hsl Hall]; subst.
    cbn [JsArray.insert]. destruct (after x y) eqn:Haft.
    + cbn [filter]. rewrite (IH HDl Hsl).
      destruct (p x), (p y); try reflexivity.
      cbn [JsArray.insert]. now rewrite Haft.
    + cbn [filter]. destruct (p x); [|reflexivity].
      symmetry. apply insert_first. intros z Hz.
      assert (Hin : In z (filter p (y :: l))).
      { cbn [filter]. destruct (p y); cbn [hd_error] in Hz.
        - injection Hz as <-. now left.
        - destruct (filter p l); [discriminate|]. injection Hz as <-. now left. }
      fold (filter p (y :: l)) in Hz.
      apply filter_In in Hin as [Hin _].
      assert (Hxy : R x y) by now apply R_not_after.
      rewrite Forall_forall in Hall, HDl.
      destruct Hin as [<-|Hin]; [exact Haft|].
      apply not_after_R; auto. apply (R_trans x y z); auto.
Qed.

(** For a consistent comparison, sorting a selection is selecting from the
    sorted array. *)
Lemma sort_filter l :
  Forall D l ->
  JsArray.sort after (filter p l) = filter p (JsArray.sort after l).
Proof.
  induction l as [|x l IH]; intros HD; [reflexivity|].
  inversion HD as [|? ? Hx HDl]; subst.
  cbn [JsArray.sort filter]. rewrite filter_insert_sorted; auto.
  - rewrite <- (IH HDl). now destruct (p x).
  - apply (Permutation_Forall
             (Permutation_sym (JsArrayFacts.sort_perm after l))). exact HDl.
  - now apply (JsArrayFacts.sort_sorted after D R).
Qed.
End SortFilter.

Section DivisionTables.
Variable localeCompare : string -> string -> Z.
Hypothesis localeCompare_antisym :
  forall a b, Z.sgn (localeCompare a b) = - Z.sgn (localeCompare b a).
Hypothesis localeCompare_trans :
  forall a b c, localeCompare a b <= 0 -> localeCompare b c <= 0 ->
                localeCompare a c <= 0.

(** X22. The division tables agree with the individual table. For a
    collation that is antisymmetric and transitive and climbers whose total
    attempts are numbers, the array a division table displays is the array
    of the individual leaderboard restricted to the climbers of that
    division: two climbers of one division are ranked in the same order in
    both tables. *)
Theorem division_tables_agree
    (climberStats : JsMap.t ClimberStats) (teams : list RosterEntry)
    (division : string) :
  Forall (fun stats => cs_total_attempts stats <> NaN)
         (JsMap.values climberStats) ->
  In division divisions ->
  sortedDivisionOf localeCompare (aggregateDivisionStats climberStats teams)
                   division
  = filter (fun stats => (cs_division stats =? division)%string)
           (sortedClimbersOf localeCompare climberStats).
Proof.
  intros Hnum Hd. unfold sortedDivisionOf, sortedClimbersOf, sortLeaderboard.
  destruct (aggregateDivisionStats_get climberStats teams) as [_ Hget].
  rewrite (Hget division Hd). cbv zeta.
  apply (sort_filter _ _ (fun stats : ClimberStats => total_attempts stats <> NaN)
           (ranksBefore localeCompare cs_climber_name)); [| | | |exact Hnum].
  - intros x y. now apply ranks_not_after.
  - intros x y. now apply ranks_after.
  - intros x y. now apply ranks_before_not_after.
  - intros x y z. now apply ranks_trans.
Qed.
End DivisionTables.

Lemma division_tables_agree_witness :
  let roster :=
    [mkRoster "T1" "Alpha" "C1" "A" "Beginner";
     mkRoster "T1" "Alpha" "C2" "B" "Advanced";
     mkRoster "T2" "Beta" "C3" "C" "Beginner"] in
  let climberStats := aggregateClimberStats roster searchSample None in
  map cs_climber_id (sortedClimbersOf codeUnitCompare climberStats)
  = ["C1"; "C2"; "C3"]
  /\ map cs_climber_id
         (sortedDivisionOf codeUnitCompare
            (aggregateDivisionStats climberStats roster) "Beginner")
     = ["C1"; "C3"]
  /\ sortedDivisionOf codeUnitCompare
       (aggregateDivisionStats climberStats roster) "Beginner"
     = filter (fun stats => (cs_division stats =? "Beginner")%string)
              (sortedClimbersOf codeUnitCompare climberStats).
Proof.
  intros roster climberStats. split; [reflexivity|]. split; [reflexivity|].
  apply (division_tables_agree codeUnitCompare codeUnitCompare_antisym
           codeUnitCompare_trans climberStats roster "Beginner").
  - repeat constructor; discriminate.
  - now left.
Defined.

(** ** Writing a table and reading it back *)

Lemma quote_not_newline : quote_char <> newline_char.
Proof. unfold quote_char, newline_char. discriminate. Qed.

Lemma comma_not_newline : comma_char <> newline_char.
Proof. unfold comma_char, newline_char. discriminate. Qed.

Lemma tight_trim l : startsTight l -> endsTight l -> trim l = l.
Proof.
  intros (c & l1 & Hl1 & Hc) (d & l2 & Hl2 & Hd). unfold trim.
  assert (H1 : skip_ws l = l) by (rewrite Hl1; simpl; now rewrite Hc).
  rewrite H1.
  assert (H2 : skip_ws (rev l) = rev l).
  { rewrite Hl2, rev_app_distr. simpl. now rewrite Hd. }
  rewrite H2. apply rev_involutive.
Qed.

Lemma trim_tight l : trim l = [] \/ (startsTight (trim l) /\ endsTight (trim l)).
Proof.
  unfold trim. destruct (skip_ws l) as [|c a] eqn:Ha; [now left|].
  right. apply skip_ws_head in Ha. cbn [rev].
  rewrite skip_ws_last by exact Ha. rewrite rev_app_distr. cbn [rev app].
  split; [now exists c, (rev (skip_ws (rev a)))|].
  destruct (skip_ws (rev a)) as [|d b] eqn:Hb.
  - exists c, []. now split.
  - apply skip_ws_head in Hb. exists d, (c :: rev b). cbn [rev]. now split.
Qed.

Lemma startsTight_app l m : startsTight l -> startsTight (l ++ m).
Proof. intros (c & l' & -> & Hc). now exists c, (l' ++ m). Qed.

Lemma endsTight_app l m : endsTight l -> endsTight (m ++ l).
Proof.
  intros (d & l' & -> & Hd). exists d, (m ++ l'). now rewrite app_assoc.
Qed.

Lemma joinChars_cons sep w ws :
  ws <> [] -> joinChars sep (w :: ws) = w ++ sep :: joinChars sep ws.
Proof. destruct ws; [congruence | reflexivity]. Qed.

Lemma joinChars_snoc sep ws : forall w,
  ws <> [] -> joinChars sep (ws ++ [w]) = joinChars sep ws ++ sep :: w.
Proof.
  induction ws as [|w0 ws IH]; intros w Hne; [congruence|].
  destruct ws as [|w1 ws]; [reflexivity|].
  change ((w0 :: w1 :: ws) ++ [w]) with (w0 :: ((w1 :: ws) ++ [w])).
  rewrite joinChars_cons by easy.
  rewrite IH by easy.
  change (joinChars sep (w0 :: w1 :: ws))
    with (w0 ++ sep :: joinChars sep (w1 :: ws)).
  now rewrite <- app_assoc.
Qed.

Lemma In_joinChars sep ws c :
  In c (joinChars sep ws) -> c = sep \/ exists w, In w ws /\ In c w.
Proof.
  induction ws as [|w ws IH]; [intros []|].
  destruct ws as [|w' ws].
  - intros Hin. right. exists w. split; [now left | exact Hin].
  - rewrite joinChars_cons by easy. intros Hin.
    apply in_app_or in Hin as [Hin|[<-|Hin]].
    + right. exists w. split; [now left | exact Hin].
    + now left.
    + destruct (IH Hin) as [->|(w0 & Hw0 & Hc)]; [now left|].
      right. exists w0. split; [now right | exact Hc].
Qed.

(** Cutting a joined text at the separator gives the pieces back. *)
Lemma split_on_single sep l : ~ In sep l -> split_on sep l = [l].
Proof.
  induction l as [|c l IH]; intros Hn; [reflexivity|].
  cbn [split_on]. destruct (Ascii.eqb_spec c sep) as [->|_];
    [elim Hn; now left|].
  rewrite IH; [reflexivity|]. intros Hin. apply Hn. now right.
Qed.

Lemma split_on_app sep l rest :
  ~ In sep l -> split_on sep (l ++ sep :: rest) = l :: split_on sep rest.
Proof.
  induction l as [|c l IH]; intros Hn.
  - cbn [app split_on]. now rewrite Ascii.eqb_refl.
  - cbn [app split_on]. destruct (Ascii.eqb_spec c sep) as [->|_];
      [elim Hn; now left|].
    rewrite IH; [reflexivity|]. intros Hin. apply Hn. now right.
Qed.

Lemma split_on_joinChars sep ws :
  ws <> [] -> (forall w, In w ws -> ~ In sep w) ->
  split_on sep (joinChars sep ws) = ws.
Proof.
  induction ws as [|w ws IH]; intros Hne Hall; [congruence|].
  destruct ws as [|w' ws].
  - apply split_on_single, Hall. now left.
  - rewrite joinChars_cons by easy.
    rewrite split_on_app by (apply Hall; now left).
    rewrite IH; [reflexivity | discriminate|].
    intros w0 Hw0. apply Hall. now right.
Qed.

(** A written field is empty or has no white space at its ends, and holds
    no line feed when the cell holds none. *)
Lemma writeField_tight cell :
  cellOk cell ->
  (writeField cell = [] \/ (startsTight (writeField cell)
                            /\ endsTight (writeField cell)))
  /\ ~ In newline_char (writeField cell).
Proof.
  intros [Htrim Hnl]. unfold writeField. destruct (isPlain cell).
  - split; [|exact Hnl]. rewrite <- Htrim. apply trim_tight.
  - unfold quoteField. split.
    + right. split.
      * now exists quote_char, (escapeQuotes cell ++ [quote_char]).
      * exists quote_char, (quote_char :: escapeQuotes cell). now split.
    + intros [Hq|Hin]; [now apply quote_not_newline in Hq|].
      apply in_app_or in Hin as [Hin|[Hq|[]]];
        [|now apply quote_not_newline in Hq].
      apply Hnl. clear -Hin. induction cell as [|c cell IH]; [destruct Hin|].
      cbn [escapeQuotes] in Hin. destruct (Ascii.eqb_spec c quote_char) as [->|_].
      * destruct Hin as [Hq|[Hq|Hin]];
          try (now apply quote_not_newline in Hq). right. now apply IH.
      * destruct Hin as [<-|Hin]; [now left | right; now apply IH].
Qed.

(** A written row of two cells or more is a line without a line feed and
    without white space at its ends. *)
Lemma writeLine_tight cells :
  (2 <= List.length cells)%nat -> Forall cellOk cells ->
  startsTight (writeLine cells) /\ endsTight (writeLine cells)
  /\ ~ In newline_char (writeLine cells).
Proof.
  intros Hlen Hok. rewrite Forall_forall in Hok. unfold writeLine.
  split; [|split].
  - destruct cells as [|c0 [|c1 cells]]; try (simpl in Hlen; lia).
    cbn [map]. rewrite joinChars_cons by easy.
    destruct (writeField_tight c0 (Hok c0 (or_introl eq_refl))) as [[->|[H _]] _].
    + now exists comma_char, (joinChars comma_char (writeField c1 :: map writeField cells)).
    + now apply startsTight_app.
  - destruct (exists_last (l := cells)) as (init & cn & ->);
      [intros ->; simpl in Hlen; lia|].
    rewrite map_app. cbn [map].
    assert (Hinit : map writeField init <> []).
    { destruct init; [rewrite length_app in Hlen; simpl in Hlen; lia | discriminate]. }
    rewrite joinChars_snoc by exact Hinit.
    destruct (writeField_tight cn) as [[->|[_ H]] _].
    + apply Hok, in_or_app. right. now left.
    + exists comma_char, (joinChars comma_char (map writeField init)). now split.
    + change (comma_char :: writeField cn) with ([comma_char] ++ writeField cn).
      rewrite app_assoc. now apply endsTight_app.
  - intros Hin. apply In_joinChars in Hin as [Hc|(w & Hw & Hin)];
      [symmetry in Hc; now apply comma_not_newline in Hc|].
    apply in_map_iff in Hw as (c & <- & Hc).
    now apply (proj2 (writeField_tight c (Hok c Hc))).
Qed.

Lemma fold_addCsvRow headers cellRows : forall acc,
  Forall (fun cells => List.length cells = List.length headers
                       /\ (2 <= List.length cells)%nat
                       /\ Forall cellOk cells) cellRows ->
  fold_left (addCsvRow (map string_of_list_ascii headers))
            (map writeLine cellRows) acc
  = acc ++ map (rowOfCells headers) cellRows.
Proof.
  induction cellRows as [|cells cellRows IH]; intros acc Hall.
  - simpl. now rewrite app_nil_r.
  - inversion Hall as [|? ? (Hlen & Htwo & Hok) Hrest]; subst.
    cbn [map fold_left]. rewrite IH by exact Hrest.
    assert (Hstep : addCsvRow (map string_of_list_ascii headers) acc
                              (writeLine cells)
                    = acc ++ [rowOfCells headers cells]).
    { unfold addCsvRow.
      destruct (writeLine_tight cells Htwo Hok) as (Hs & He & _).
      rewrite (tight_trim _ Hs He).
      destruct Hs as (c & l' & Hline & _).
      rewrite Hline at 1. cbn [List.length].
      destruct (Z.eqb_spec (Z.of_nat (S (List.length l'))) 0); [lia|].
      assert (Hparse : parseCSVChars (writeLine cells) = cells).
      { unfold parseCSVChars, writeLine. destruct cells as [|c0 cells];
          [simpl in Htwo; lia|]. now rewrite parseCSVLoop_joined. }
      rewrite Hparse.
      assert (Hcells : map trimString cells = map string_of_list_ascii cells).
      { apply map_ext_in. intros cell Hcell. unfold trimString.
        rewrite Forall_forall in Hok. now rewrite (proj1 (Hok cell Hcell)). }
      rewrite Hcells, !length_map, Hlen, Z.eqb_refl. reflexivity. }
    rewrite Hstep, <- app_assoc. reflexivity.
Qed.

(** X23. Reading back a written table. A table of at least two columns
    whose cells hold no line feed and no white space (the no-break space
    included) at either end, written row by row with commas between the
    fields (quoted where they hold a comma or a quote) and line feeds
    between the rows, is parsed by [parseCsv], when its header row has the
    required columns, into exactly its data rows: one object per row, with
    the header cells as keys and the cells of the row as values, but for a
    header cell [__proto__], which gives no key. *)
Theorem parseCsv_round_trip
    (headers : list (list ascii)) (cellRows : list (list (list ascii)))
    (requiredColumns : list string) :
  (2 <= List.length headers)%nat ->
  Forall cellOk headers ->
  Forall (fun cells => List.length cells = List.length headers
                       /\ Forall cellOk cells) cellRows ->
  (forall col, In col requiredColumns ->
               In col (map string_of_list_ascii headers)) ->
  parseCsv (writeCsv (headers :: cellRows)) requiredColumns
  = Parsed (map (rowOfCells headers) cellRows).
Proof.
  intros Htwo Hheaders Hrows Hreq.
  assert (Hrows' : Forall (fun cells => List.length cells = List.length headers
                                        /\ (2 <= List.length cells)%nat
                                        /\ Forall cellOk cells) cellRows).
  { apply Forall_forall. intros cells Hin. rewrite Forall_forall in Hrows.
    destruct (Hrows cells Hin) as [Hlen Hok]. repeat split; auto. lia. }
  assert (Hlines : forall line, In line (map writeLine (headers :: cellRows)) ->
                     startsTight line /\ endsTight line
                     /\ ~ In newline_char line).
  { intros line Hin. apply in_map_iff in Hin as (cells & <- & [<-|Hin]).
    - now apply writeLine_tight.
    - rewrite Forall_forall in Hrows'. destruct (Hrows' cells Hin) as (_ & H2 & Hok).
      now apply writeLine_tight. }
  set (lines := map writeLine (headers :: cellRows)) in *.
  set (text := joinChars newline_char lines).
  assert (Htext : startsTight text /\ endsTight text).
  { subst text. split.
    - subst lines. cbn [map].
      destruct (map writeLine cellRows) as [|l ls] eqn:Hls.
      + cbn [joinChars]. apply Hlines. now left.
      + rewrite joinChars_cons by easy. apply startsTight_app.
        apply Hlines. now left.
    - destruct (exists_last (l := lines)) as (init & lastLine & Hlast);
        [subst lines; discriminate|].
      rewrite Hlast. destruct init as [|l0 init].
      + cbn [app joinChars]. apply Hlines. rewrite Hlast. now left.
      + rewrite joinChars_snoc by easy.
        change (newline_char :: lastLine) with ([newline_char] ++ lastLine).
        rewrite app_assoc. apply endsTight_app. apply Hlines.
        rewrite Hlast. apply in_or_app. right. now left. }
  assert (Hcsv : csvLines (writeCsv (headers :: cellRows)) = lines).
  { unfold csvLines, writeCsv. fold lines. fold text.
    rewrite list_ascii_of_string_of_list_ascii.
    rewrite (tight_trim text (proj1 Htext) (proj2 Htext)). subst text.
    rewrite split_on_joinChars;
      [|subst lines; discriminate | intros w Hw; now apply Hlines].
    rewrite forallb_filter_id; [reflexivity|].
    apply forallb_forall. intros line Hline.
    destruct (Hlines line Hline) as (Hs & He & _).
    rewrite (tight_trim _ Hs He). destruct Hs as (c & l' & -> & _).
    apply Z.ltb_lt. simpl List.length. lia. }
  assert (Hblank : isBlank (writeCsv (headers :: cellRows)) = false).
  { unfold isBlank, writeCsv. fold lines. fold text.
    rewrite list_ascii_of_string_of_list_ascii.
    destruct (proj1 Htext) as (c & l' & -> & Hc). cbn [forallb]. now rewrite Hc. }
  assert (Hhdr : csvHeaders (writeCsv (headers :: cellRows))
                 = map string_of_list_ascii headers).
  { unfold csvHeaders. rewrite Hcsv. subst lines. cbn [map hd].
    unfold parseCSVChars, writeLine.
    destruct headers as [|h hs]; [simpl in Htwo; lia|].
    rewrite parseCSVLoop_joined. cbn [app].
    apply map_ext_in. intros cell Hcell. unfold trimString.
    rewrite Forall_forall in Hheaders. now rewrite (proj1 (Hheaders cell Hcell)). }
  destruct (parseCsv_cases (writeCsv (headers :: cellRows)) requiredColumns)
    as [[Hb _]|[(_ & Hmissing & _)|(_ & _ & Hparsed)]].
  - congruence.
  - exfalso. apply Hmissing. unfold missingColumns. rewrite Hhdr.
    apply filter_none. intros col Hcol. apply negb_false_iff.
    apply existsb_exists. exists col. split; [now apply Hreq | apply String.eqb_refl].
  - rewrite Hparsed, Hhdr, Hcsv. subst lines. cbn [map tl].
    now rewrite fold_addCsvRow.
Qed.

Lemma parseCsv_round_trip_witness :
  parseCsv (writeCsv tableSample) ["climber_id"; "climber_name"]%string
  = Parsed [[("climber_id", "C1"); ("climber_name", "Doe, Ann")];
            [("climber_id", "C2"); ("climber_name", EmptyString)]]%string.
Proof.
  apply (parseCsv_round_trip
           [list_ascii_of_string "climber_id"; list_ascii_of_string "climber_name"]
           [[list_ascii_of_string "C1"; list_ascii_of_string "Doe, Ann"];
            [list_ascii_of_string "C2"; []]]).
  - simpl. lia.
  - repeat constructor; try reflexivity;
      (intros Hin; simpl in Hin; repeat destruct Hin as [Hin|Hin];
       try discriminate Hin; exact Hin).
  - repeat constructor; try reflexivity;
      (intros Hin; simpl in Hin; repeat destruct Hin as [Hin|Hin];
       try discriminate Hin; exact Hin).
  - intros col [<-|[<-|[]]]; simpl; auto.
Defined.

(** ** Data source URLs *)

Lemma append_assoc (a b c : string) :
  ((a ++ b) ++ c = a ++ (b ++ c))%string.
Proof. induction a as [|x a IH]; simpl; [reflexivity | now rewrite IH]. Qed.

Lemma append_inj_l (a b c : string) : (a ++ b = a ++ c)%string -> b = c.
Proof.
  induction a as [|x a IH]; simpl; [trivial|]. intros [= H]. now apply IH.
Qed.

Lemma numberToString_inj n n' : numberToString n = numberToString n' -> n = n'.
Proof.
  unfold numberToString. intros Heq. apply DecimalZ.to_int_inj.
  assert (Hnn : forall z, Z.to_int z <> Decimal.Pos Decimal.Nil
                          /\ Z.to_int z <> Decimal.Neg Decimal.Nil).
  { intros [|p|p]; simpl; split; try discriminate;
      intros [= H]; now apply DecimalPos.Unsigned.to_uint_nonnil in H. }
  assert (Hsome : Some (Z.to_int n) = Some (Z.to_int n')).
  { rewrite <- (NilZero.isi (Z.to_int n)) by apply Hnn.
    rewrite <- (NilZero.isi (Z.to_int n')) by apply Hnn.
    now rewrite Heq. }
  now injection Hsome.
Qed.

(** The address built from a sheet id holds a question mark. *)
Lemma constructed_url_includes (sheetId gid : string) :
  includes ("https://docs.google.com/spreadsheets/d/" ++ sheetId
            ++ "/export?format=csv&gid=" ++ gid) "?" = true.
Proof.
  apply includes_spec.
  exists ("https://docs.google.com/spreadsheets/d/" ++ sheetId ++ "/export")%string,
         ("format=csv&gid=" ++ gid)%string.
  rewrite !append_assoc. reflexivity.
Qed.

Lemma cachebust_inj (url : string) (now now' : Z) :
  (url ++ (if includes url "?" then "&" else "?")
       ++ "cachebust=" ++ numberToString now
   = url ++ (if includes url "?" then "&" else "?")
         ++ "cachebust=" ++ numberToString now')%string ->
  now = now'.
Proof.
  intros Heq. apply append_inj_l in Heq.
  destruct (includes url "?"); simpl in Heq; injection Heq as Heq;
    now apply numberToString_inj.
Qed.

(** X24. The addresses the data is fetched from. In "google-sheets" mode
    [getTeamsUrl] and [getResultsUrl] return the published address when
    there is one, and otherwise the export address of the sheet id and gid,
    followed by "cachebust=" and the time, after "&" when the address holds
    a question mark and after "?" otherwise; the export address always
    holds one, so it is always followed by "&cachebust="; two calls at
    different times never return the same address. In any other mode they
    return the local file names, whatever the time. *)
Theorem data_urls_spec : forall (config : Config) (now : Z),
  (dataSource config <> "google-sheets"%string ->
   getTeamsUrl config now = teamsFile (localFiles config)
   /\ getResultsUrl config now = resultsFile (localFiles config))
  /\ (dataSource config = "google-sheets"%string ->
      (forall now', getTeamsUrl config now = getTeamsUrl config now' ->
                    now = now')
      /\ (forall now', getResultsUrl config now = getResultsUrl config now' ->
                       now = now')
      /\ (teamsUrl (googleSheets config) = EmptyString ->
          getTeamsUrl config now
          = ("https://docs.google.com/spreadsheets/d/"
             ++ teamsSheetId (googleSheets config)
             ++ "/export?format=csv&gid=" ++ teamsGid (googleSheets config)
             ++ "&cachebust=" ++ numberToString now)%string)
      /\ (resultsUrl (googleSheets config) = EmptyString ->
          getResultsUrl config now
          = ("https://docs.google.com/spreadsheets/d/"
             ++ resultsSheetId (googleSheets config)
             ++ "/export?format=csv&gid=" ++ resultsGid (googleSheets config)
             ++ "&cachebust=" ++ numberToString now)%string)).
Proof.
  intros config now. unfold getTeamsUrl, getResultsUrl. split.
  - intros Hmode. apply String.eqb_neq in Hmode. now rewrite Hmode.
  - intros ->. rewrite String.eqb_refl. cbv zeta.
    split; [intros now'; apply cachebust_inj|].
    split; [intros now'; apply cachebust_inj|].
    split; intros ->; cbn [truthy String.eqb negb];
      rewrite constructed_url_includes, !append_assoc; reflexivity.
Qed.

(** The addresses of the repository's configuration. *)
Example data_urls_of_CONFIG :
  getTeamsUrl CONFIG 1730000000000
  = (teamsUrl (googleSheets CONFIG) ++ "&cachebust=1730000000000")%string
  /\ getResultsUrl CONFIG 1730000000000
     = (resultsUrl (googleSheets CONFIG) ++ "&cachebust=1730000000000")%string.
Proof. split; vm_compute; reflexivity. Qed.
